(** * heyoka.py compiled functions: the evaluation dispatcher of [cfunc.cpp]

    A shallow embedding of [expose_add_cfunc_impl<T>] (src/heyoka/cfunc.cpp):
    the construction of an evaluator (SIMD width, kernel metadata, scratch
    buffers) and the call operator of the returned closure (argument
    conversion, validation, preparation of the outputs array, the zero-copy
    decision and the four execution paths).

    NumPy arrays are views (shape, strides, data pointer, flags) over a flat
    heap of element cells; the scratch vectors [buf_in], [buf_out],
    [buf_pars], [buf_time] live next to the heap in the state. The closure is
    a computation in a state-and-exception monad, whose state also records
    every kernel invocation and every pointer addition. *)

From stdpp Require Import base numbers list option strings.
From Stdlib Require Import ZArith Lia.

Local Open Scope Z_scope.

(** ** Element types and element cells *)

(** The template parameter [T]: the four instantiations at the end of
    cfunc.cpp ([double], [long double], [mppp::real128], [mppp::real]). *)
Inductive fp_type := Double | LongDouble | Real128 | Real.

(** [std::is_same_v<T, mppp::real>] *)
Definition is_real (T : fp_type) : bool :=
  match T with Real => true | _ => false end.

(** [std::is_same_v<T, double>] *)
Definition is_double (T : fp_type) : bool :=
  match T with Double => true | _ => false end.

(** One array slot. Fixed-size floating-point values are kept as bit
    patterns; an [mppp::real] carries its precision and a payload ([None] is
    NaN); a slot of an array of reals may also hold no constructed value. *)
Inductive cell :=
| Fixed (bits : Z)
| MpReal (prec : Z) (payload : option Z)
| Unconstructed.

#[global] Instance cell_eq_dec : EqDecision cell.
Proof. solve_decision. Defined.

#[global] Instance cell_inhabited : Inhabited cell := populate (Fixed 0).

(** The precision of a constructed [mppp::real]. *)
Definition get_prec (c : cell) : option Z :=
  match c with MpReal p _ => Some p | _ => None end.

(** [c] is a constructed real of precision [p]. *)
Definition has_prec (p : Z) (c : cell) : bool :=
  match c with MpReal q _ => q =? p | _ => false end.

(** The least precision of mp++; a default-constructed real has it. Its value
    plays no role below, since [set_prec] replaces it. *)
Definition real_prec_min : Z := 1.

(** [T{}], the value a [std::vector<T>::resize] fills new slots with. *)
Definition value_init (T : fp_type) : cell :=
  if is_real T then MpReal real_prec_min (Some 0) else Fixed 0.

(** [mppp::real::set_prec]: the precision is replaced, the value is lost
    (NaN). *)
Definition set_prec (c : cell) (p : Z) : cell := MpReal p None.

(** ** Pointers *)

Inductive buf_id := BufIn | BufOut | BufPars | BufTime.

#[global] Instance buf_id_eq_dec : EqDecision buf_id.
Proof. solve_decision. Defined.

(** A non-null pointer points into the heap or into one scratch vector. *)
Inductive loc :=
| LHeap (a : Z)
| LBuf (b : buf_id) (i : Z).

#[global] Instance loc_eq_dec : EqDecision loc.
Proof. solve_decision. Defined.

(** [None] is [nullptr]. *)
Definition ptr := option loc.

(** [p + k] *)
Definition ptr_add (p : ptr) (k : Z) : ptr :=
  match p with
  | None => None
  | Some (LHeap a) => Some (LHeap (a + k))
  | Some (LBuf b i) => Some (LBuf b (i + k))
  end.

(** The four argument roles of a kernel. *)
Inductive role := ROut | RIn | RPar | RTime.

#[global] Instance role_eq_dec : EqDecision role.
Proof. solve_decision. Defined.

(** ** NumPy arrays *)

(** A [py::array]: the descriptor of a view. Strides are counted in
    elements; [nd_data] is [None] when the data pointer is null. *)
Record ndarray := {
  nd_dtype : Z;
  nd_shape : list Z;
  nd_strides : list Z;
  nd_data : option Z;
  nd_writeable : bool;
  nd_aligned : bool
}.

#[global] Instance ndarray_eq_dec : EqDecision ndarray.
Proof. solve_decision. Defined.


(** [arr.ndim()] *)
Definition ndim (a : ndarray) : Z := Z.of_nat (length (nd_shape a)).

(** [arr.shape(i)]; only used below once [i < ndim] is known. *)
Definition shape_at (a : ndarray) (i : nat) : Z := nth i (nd_shape a) 0.

Definition stride_at (a : ndarray) (i : nat) : Z := nth i (nd_strides a) 0.

(** [arr.data()] as a kernel pointer. *)
Definition data_ptr (a : ndarray) : ptr := LHeap <$> nd_data a.

(** The address of the first element (0 for a null data pointer). *)
Definition base_addr (a : ndarray) : Z := default 0 (nd_data a).

(** The address read by [arr.unchecked<T, 1>()(i)]. *)
Definition addr1 (a : ndarray) (i : Z) : Z :=
  base_addr a + i * stride_at a 0.

(** The address read by [arr.unchecked<T, 2>()(i, j)]. *)
Definition addr2 (a : ndarray) (i j : Z) : Z :=
  base_addr a + i * stride_at a 0 + j * stride_at a 1.

(** The number of elements. *)
Definition nd_size (a : ndarray) : Z := foldr Z.mul 1 (nd_shape a).

(** The strides of a densely packed row-major array of the given shape. *)
Fixpoint c_strides (shape : list Z) : list Z :=
  match shape with
  | [] => []
  | _ :: rest => foldr Z.mul 1 rest :: c_strides rest
  end.

(** The offsets of all the elements of a view, in row-major order (a missing
    stride counts as 0, as in [stride_at]). *)
Fixpoint offsets (shape strides : list Z) : list Z :=
  match shape with
  | n :: shape' =>
      i ← seqZ 0 n; (λ o, i * hd 0 strides + o) <$> offsets shape' (tl strides)
  | [] => [0]
  end.

(** The addresses of all the elements of an array, in row-major order. *)
Definition addresses (a : ndarray) : list Z :=
  (λ o, base_addr a + o) <$> offsets (nd_shape a) (nd_strides a).

(** The strides of [a] are those of a densely packed row-major array. *)
Definition is_c_contiguous (a : ndarray) : bool :=
  bool_decide (nd_strides a = c_strides (nd_shape a)).

(** Modelled from the spec: [is_npy_array_carray] (common_utils) is not part
    of the sources at hand. Section 4.2 and the comment above its use ask for
    an array that is contiguous in the "C-style", densely packed layout, and
    aligned. *)
Definition is_npy_array_carray (a : ndarray) : bool :=
  is_c_contiguous a && nd_aligned a.

(** The least and the largest offset reached along the dimensions of a
    view. *)
Fixpoint low_offset (shape strides : list Z) : Z :=
  match shape with
  | n :: shape' =>
      Z.min 0 ((n - 1) * hd 0 strides) + low_offset shape' (tl strides)
  | [] => 0
  end.

Fixpoint high_offset (shape strides : list Z) : Z :=
  match shape with
  | n :: shape' =>
      Z.max 0 ((n - 1) * hd 0 strides) + high_offset shape' (tl strides)
  | [] => 0
  end.

(** The memory bounds [lo, hi) of a view; an array without elements occupies
    no memory. *)
Definition extent (a : ndarray) : option (Z * Z) :=
  if forallb (λ n, 0 <? n) (nd_shape a)
  then Some (base_addr a + low_offset (nd_shape a) (nd_strides a),
             base_addr a + high_offset (nd_shape a) (nd_strides a) + 1)
  else None.

(** Modelled from the spec: [may_share_memory] (common_utils) is not part of
    the sources at hand; this is its answer for two arrays. Section 4.2: the
    two buffers may share a memory region, that is, their memory bounds
    overlap. *)
Definition may_share_memory2 (a b : ndarray) : bool :=
  match extent a, extent b with
  | Some (lo1, hi1), Some (lo2, hi2) => (lo1 <? hi2) && (lo2 <? hi1)
  | _, _ => false
  end.

(** Modelled from the spec: [may_share_memory] (common_utils) is not part of
    the sources at hand. Section 4.2: some pair of the buffers may share a
    memory region. *)
Fixpoint may_share_memory (l : list ndarray) : bool :=
  match l with
  | [] => false
  | a :: rest => existsb (may_share_memory2 a) rest || may_share_memory rest
  end.

(** ** What the dispatcher takes from its collaborators *)

(** The pieces of heyoka, NumPy and the dtype table the dispatcher calls. *)
Class Extern := {
  (** [hey::recommended_simd_size<T>()] *)
  recommended_simd_size : fp_type → Z;
  (** [get_dtype<T>()]: the NumPy type number of [T] *)
  get_dtype : fp_type → Z;
  (** NumPy's "safe" casting rule between two type numbers *)
  can_cast_safe : Z → Z → bool;
  (** the conversion of one element under a safe cast *)
  cast_cell : Z → Z → cell → cell
}.

(** ** State, events and errors *)

Record scratch := {
  buf_in : list cell;
  buf_out : list cell;
  buf_pars : list cell;
  buf_time : list cell
}.

Inductive kernel_id := FptrScal | FptrBatch | FptrScalS | FptrBatchS.

#[global] Instance kernel_id_eq_dec : EqDecision kernel_id.
Proof. solve_decision. Defined.

(** One kernel invocation: the entry point, the four pointers and, for the
    strided entry points, the stride. *)
Record kcall := {
  k_fptr : kernel_id;
  k_out : ptr;
  k_in : ptr;
  k_par : ptr;
  k_time : ptr;
  k_stride : option Z
}.

#[global] Instance kcall_eq_dec : EqDecision kcall.
Proof. solve_decision. Defined.

Inductive event :=
| EvPtrAdd (r : role) (off : Z)   (* [base + off] on the data pointer of a role *)
| EvKernel (c : kcall).

#[global] Instance event_eq_dec : EqDecision event.
Proof. solve_decision. Defined.

Record state := {
  heap : Z → cell;        (* the memory of the NumPy arrays *)
  brk : Z;                (* first address never handed out so far *)
  scr : scratch;          (* the vectors captured by the closure *)
  trace : list event      (* oldest event first *)
}.

(** The [ValueError]s (and conversion failures) of cfunc.cpp, named after
    section 7 of the specification, with the offending argument. *)
Inductive error :=
| UnsupportedBatchWidth
| UnsafeCast (r : role)
| MissingParameters
| MissingTime
| InvalidDimensionality
| NumericCastOverflow (r : role)
| SizeMismatch (r : role)
| ScalarTimeExpected
| NonWritableOutput
| DimMismatch (r : role)
| BatchSizeMismatch (r : role)
| TimeNotOneDim
| PrecisionMismatch (r : role).

#[global] Instance error_eq_dec : EqDecision error.
Proof. solve_decision. Defined.

Inductive result (A : Type) :=
| Ok (a : A)
| Raise (e : error).
Arguments Ok {A} a.
Arguments Raise {A} e.

(** A computation may change the state and then return or throw; what it
    changed before throwing stays changed. *)
Definition M (A : Type) : Type := state → result A * state.

Definition ret {A} (a : A) : M A := λ s, (Ok a, s).

Definition bind {A B} (m : M A) (k : A → M B) : M B :=
  λ s, match m s with
       | (Ok a, s') => k a s'
       | (Raise e, s') => (Raise e, s')
       end.

(** [heypy::py_throw] *)
Definition py_throw {A} (e : error) : M A := λ s, (Raise e, s).

Declare Scope cfunc_scope.
Delimit Scope cfunc_scope with cfunc.
Notation "x <- m ;; k" := (bind m (λ x, k))
  (at level 100, m at next level, right associativity) : cfunc_scope.
Notation "m ;; k" := (bind m (λ _, k))
  (at level 100, right associativity) : cfunc_scope.
Local Open Scope cfunc_scope.

(** [if (c) py_throw(e);] *)
Definition throw_if (c : bool) (e : error) : M unit :=
  if c then py_throw e else ret tt.

(** A [for] loop over the given indices. *)
Fixpoint for_each (l : list Z) (body : Z → M unit) : M unit :=
  match l with
  | [] => ret tt
  | k :: rest => body k;; for_each rest body
  end.

Definition get_heap : M (Z → cell) := λ s, (Ok (heap s), s).

Definition get_scratch : M scratch := λ s, (Ok (scr s), s).

Definition set_heap (h : Z → cell) : M unit :=
  λ s, (Ok tt, {| heap := h; brk := brk s; scr := scr s; trace := trace s |}).

Definition set_scratch (b : scratch) : M unit :=
  λ s, (Ok tt, {| heap := heap s; brk := brk s; scr := b; trace := trace s |}).

Definition log (e : event) : M unit :=
  λ s, (Ok tt, {| heap := heap s; brk := brk s; scr := scr s;
                  trace := trace s ++ [e] |}).

(** One heap cell written. *)
Definition upd (h : Z → cell) (a : Z) (v : cell) : Z → cell :=
  λ x, if bool_decide (x = a) then v else h x.

(** The cells at [addrs] written with [vals], in order. *)
Fixpoint upd_list (h : Z → cell) (addrs : list Z) (vals : list cell) : Z → cell :=
  match addrs, vals with
  | a :: addrs', v :: vals' => upd_list (upd h a v) addrs' vals'
  | _, _ => h
  end.

(** The elements of an array, in row-major order. *)
Definition contents (h : Z → cell) (a : ndarray) : list cell :=
  h <$> addresses a.

(** The descriptor of a densely packed, aligned, writeable array at [d]. *)
Definition dense_array (dt : Z) (shape : list Z) (d : Z) : ndarray :=
  {| nd_dtype := dt; nd_shape := shape; nd_strides := c_strides shape;
     nd_data := Some d; nd_writeable := true; nd_aligned := true |}.

(** A new array: [py::array(dtype, shape)]. Its memory is taken at [brk]; the
    cells there keep what they held. *)
Definition new_array (dt : Z) (shape : list Z) : M ndarray :=
  λ s, (Ok (dense_array dt shape (brk s)),
        {| heap := heap s; brk := brk s + Z.max 1 (foldr Z.mul 1 shape);
           scr := scr s; trace := trace s |}).

(** ** The evaluator *)

(** What the closure returned by [add_cfunc] captures by value, but for the
    scratch vectors (which it mutates: they are in the state). [kernel_fn] is
    the function the four compiled entry points compute: from the values of
    the variables, of the parameters and (if the function depends on time) of
    time, to the values of the outputs. *)
Record cfunc := {
  elt_type : fp_type;
  simd_size : Z;
  nparams : Z;
  is_time_dependent : bool;
  nouts : Z;
  nvars : Z;
  prec : Z;
  kernel_fn : list cell → list cell → option cell → list cell
}.

(** What the call operator knows once validation is over. *)
Record prepared := {
  p_inputs : ndarray;
  p_outputs : ndarray;
  p_pars : option ndarray;
  p_time : option ndarray;
  p_multi_eval : bool;
  p_zero_copy : bool
}.

Definition uint32_max : Z := 2 ^ 32 - 1.

(** [boost::numeric_cast<std::uint32_t>] of a signed size of the array of
    role [r]. *)
Definition numeric_cast_u32 (r : role) (z : Z) : M Z :=
  if (0 <=? z) && (z <=? uint32_max) then ret z else py_throw (NumericCastOverflow r).

(** [static_cast<std::uint32_t>] of a size. *)
Definition static_cast_u32 (z : Z) : Z := z mod 2 ^ 32.

(** The product of two [std::uint32_t]. *)
Definition mul_u32 (a b : Z) : Z := (a * b) mod 2 ^ 32.

Definition get_buf (b : buf_id) (sc : scratch) : list cell :=
  match b with
  | BufIn => buf_in sc
  | BufOut => buf_out sc
  | BufPars => buf_pars sc
  | BufTime => buf_time sc
  end.

Definition put_buf (b : buf_id) (l : list cell) (sc : scratch) : scratch :=
  match b with
  | BufIn => {| buf_in := l; buf_out := buf_out sc; buf_pars := buf_pars sc; buf_time := buf_time sc |}
  | BufOut => {| buf_in := buf_in sc; buf_out := l; buf_pars := buf_pars sc; buf_time := buf_time sc |}
  | BufPars => {| buf_in := buf_in sc; buf_out := buf_out sc; buf_pars := l; buf_time := buf_time sc |}
  | BufTime => {| buf_in := buf_in sc; buf_out := buf_out sc; buf_pars := buf_pars sc; buf_time := l |}
  end.

(** [v[i]] on a vector; outside the vector (undefined in C++) the read gives
    a fixed value and the write does nothing. *)
Definition vec_get (l : list cell) (i : Z) : cell :=
  if bool_decide (0 ≤ i) then l !!! Z.to_nat i else inhabitant.

Definition vec_set (l : list cell) (i : Z) (v : cell) : list cell :=
  if bool_decide (0 ≤ i) then <[Z.to_nat i := v]> l else l.

(** [p[i]] read. A null pointer is only ever handed to a kernel for a role
    the kernel does not read. *)
Definition load (s : state) (p : ptr) (i : Z) : cell :=
  match p with
  | None => inhabitant
  | Some (LHeap a) => heap s (a + i)
  | Some (LBuf b o) => vec_get (get_buf b (scr s)) (o + i)
  end.

(** [p[i] = v] *)
Definition store (p : ptr) (i : Z) (v : cell) (s : state) : state :=
  match p with
  | None => s
  | Some (LHeap a) =>
      {| heap := upd (heap s) (a + i) v; brk := brk s; scr := scr s; trace := trace s |}
  | Some (LBuf b o) =>
      {| heap := heap s; brk := brk s;
         scr := put_buf b (vec_set (get_buf b (scr s)) (o + i) v) (scr s);
         trace := trace s |}
  end.

Fixpoint store_list (p : ptr) (idxs : list Z) (vals : list cell) (s : state) : state :=
  match idxs, vals with
  | i :: idxs', v :: vals' => store_list p idxs' vals' (store p i v s)
  | _, _ => s
  end.

(** The errors of the checks on parameters and time that come after the
    array of outputs is ready. *)
Definition late_error (e : error) : bool :=
  match e with
  | DimMismatch RPar | NumericCastOverflow RPar | SizeMismatch RPar
  | BatchSizeMismatch RPar | PrecisionMismatch RPar
  | TimeNotOneDim | BatchSizeMismatch RTime | PrecisionMismatch RTime => true
  | _ => false
  end.

(** The heap below [brk s] is as it was, but for the addresses in [W]. *)
Definition heap_frame (W : Z → Prop) : relation state :=
  λ s s', brk s ≤ brk s' ∧ ∀ x, x < brk s → ¬ W x → heap s' x = heap s x.

(** The heap below address [b] is as it was. *)
Definition heap_below (b : Z) : relation state :=
  λ s s', ∀ x, x < b → heap s' x = heap s x.

(** Nothing below [brk s] was written. *)
Definition heap_kept : relation state := heap_frame (λ _, False).

(** [a] is an array that was created at or above address [b0]. *)
Definition fresh_array (b0 : Z) (a : ndarray) : Prop :=
  ∃ d, a = dense_array (nd_dtype a) (nd_shape a) d ∧ b0 ≤ d.

(** Every element of [a] holds a constructed real of precision [pr]. *)
Definition array_has_prec (pr : Z) (h : Z → cell) (a : ndarray) : Prop :=
  ∀ x, x ∈ addresses a → has_prec pr (h x) = true.

Section Dispatcher.

Context `{Extern}.

(** *** The compiled kernels *)

(** Modelled from the spec: the compiled kernels come from the JIT backend,
    outside of the sources at hand. Sections 4.4 and 6 (kernel ABI): a kernel
    of width [w] evaluates [w] points; with element stride [st], value [i] of
    a role at point [j] is at [i * st + j] behind the pointer of the role
    (the dense entry points have [st = w]), and time at point [j] is at [j]. *)
Definition lane_result (cf : cfunc) (s : state) (p_in p_par p_time : ptr)
    (st j : Z) : list cell :=
  let ins := (λ i, load s p_in (i * st + j)) <$> seqZ 0 (nvars cf) in
  let pars := (λ i, load s p_par (i * st + j)) <$> seqZ 0 (nparams cf) in
  let tm := if is_time_dependent cf then Some (load s p_time j) else None in
  resize (Z.to_nat (nouts cf)) inhabitant (kernel_fn cf ins pars tm).

(** Modelled from the spec: the write of one point by a compiled kernel,
    outside of the sources at hand. Sections 4.4 and 6: output [i] at point
    [jv.1] goes to [i * st + jv.1] behind the pointer of the outputs. *)
Definition store_lane (cf : cfunc) (p_out : ptr) (st : Z) (s : state)
    (jv : Z * list cell) : state :=
  store_list p_out ((λ i, i * st + jv.1) <$> seqZ 0 (nouts cf)) jv.2 s.

(** Modelled from the spec: a compiled kernel of width [w] and stride [st],
    outside of the sources at hand. Sections 4.4 and 6: all the points are
    read before any output is written. *)
Definition kernel (cf : cfunc) (w st : Z) (p_out p_in p_par p_time : ptr) : M unit :=
  λ s, let lanes := (λ j, (j, lane_result cf s p_in p_par p_time st j)) <$> seqZ 0 w in
       (Ok tt, foldl (store_lane cf p_out st) s lanes).

Definition fptr_scal (cf : cfunc) (p_out p_in p_par p_time : ptr) : M unit :=
  log (EvKernel {| k_fptr := FptrScal; k_out := p_out; k_in := p_in;
                   k_par := p_par; k_time := p_time; k_stride := None |});;
  kernel cf 1 1 p_out p_in p_par p_time.

Definition fptr_batch (cf : cfunc) (p_out p_in p_par p_time : ptr) : M unit :=
  log (EvKernel {| k_fptr := FptrBatch; k_out := p_out; k_in := p_in;
                   k_par := p_par; k_time := p_time; k_stride := None |});;
  kernel cf (simd_size cf) (simd_size cf) p_out p_in p_par p_time.

Definition fptr_scal_s (cf : cfunc) (p_out p_in p_par p_time : ptr) (stride : Z) : M unit :=
  log (EvKernel {| k_fptr := FptrScalS; k_out := p_out; k_in := p_in;
                   k_par := p_par; k_time := p_time; k_stride := Some stride |});;
  kernel cf 1 stride p_out p_in p_par p_time.

Definition fptr_batch_s (cf : cfunc) (p_out p_in p_par p_time : ptr) (stride : Z) : M unit :=
  log (EvKernel {| k_fptr := FptrBatchS; k_out := p_out; k_in := p_in;
                   k_par := p_par; k_time := p_time; k_stride := Some stride |});;
  kernel cf (simd_size cf) stride p_out p_in p_par p_time.

(** *** Conversion of the arguments *)

(** [py::array] of a one-element list holding the scalar [v]: a new array of
    shape (1,), of the dtype of [T]. *)
Definition array_of_scalar (dt : Z) (v : cell) : M ndarray :=
  a <- new_array dt [1];;
  h <- get_heap;;
  set_heap (upd h (base_addr a) v);;
  ret a.

(** [arr.astype(dt, casting="safe")]: always a new array, with the elements
    of [arr] converted; a [TypeError] when the cast is not safe. The new
    array is taken densely packed in row-major order. *)
Definition astype (r : role) (a : ndarray) (dt : Z) : M ndarray :=
  if can_cast_safe (nd_dtype a) dt then
    b <- new_array dt (nd_shape a);;
    h <- get_heap;;
    set_heap (upd_list h (addresses b) (cast_cell (nd_dtype a) dt <$> contents h a));;
    ret b
  else py_throw (UnsafeCast r).

(** [if (arr.dtype().num() != dt) arr = arr.astype(...)] *)
Definition enforce_dtype (r : role) (dt : Z) (a : ndarray) : M ndarray :=
  if bool_decide (nd_dtype a ≠ dt) then astype r a dt else ret a.

Definition enforce_dtype_opt (r : role) (dt : Z) (oa : option ndarray) : M (option ndarray) :=
  match oa with
  | Some a => b <- enforce_dtype r dt a;; ret (Some b)
  | None => ret None
  end.

(** *** Precision of arrays of reals *)

(** Modelled from the spec: [pyreal_check_array] (expose_real) is not part of
    the sources at hand. Section 4.5: the values of a caller-supplied buffer
    must already be constructed at precision [prec]; a mismatch is an
    error. *)
Definition pyreal_check_array (r : role) (a : ndarray) (p : Z) : M unit :=
  h <- get_heap;;
  throw_if (negb (forallb (has_prec p) (contents h a))) (PrecisionMismatch r).

(** What [pyreal_ensure_array] leaves in a slot: a constructed value of
    precision [p]. *)
Definition ensure_cell (p : Z) (c : cell) : cell :=
  match c with
  | MpReal q v => if q =? p then c else MpReal p v
  | _ => MpReal p (Some 0)
  end.

(** Modelled from the spec: [pyreal_ensure_array] (expose_real) is not part
    of the sources at hand. Section 4.5 and the comment at its call: every
    slot of the array is made to hold a constructed value of precision
    [prec]. *)
Definition pyreal_ensure_array (a : ndarray) (p : Z) : M unit :=
  h <- get_heap;;
  set_heap (foldl (λ h' x, upd h' x (ensure_cell p (h' x))) h (addresses a)).

(** The addresses of a caller-supplied array of outputs on which
    [pyreal_ensure_array] works: the element type is [mppp::real] and the
    array needs no conversion. *)
Definition normalized_outputs (cf : cfunc) (outputs_ob : option ndarray) (x : Z) : Prop :=
  is_real (elt_type cf) = true ∧
  ∃ o, outputs_ob = Some o ∧ nd_dtype o = get_dtype (elt_type cf) ∧ x ∈ addresses o.

(** *** Validation *)

(** The lambda that prepares the array of outputs. *)
Definition prepare_outputs (cf : cfunc) (inputs : ndarray)
    (outputs_ : option ndarray) (multi_eval : bool) : M ndarray :=
  match outputs_ with
  | Some o =>
      throw_if (negb (nd_writeable o)) NonWritableOutput;;
      throw_if (bool_decide (ndim o ≠ ndim inputs)) (DimMismatch ROut);;
      n0 <- numeric_cast_u32 ROut (shape_at o 0);;
      throw_if (bool_decide (n0 ≠ nouts cf)) (SizeMismatch ROut);;
      throw_if (multi_eval && bool_decide (shape_at o 1 ≠ shape_at inputs 1))
               (BatchSizeMismatch ROut);;
      ret o
  | None =>
      if multi_eval
      then new_array (nd_dtype inputs) [nouts cf; shape_at inputs 1]
      else new_array (nd_dtype inputs) [nouts cf]
  end.

(** The checks on the array of parameter values. *)
Definition check_pars (cf : cfunc) (inputs : ndarray) (pars : option ndarray)
    (multi_eval : bool) : M unit :=
  match pars with
  | Some p =>
      throw_if (bool_decide (ndim p ≠ ndim inputs)) (DimMismatch RPar);;
      n0 <- numeric_cast_u32 RPar (shape_at p 0);;
      throw_if (bool_decide (n0 ≠ nparams cf)) (SizeMismatch RPar);;
      throw_if (multi_eval && bool_decide (shape_at p 1 ≠ shape_at inputs 1))
               (BatchSizeMismatch RPar);;
      if is_real (elt_type cf) then pyreal_check_array RPar p (prec cf) else ret tt
  | None => ret tt
  end.

(** The checks on the array of time values. *)
Definition check_time (cf : cfunc) (inputs : ndarray) (time : option ndarray)
    (multi_eval : bool) : M unit :=
  match time with
  | Some t =>
      throw_if (bool_decide (ndim t ≠ 1)) TimeNotOneDim;;
      throw_if (multi_eval && bool_decide (shape_at t 0 ≠ shape_at inputs 1))
               (BatchSizeMismatch RTime);;
      if is_real (elt_type cf) then pyreal_check_array RTime t (prec cf) else ret tt
  | None => ret tt
  end.

(** The zero-copy decision. *)
Definition zero_copy_of (inputs outputs : ndarray) (pars time : option ndarray) : bool :=
  let zero_copy :=
    is_npy_array_carray inputs && is_npy_array_carray outputs
    && from_option is_npy_array_carray true pars
    && from_option is_npy_array_carray true time in
  if zero_copy then
    let maybe_share_memory :=
      match pars, time with
      | Some p, Some t => may_share_memory [inputs; outputs; p; t]
      | Some p, None => may_share_memory [inputs; outputs; p]
      | None, Some t => may_share_memory [inputs; outputs; t]
      | None, None => may_share_memory [inputs; outputs]
      end in
    if maybe_share_memory then false else zero_copy
  else zero_copy.

(** [std::holds_alternative<T>] on the time argument *)
Definition holds_scalar (time_ob : option (cell + ndarray)) : bool :=
  match time_ob with Some (inl _) => true | _ => false end.

(** The time argument as an array: a scalar goes through a one-element
    list. *)
Definition time_array (dt : Z) (time_ob : option (cell + ndarray)) : M (option ndarray) :=
  match time_ob with
  | Some (inl v) => a <- array_of_scalar dt v;; ret (Some a)
  | Some (inr a) => ret (Some a)
  | None => ret None
  end.

(** The call operator up to the zero-copy decision. An argument that is
    already a NumPy array is taken as it is; [time_ob] is a scalar or an
    array. *)
Definition prepare (cf : cfunc) (inputs_ob : ndarray)
    (outputs_ob pars_ob : option ndarray) (time_ob : option (cell + ndarray)) : M prepared :=
  let dt := get_dtype (elt_type cf) in
  let inputs := inputs_ob in
  let outputs_ := outputs_ob in
  let pars := pars_ob in
  time <- time_array dt time_ob;;
  inputs <- enforce_dtype RIn dt inputs;;
  outputs_ <- enforce_dtype_opt ROut dt outputs_;;
  pars <- enforce_dtype_opt RPar dt pars;;
  time <- enforce_dtype_opt RTime dt time;;
  throw_if ((0 <? nparams cf) && negb (bool_decide (is_Some pars))) MissingParameters;;
  throw_if (is_time_dependent cf && negb (bool_decide (is_Some time))) MissingTime;;
  throw_if (bool_decide (ndim inputs ≠ 1) && bool_decide (ndim inputs ≠ 2))
           InvalidDimensionality;;
  n0 <- numeric_cast_u32 RIn (shape_at inputs 0);;
  throw_if (bool_decide (n0 ≠ nvars cf)) (SizeMismatch RIn);;
  let multi_eval := bool_decide (ndim inputs = 2) in
  throw_if (bool_decide (is_Some time) && negb multi_eval && negb (holds_scalar time_ob))
           ScalarTimeExpected;;
  outputs <- prepare_outputs cf inputs outputs_ multi_eval;;
  (if is_real (elt_type cf)
   then pyreal_check_array RIn inputs (prec cf);;
        pyreal_ensure_array outputs (prec cf)
   else ret tt);;
  check_pars cf inputs pars multi_eval;;
  check_time cf inputs time multi_eval;;
  ret {| p_inputs := inputs; p_outputs := outputs; p_pars := pars; p_time := time;
         p_multi_eval := multi_eval;
         p_zero_copy := zero_copy_of inputs outputs pars time |}.

(** *** The four execution paths *)

Definition heap_get (a : Z) : M cell := λ s, (Ok (heap s a), s).

Definition heap_set (a : Z) (v : cell) : M unit :=
  h <- get_heap;; set_heap (upd h a v).

Definition buf_get (b : buf_id) (i : Z) : M cell :=
  λ s, (Ok (vec_get (get_buf b (scr s)) i), s).

Definition buf_set (b : buf_id) (i : Z) (v : cell) : M unit :=
  sc <- get_scratch;; set_scratch (put_buf b (vec_set (get_buf b sc) i v) sc).

(** [buf.data()] *)
Definition buf_ptr (b : buf_id) : ptr := Some (LBuf b 0).

(** [base + off] on the data pointer of role [r]. *)
Definition padd (r : role) (base : ptr) (off : Z) : M ptr :=
  log (EvPtrAdd r off);; ret (ptr_add base off).

(** [read ? base + off : nullptr] *)
Definition padd_if (read : bool) (r : role) (base : ptr) (off : Z) : M ptr :=
  if read then padd r base off else ret None.

Definition run_multi_zero_copy (cf : cfunc) (p : prepared) : M unit :=
  let ss_size := simd_size cf in
  let nevals := shape_at (p_inputs p) 1 in
  let n_simd_blocks := Z.quot nevals ss_size in
  let stride := nevals in
  let out_data := data_ptr (p_outputs p) in
  let in_data := data_ptr (p_inputs p) in
  let par_data := from_option data_ptr None (p_pars p) in
  let time_data := from_option data_ptr None (p_time p) in
  let read_inputs := 0 <? nvars cf in
  let read_pars := 0 <? nparams cf in
  let read_time := is_time_dependent cf in
  for_each (seqZ 0 n_simd_blocks) (λ k,
    let start_offset := k * ss_size in
    po <- padd ROut out_data start_offset;;
    pi <- padd_if read_inputs RIn in_data start_offset;;
    pp <- padd_if read_pars RPar par_data start_offset;;
    pt <- padd_if read_time RTime time_data start_offset;;
    fptr_batch_s cf po pi pp pt stride);;
  for_each (seqZ (n_simd_blocks * ss_size) (nevals - n_simd_blocks * ss_size)) (λ k,
    po <- padd ROut out_data k;;
    pi <- padd_if read_inputs RIn in_data k;;
    pp <- padd_if read_pars RPar par_data k;;
    pt <- padd_if read_time RTime time_data k;;
    fptr_scal_s cf po pi pp pt stride).

(** The copy of block [k] (of [w] points) of the [n] rows of a
    two-dimensional array into a scratch vector. *)
Definition gather_block (b : buf_id) (a : ndarray) (n w k : Z) : M unit :=
  for_each (seqZ 0 n) (λ i,
    for_each (seqZ 0 w) (λ j,
      v <- heap_get (addr2 a i (k * w + j));;
      buf_set b (i * w + j) v)).

Definition gather_time_block (a : ndarray) (w k : Z) : M unit :=
  for_each (seqZ 0 w) (λ j,
    v <- heap_get (addr1 a (k * w + j));;
    buf_set BufTime j v).

Definition scatter_block (a : ndarray) (n w k : Z) : M unit :=
  for_each (seqZ 0 n) (λ i,
    for_each (seqZ 0 w) (λ j,
      v <- buf_get BufOut (i * w + j);;
      heap_set (addr2 a i (k * w + j)) v)).

(** The copy of point [k] of the [n] rows of a two-dimensional array into a
    scratch vector. *)
Definition gather_point (b : buf_id) (a : ndarray) (n k : Z) : M unit :=
  for_each (seqZ 0 n) (λ i,
    v <- heap_get (addr2 a i k);;
    buf_set b i v).

Definition gather_time_point (a : ndarray) (k : Z) : M unit :=
  v <- heap_get (addr1 a k);;
  buf_set BufTime 0 v.

Definition scatter_point (a : ndarray) (n k : Z) : M unit :=
  for_each (seqZ 0 n) (λ i,
    v <- buf_get BufOut i;;
    heap_set (addr2 a i k) v).

Definition when_some {A} (o : option A) (f : A → M unit) : M unit :=
  match o with Some a => f a | None => ret tt end.

Definition run_multi_buffered (cf : cfunc) (p : prepared) : M unit :=
  let ss_size := simd_size cf in
  let nevals := shape_at (p_inputs p) 1 in
  let n_simd_blocks := Z.quot nevals ss_size in
  for_each (seqZ 0 n_simd_blocks) (λ k,
    gather_block BufIn (p_inputs p) (nvars cf) ss_size k;;
    when_some (p_pars p) (λ pars, gather_block BufPars pars (nparams cf) ss_size k);;
    when_some (p_time p) (λ time, gather_time_block time ss_size k);;
    fptr_batch cf (buf_ptr BufOut) (buf_ptr BufIn) (buf_ptr BufPars) (buf_ptr BufTime);;
    scatter_block (p_outputs p) (nouts cf) ss_size k);;
  for_each (seqZ (n_simd_blocks * ss_size) (nevals - n_simd_blocks * ss_size)) (λ k,
    gather_point BufIn (p_inputs p) (nvars cf) k;;
    when_some (p_pars p) (λ pars, gather_point BufPars pars (nparams cf) k);;
    when_some (p_time p) (λ time, gather_time_point time k);;
    fptr_scal cf (buf_ptr BufOut) (buf_ptr BufIn) (buf_ptr BufPars) (buf_ptr BufTime);;
    scatter_point (p_outputs p) (nouts cf) k).

Definition run_single_zero_copy (cf : cfunc) (p : prepared) : M unit :=
  fptr_scal cf (data_ptr (p_outputs p)) (data_ptr (p_inputs p))
            (from_option data_ptr None (p_pars p))
            (from_option data_ptr None (p_time p)).

(** The copy of the first [n] elements of a one-dimensional array into a
    scratch vector. *)
Definition gather1 (b : buf_id) (a : ndarray) (n : Z) : M unit :=
  for_each (seqZ 0 n) (λ i,
    v <- heap_get (addr1 a i);;
    buf_set b i v).

Definition scatter1 (a : ndarray) (n : Z) : M unit :=
  for_each (seqZ 0 n) (λ i,
    v <- buf_get BufOut i;;
    heap_set (addr1 a i) v).

Definition run_single_buffered (cf : cfunc) (p : prepared) : M unit :=
  gather1 BufIn (p_inputs p) (nvars cf);;
  when_some (p_pars p) (λ pars, gather1 BufPars pars (nparams cf));;
  when_some (p_time p) (λ time, gather_time_point time 0);;
  fptr_scal cf (buf_ptr BufOut) (buf_ptr BufIn) (buf_ptr BufPars) (buf_ptr BufTime);;
  scatter1 (p_outputs p) (nouts cf).

(** The evaluation proper. *)
Definition run (cf : cfunc) (p : prepared) : M unit :=
  if p_multi_eval p then
    if p_zero_copy p then run_multi_zero_copy cf p else run_multi_buffered cf p
  else
    if p_zero_copy p then run_single_zero_copy cf p else run_single_buffered cf p.

(** The call operator of the closure: [outputs = cf(inputs, outputs, pars,
    time)]. *)
Definition call (cf : cfunc) (inputs_ob : ndarray)
    (outputs_ob pars_ob : option ndarray) (time_ob : option (cell + ndarray)) : M ndarray :=
  p <- prepare cf inputs_ob outputs_ob pars_ob time_ob;;
  run cf p;;
  ret (p_outputs p).

(** *** Construction *)

(** What the dispatcher asks of a symbolic expression of heyoka:
    [hey::get_param_size], [hey::is_time_dependent], [hey::get_variables]. *)
Record expression := {
  get_param_size : Z;
  ex_is_time_dependent : bool;
  get_variables : list string
}.

(** The scratch vectors: [resize] to one SIMD block, then, for [mppp::real],
    [set_prec] on every slot. *)
Definition make_buffer (T : fp_type) (n p : Z) : list cell :=
  let buf := resize (Z.to_nat n) (value_init T) [] in
  if is_real T then (λ val, set_prec val p) <$> buf else buf.

(** The function exposed as [_add_cfunc_*]: it returns the evaluator and the
    initial scratch vectors of its closure. [kfn] stands for the outcome of
    the compilation of [fn]; the options that only reach the compiler are
    left out. *)
Definition add_cfunc (T : fp_type) (fn : list expression)
    (vars : option (list expression)) (batch_size : option Z) (prec_ : Z)
    (kfn : list cell → list cell → option cell → list cell)
    : result (cfunc * scratch) :=
  let simd_size_ := from_option id (recommended_simd_size T) batch_size in
  if negb (is_double T) && (1 <? simd_size_) then Raise UnsupportedBatchWidth
  else
    let nparams_ := foldl (λ acc ex, Z.max acc (get_param_size ex)) 0 fn in
    let is_time_dependent_ := foldl (λ acc ex, acc || ex_is_time_dependent ex) false fn in
    let nouts_ := static_cast_u32 (Z.of_nat (length fn)) in
    let nvars_ :=
      match vars with
      | Some vs => static_cast_u32 (Z.of_nat (length vs))
      | None =>
          let dvars := remove_dups (concat (get_variables <$> fn)) in
          static_cast_u32 (Z.of_nat (length dvars))
      end in
    Ok ({| elt_type := T; simd_size := simd_size_; nparams := nparams_;
           is_time_dependent := is_time_dependent_; nouts := nouts_;
           nvars := nvars_; prec := prec_; kernel_fn := kfn |},
        {| buf_in := make_buffer T (mul_u32 nvars_ simd_size_) prec_;
           buf_out := make_buffer T (mul_u32 nouts_ simd_size_) prec_;
           buf_pars := make_buffer T (mul_u32 nparams_ simd_size_) prec_;
           buf_time := make_buffer T simd_size_ prec_ |}).

(** *** What the preparation of a call guarantees *)

(** The counts of an evaluator are values of [std::uint32_t]. *)
Definition cfunc_wf (cf : cfunc) : Prop :=
  0 ≤ nvars cf ≤ uint32_max ∧ 0 ≤ nouts cf ≤ uint32_max ∧
  0 ≤ nparams cf ≤ uint32_max ∧ 0 ≤ simd_size cf ≤ uint32_max.

(** [a] has the dtype [dt] or can be cast to it safely. *)
Definition castable (dt : Z) (a : ndarray) : Prop :=
  nd_dtype a = dt ∨ can_cast_safe (nd_dtype a) dt = true.

(** The checks made before the array of outputs is looked at all pass: the
    conversions of inputs, parameters and time, the presence of parameters
    and time, the dimensions and the size of the inputs, a scalar time for a
    single evaluation. *)
Definition early_checks_pass (cf : cfunc) (inputs_ob : ndarray)
    (pars_ob : option ndarray) (time_ob : option (cell + ndarray)) : Prop :=
  let dt := get_dtype (elt_type cf) in
  castable dt inputs_ob ∧
  (∀ q, pars_ob = Some q → castable dt q) ∧
  (∀ t, time_ob = Some (inr t) → castable dt t) ∧
  (0 < nparams cf → is_Some pars_ob) ∧
  (is_time_dependent cf = true → is_Some time_ob) ∧
  (ndim inputs_ob = 1 ∨ ndim inputs_ob = 2) ∧
  0 ≤ shape_at inputs_ob 0 ≤ uint32_max ∧
  shape_at inputs_ob 0 = nvars cf ∧
  (ndim inputs_ob = 1 → ∀ t, time_ob ≠ Some (inr t)).

(** What validation has established of the arrays of a call that goes on
    to the evaluation. *)
Record validated (cf : cfunc) (p : prepared) : Prop := {
  v_multi : p_multi_eval p = bool_decide (ndim (p_inputs p) = 2);
  v_ndim : ndim (p_inputs p) = 1 ∨ ndim (p_inputs p) = 2;
  v_nvars : shape_at (p_inputs p) 0 = nvars cf;
  v_out_writeable : nd_writeable (p_outputs p) = true;
  v_out_ndim : ndim (p_outputs p) = ndim (p_inputs p);
  v_nouts : shape_at (p_outputs p) 0 = nouts cf;
  v_out_nevals : p_multi_eval p = true →
                 shape_at (p_outputs p) 1 = shape_at (p_inputs p) 1;
  v_pars_given : 0 < nparams cf → is_Some (p_pars p);
  v_pars : ∀ q, p_pars p = Some q →
           ndim q = ndim (p_inputs p) ∧ shape_at q 0 = nparams cf ∧
           (p_multi_eval p = true → shape_at q 1 = shape_at (p_inputs p) 1);
  v_time_given : is_time_dependent cf = true → is_Some (p_time p);
  v_time : ∀ t, p_time p = Some t →
           ndim t = 1 ∧
           (p_multi_eval p = true → shape_at t 0 = shape_at (p_inputs p) 1) ∧
           (p_multi_eval p = false → ∃ d, t = dense_array (nd_dtype t) [1] d);
  v_zero_copy : p_zero_copy p =
                zero_copy_of (p_inputs p) (p_outputs p) (p_pars p) (p_time p)
}.

(** The scratch vectors have the length of one SIMD block. *)
Definition scratch_sized (cf : cfunc) (sc : scratch) : Prop :=
  length (buf_in sc) = Z.to_nat (nvars cf * simd_size cf) ∧
  length (buf_out sc) = Z.to_nat (nouts cf * simd_size cf) ∧
  length (buf_pars sc) = Z.to_nat (nparams cf * simd_size cf) ∧
  length (buf_time sc) = Z.to_nat (simd_size cf).

(** For [mppp::real], every slot of the scratch vectors holds a constructed
    value of the working precision. *)
Definition scratch_at_prec (cf : cfunc) (sc : scratch) : Prop :=
  is_real (elt_type cf) = true →
  ∀ b, Forall (λ c, has_prec (prec cf) c = true) (get_buf b sc).

Definition scratch_ok (cf : cfunc) (sc : scratch) : Prop :=
  scratch_sized cf sc ∧ scratch_at_prec cf sc.

(** The sizes of the scratch vectors fit in a [std::uint32_t] (the
    compilation in batch mode has checked it). *)
Definition no_overflow (cf : cfunc) : Prop :=
  nvars cf * simd_size cf ≤ uint32_max ∧
  nouts cf * simd_size cf ≤ uint32_max ∧
  nparams cf * simd_size cf ≤ uint32_max.

(** The contract of a kernel for [mppp::real]: from values of the working
    precision it computes [nouts] values of the working precision. *)
Definition kernel_keeps_prec (cf : cfunc) : Prop :=
  is_real (elt_type cf) = true →
  ∀ ins pars tm,
    Forall (λ c, has_prec (prec cf) c = true) ins →
    Forall (λ c, has_prec (prec cf) c = true) pars →
    (∀ c, tm = Some c → has_prec (prec cf) c = true) →
    length (kernel_fn cf ins pars tm) = Z.to_nat (nouts cf) ∧
    Forall (λ c, has_prec (prec cf) c = true) (kernel_fn cf ins pars tm).

(** What holds of the state all along a buffered evaluation for
    [mppp::real]: the scratch vectors are sized, and they and the arrays the
    evaluation reads only hold values of the working precision. *)
Definition run_inv (cf : cfunc) (p : prepared) (s : state) : Prop :=
  scratch_sized cf (scr s) ∧
  (∀ b, Forall (λ c, has_prec (prec cf) c = true) (get_buf b (scr s))) ∧
  array_has_prec (prec cf) (heap s) (p_inputs p) ∧
  (∀ q, p_pars p = Some q → array_has_prec (prec cf) (heap s) q) ∧
  (∀ t, p_time p = Some t → array_has_prec (prec cf) (heap s) t).

(** The outputs of the compiled function at one point, as a kernel writes
    them. *)
Definition point_result (cf : cfunc) (ins pars : list cell) (t : cell) : list cell :=
  resize (Z.to_nat (nouts cf)) inhabitant
    (kernel_fn cf ins pars (if is_time_dependent cf then Some t else None)).

(** The values of the parameters and of time a single evaluation is made
    with. *)
Definition pars_values (h : Z → cell) (p : prepared) : list cell :=
  from_option (contents h) [] (p_pars p).

Definition time_value (h : Z → cell) (p : prepared) : cell :=
  from_option (λ t, h (addr1 t 0)) inhabitant (p_time p).

(** The data pointer of the array is not null. *)
Definition backed (a : ndarray) : Prop := is_Some (nd_data a).

(** The sizes of an array are not negative. *)
Definition array_wf (a : ndarray) : Prop := Forall (λ n, 0 ≤ n) (nd_shape a).

(** The arguments of a batch evaluation with no point at all: inputs of
    shape (nvars, 0), and outputs of shape (nouts, 0), parameters of shape
    (nparams, 0), an array of time values of shape (0,) where they are
    given; parameters and time are given when the function needs them, and
    every array has the dtype of [T] or one that can be cast to it (an array
    of outputs that needs no cast being writeable). *)
Definition empty_batch (cf : cfunc) (inputs_ob : ndarray)
    (outputs_ob pars_ob : option ndarray) (time_ob : option (cell + ndarray)) : Prop :=
  let dt := get_dtype (elt_type cf) in
  nd_shape inputs_ob = [nvars cf; 0] ∧ castable dt inputs_ob ∧
  (∀ o, outputs_ob = Some o →
     castable dt o ∧ nd_shape o = [nouts cf; 0] ∧
     (nd_dtype o = dt → nd_writeable o = true)) ∧
  (0 < nparams cf → is_Some pars_ob) ∧
  (∀ q, pars_ob = Some q → castable dt q ∧ nd_shape q = [nparams cf; 0]) ∧
  (is_time_dependent cf = true → is_Some time_ob) ∧
  (∀ x, time_ob = Some x → ∃ t, x = inr t ∧ castable dt t ∧ nd_shape t = [0]).

(** Where the array of outputs of a call comes from: the array of the
    caller when it has the dtype of [T], a new array otherwise. *)
Definition outputs_origin (cf : cfunc) (outputs_ob : option ndarray) (b0 : Z)
    (outputs : ndarray) : Prop :=
  match outputs_ob with
  | Some o =>
      if bool_decide (nd_dtype o = get_dtype (elt_type cf))
      then outputs = o
      else fresh_array b0 outputs ∧ nd_shape outputs = nd_shape o ∧
           nd_dtype outputs = get_dtype (elt_type cf)
  | None => fresh_array b0 outputs
  end.

(** The outcome of [prepare], started in [s]. *)
Definition prepare_post (cf : cfunc) (inputs_ob : ndarray)
    (outputs_ob : option ndarray) (s : state)
    (r : result prepared) (s' : state) : Prop :=
  match r with
  | Raise e =>
      if late_error e then heap_frame (normalized_outputs cf outputs_ob) s s'
      else heap_kept s s'
  | Ok p =>
      heap_frame (normalized_outputs cf outputs_ob) s s' ∧
      validated cf p ∧
      nd_shape (p_inputs p) = nd_shape inputs_ob ∧
      outputs_origin cf outputs_ob (brk s) (p_outputs p) ∧
      (is_real (elt_type cf) = true →
       array_has_prec (prec cf) (heap s') (p_inputs p) ∧
       array_has_prec (prec cf) (heap s') (p_outputs p) ∧
       (∀ q, p_pars p = Some q → array_has_prec (prec cf) (heap s') q) ∧
       (∀ t, p_time p = Some t → array_has_prec (prec cf) (heap s') t))
  end.

End Dispatcher.

(** ** Notions used in the statements *)

(** The kernel invocations of a trace. *)
Definition calls_of (tr : list event) : list kcall :=
  omap (λ e, match e with EvKernel c => Some c | _ => None end) tr.


(** Weakest precondition: [Q] holds of the outcome of [m] started in [s]. *)
Definition wp {A} (m : M A) (Q : result A → state → Prop) (s : state) : Prop :=
  Q (m s).1 (m s).2.

(** [m] never throws. *)
Definition never_raises {A} (m : M A) : Prop := ∀ s, ∃ a, (m s).1 = Ok a.

(** [m] relates the state it is started in to the state it ends in. *)
Definition preserves (R : relation state) {A} (m : M A) : Prop := ∀ s, R s (m s).2.

(** The relations used below. *)
Definition same_trace : relation state := λ s s', trace s' = trace s.
Definition same_scr : relation state := λ s s', scr s' = scr s.
Definition same_heap : relation state := λ s s', heap s' = heap s ∧ brk s' = brk s.
(** [J] holds in the end when it holds to begin with. *)
Definition keeps (J : state → Prop) : relation state := λ s s', J s → J s'.
Definition same_lengths : relation state :=
  λ s s', ∀ b, length (get_buf b (scr s')) = length (get_buf b (scr s)).

(** [m] returns [a] and appends [evs] to the trace, whatever the state. *)
Definition yields {A} (m : M A) (a : A) (evs : list event) : Prop :=
  ∀ s, (m s).1 = Ok a ∧ trace (m s).2 = trace s ++ evs.




(** The buffers a call works on, once converted: inputs, outputs and, when
    given, parameters and time. *)
Definition supplied (p : prepared) : list ndarray :=
  p_inputs p :: p_outputs p :: option_list (p_pars p) ++ option_list (p_time p).

(** The invocation of a strided kernel at offset [off] on the zero-copy
    path. *)
Definition strided_call (cf : cfunc) (p : prepared) (fptr : kernel_id) (off : Z) : kcall :=
  {| k_fptr := fptr;
     k_out := ptr_add (data_ptr (p_outputs p)) off;
     k_in := if 0 <? nvars cf then ptr_add (data_ptr (p_inputs p)) off else None;
     k_par := if 0 <? nparams cf
              then ptr_add (from_option data_ptr None (p_pars p)) off else None;
     k_time := if is_time_dependent cf
               then ptr_add (from_option data_ptr None (p_time p)) off else None;
     k_stride := Some (shape_at (p_inputs p) 1) |}.

(** The events of that invocation: the pointer additions, then the call. *)
Definition strided_events (cf : cfunc) (p : prepared) (fptr : kernel_id) (off : Z)
    : list event :=
  [EvPtrAdd ROut off]
  ++ (if 0 <? nvars cf then [EvPtrAdd RIn off] else [])
  ++ (if 0 <? nparams cf then [EvPtrAdd RPar off] else [])
  ++ (if is_time_dependent cf then [EvPtrAdd RTime off] else [])
  ++ [EvKernel (strided_call cf p fptr off)].

(** The whole trace of the zero-copy batch path. *)
Definition zero_copy_events (cf : cfunc) (p : prepared) : list event :=
  let n_simd_blocks := Z.quot (shape_at (p_inputs p) 1) (simd_size cf) in
  (seqZ 0 n_simd_blocks ≫= λ k, strided_events cf p FptrBatchS (k * simd_size cf))
  ++ (seqZ (n_simd_blocks * simd_size cf)
           (shape_at (p_inputs p) 1 - n_simd_blocks * simd_size cf)
      ≫= strided_events cf p FptrScalS).


(** ** More notions used in the statements *)

(** [m] returns, whatever the state, and appends [evs] to the trace. *)
Definition emits {A} (m : M A) (evs : list event) : Prop :=
  ∀ s, (∃ a, (m s).1 = Ok a) ∧ trace (m s).2 = trace s ++ evs.

(** The invocation of a dense kernel on the scratch vectors. *)
Definition buffer_call (fptr : kernel_id) : kcall :=
  {| k_fptr := fptr; k_out := buf_ptr BufOut; k_in := buf_ptr BufIn;
     k_par := buf_ptr BufPars; k_time := buf_ptr BufTime; k_stride := None |}.

(** The invocation of the dense scalar kernel on the arrays of the call. *)
Definition direct_call (p : prepared) : kcall :=
  {| k_fptr := FptrScal; k_out := data_ptr (p_outputs p);
     k_in := data_ptr (p_inputs p);
     k_par := from_option data_ptr None (p_pars p);
     k_time := from_option data_ptr None (p_time p); k_stride := None |}.

(** The values at point [k] of the [n] rows of a two-dimensional array. *)
Definition column (h : Z → cell) (a : ndarray) (n k : Z) : list cell :=
  (λ i, h (addr2 a i k)) <$> seqZ 0 n.

(** The values of the parameters and of time at point [k] of a batch. *)
Definition pars_at (cf : cfunc) (h : Z → cell) (p : prepared) (k : Z) : list cell :=
  from_option (λ q, column h q (nparams cf) k) [] (p_pars p).

Definition time_at (h : Z → cell) (p : prepared) (k : Z) : cell :=
  from_option (λ t, h (addr1 t k)) inhabitant (p_time p).

(** The outputs of the compiled function at point [k] of a batch whose
    arrays hold the values of the heap [h]. *)
Definition batch_result (cf : cfunc) (p : prepared) (h : Z → cell) (k : Z) : list cell :=
  point_result cf (column h (p_inputs p) (nvars cf) k) (pars_at cf h p k)
    (time_at h p k).

(** The state of a batch evaluation started with the heap [h0] once the
    points before [c] are done: nothing but the array of outputs has been
    written, and the outputs of these points are in place. *)
Definition batch_done (cf : cfunc) (p : prepared) (h0 : Z → cell) (c : Z)
    (s : state) : Prop :=
  (∀ x, x ∉ addresses (p_outputs p) → heap s x = h0 x) ∧
  (∀ k, 0 ≤ k < c →
     column (heap s) (p_outputs p) (nouts cf) k = batch_result cf p h0 k).

(** No element of an array the evaluation reads is an element of the array
    of outputs. *)
Definition outputs_apart (p : prepared) : Prop :=
  ∀ a, a ∈ p_inputs p :: option_list (p_pars p) ++ option_list (p_time p) →
  ∀ x, x ∈ addresses a → x ∉ addresses (p_outputs p).

Section MoreNotions.

Context `{Extern}.

(** The array cannot be converted to the dtype [dt]: it has another dtype
    and the cast is not safe. *)
Definition unsafe (dt : Z) (a : ndarray) : Prop :=
  nd_dtype a ≠ dt ∧ can_cast_safe (nd_dtype a) dt = false.

(** Every array of the call has the dtype of [T] or can be cast to it. *)
Definition convertible (cf : cfunc) (inputs_ob : ndarray)
    (outputs_ob pars_ob : option ndarray) (time_ob : option (cell + ndarray)) : Prop :=
  let dt := get_dtype (elt_type cf) in
  castable dt inputs_ob ∧
  (∀ o, outputs_ob = Some o → castable dt o) ∧
  (∀ q, pars_ob = Some q → castable dt q) ∧
  (∀ t, time_ob = Some (inr t) → castable dt t).

(** A caller-supplied array of outputs passes its checks: it can be
    converted, it is writeable unless it is converted, and it has the
    dimensions and sizes the inputs ask for. *)
Definition outputs_pass (cf : cfunc) (inputs_ob : ndarray)
    (outputs_ob : option ndarray) : Prop :=
  ∀ o, outputs_ob = Some o →
    castable (get_dtype (elt_type cf)) o ∧
    (nd_dtype o = get_dtype (elt_type cf) → nd_writeable o = true) ∧
    ndim o = ndim inputs_ob ∧
    shape_at o 0 = nouts cf ∧
    (ndim inputs_ob = 2 → shape_at o 1 = shape_at inputs_ob 1).

(** A caller-supplied array of parameter values passes its checks. *)
Definition pars_pass (cf : cfunc) (inputs_ob : ndarray)
    (pars_ob : option ndarray) : Prop :=
  ∀ q, pars_ob = Some q →
    ndim q = ndim inputs_ob ∧ shape_at q 0 = nparams cf ∧
    (ndim inputs_ob = 2 → shape_at q 1 = shape_at inputs_ob 1).

(** The time argument passes its checks: an array of time values has one
    dimension and, in a batch evaluation, one value per point; a scalar
    stands for an array of one value. *)
Definition time_pass (inputs_ob : ndarray) (time_ob : option (cell + ndarray)) : Prop :=
  ∀ x, time_ob = Some x →
    match x with
    | inl _ => ndim inputs_ob = 2 → shape_at inputs_ob 1 = 1
    | inr t => ndim t = 1 ∧ (ndim inputs_ob = 2 → shape_at t 0 = shape_at inputs_ob 1)
    end.

(** The arguments of a call pass every check of the dispatcher. *)
Definition valid_call (cf : cfunc) (inputs_ob : ndarray)
    (outputs_ob pars_ob : option ndarray) (time_ob : option (cell + ndarray)) : Prop :=
  early_checks_pass cf inputs_ob pars_ob time_ob ∧
  outputs_pass cf inputs_ob outputs_ob ∧
  pars_pass cf inputs_ob pars_ob ∧
  time_pass inputs_ob time_ob.

End MoreNotions.

(** The heap cell at address [x] is as it was. *)
Definition keeps_cell (x : Z) : relation state := λ s s', heap s' x = heap s x.



(** ** Conversion of Python numbers (common_utils.cpp) *)

(** The exact type of a Python object, as far as the conversion looks:
    [float], [numpy.longdouble], or another type. *)
Inductive py_type :=
| PyFloatType
| NumpyLongDoubleType
| OtherType (name : string).

#[global] Instance py_type_eq_dec : EqDecision py_type.
Proof. solve_decision. Defined.

(** What the conversion observes of a Python object: its type, its value as
    a C [double] (for a [float]), the chars of [o.data.tobytes()], and the
    outcome of [py::cast<mppp::real128>(o)] ([None] is [py::cast_error]). *)
Record py_object := {
  ob_type : py_type;
  ob_double : Z;
  ob_data : list Z;
  ob_real128 : option Z
}.

(** What depends on the build: [sizeof(long double)] and
    [HEYOKA_HAVE_REAL128]. *)
Record platform := {
  sizeof_long_double : Z;
  have_real128 : bool
}.

(** A [heyoka::number], by the type it was built from; a [long double] is
    kept as the unsigned chars of its object representation. *)
Inductive number :=
| NumDouble (bits : Z)
| NumLongDouble (bytes : list Z)
| NumReal128 (bits : Z).

Inductive py_exception := TypeError | RuntimeError.

(** A call returns, throws, or stops at a failed [assert]. *)
Inductive outcome (A : Type) :=
| Returns (a : A)
| Throws (e : py_exception)
| Aborts.
Arguments Returns {A} a.
Arguments Throws {A} e.
Arguments Aborts {A}.

(** [type(o).is(numpy.longdouble)] *)
Definition is_numpy_ld (o : py_object) : bool :=
  bool_decide (ob_type o = NumpyLongDoubleType).

(** [static_cast<unsigned char>(c)] *)
Definition to_uchar (c : Z) : Z := c mod 256.

Definition from_numpy_ld (pf : platform) (o : py_object) : outcome (list Z) :=
  if negb (is_numpy_ld o) then Aborts
  else
    let str := ob_data o in
    if bool_decide (Z.of_nat (length str) ≠ sizeof_long_double pf)
    then Throws RuntimeError
    else Returns (to_uchar <$> str).

Definition to_number (pf : platform) (o : py_object) : outcome number :=
  if bool_decide (ob_type o = PyFloatType) then Returns (NumDouble (ob_double o))
  else if is_numpy_ld o then
    match from_numpy_ld pf o with
    | Returns b => Returns (NumLongDouble b)
    | Throws e => Throws e
    | Aborts => Aborts
    end
  else
    match (if have_real128 pf then ob_real128 o else None) with
    | Some q => Returns (NumReal128 q)
    | None => Throws TypeError
    end.

(** ** Concrete evaluators and calls *)

(** An instance of the collaborators: type numbers 11 (float), 12 (double),
    13 (long double) and two user types for the mp++ reals; a cast is safe
    between equal types and from float to double; a cast keeps the cell. *)
#[global] Instance demo_env : Extern := {|
  recommended_simd_size := λ T, if is_double T then 4 else 1;
  get_dtype := λ T, match T with
                    | Double => 12 | LongDouble => 13 | Real128 => 256 | Real => 257
                    end;
  can_cast_safe := λ a b, bool_decide (a = b) || bool_decide (a = 11 ∧ b = 12);
  cast_cell := λ _ _ c, c
|}.

(** [out = in0 + in1 + t] on bit patterns read as integers, time counting
    when given. *)
Definition sum_fn (ins pars : list cell) (tm : option cell) : list cell :=
  let val c := match c with Fixed b => b | MpReal _ (Some b) => b | _ => 0 end in
  [Fixed (foldr Z.add 0 (val <$> ins) + from_option val 0 tm)].

(** The same for reals of precision 113. *)
Definition real_sum_fn (ins pars : list cell) (tm : option cell) : list cell :=
  let val c := match c with Fixed b => b | MpReal _ (Some b) => b | _ => 0 end in
  [MpReal 113 (Some (foldr Z.add 0 (val <$> ins) + from_option val 0 tm))].

(** [x + y] for doubles, two variables, SIMD width 2. *)
Definition cf_sum : cfunc :=
  {| elt_type := Double; simd_size := 2; nparams := 0; is_time_dependent := false;
     nouts := 1; nvars := 2; prec := 0; kernel_fn := sum_fn |}.

(** [x + t] for doubles: one variable, depends on time, SIMD width 2. *)
Definition cf_time : cfunc :=
  {| elt_type := Double; simd_size := 2; nparams := 0; is_time_dependent := true;
     nouts := 1; nvars := 1; prec := 0; kernel_fn := sum_fn |}.

(** [x + par[0]]-like function for reals of precision 113: one variable, one
    parameter, SIMD width 1. *)
Definition cf_real : cfunc :=
  {| elt_type := Real; simd_size := 1; nparams := 1; is_time_dependent := false;
     nouts := 1; nvars := 1; prec := 113; kernel_fn := real_sum_fn |}.

Definition scratch_of (cf : cfunc) : scratch :=
  {| buf_in := make_buffer (elt_type cf) (mul_u32 (nvars cf) (simd_size cf)) (prec cf);
     buf_out := make_buffer (elt_type cf) (mul_u32 (nouts cf) (simd_size cf)) (prec cf);
     buf_pars := make_buffer (elt_type cf) (mul_u32 (nparams cf) (simd_size cf)) (prec cf);
     buf_time := make_buffer (elt_type cf) (simd_size cf) (prec cf) |}.

(** A state whose heap holds [Fixed (10 * a)] at address [a], with the first
    100 addresses in use. *)
Definition demo_state (cf : cfunc) : state :=
  {| heap := λ a, Fixed (10 * a); brk := 100; scr := scratch_of cf; trace := [] |}.

(** A state for reals: constructed reals of precision 113 below address 50,
    raw slots from there on. *)
Definition real_state : state :=
  {| heap := λ a, if a <? 50 then MpReal 113 (Some a) else Unconstructed;
     brk := 100; scr := scratch_of cf_real; trace := [] |}.

(** A view with the given layout. *)
Definition view (dt : Z) (shape strides : list Z) (d : Z) (w : bool) : ndarray :=
  {| nd_dtype := dt; nd_shape := shape; nd_strides := strides; nd_data := Some d;
     nd_writeable := w; nd_aligned := true |}.

(** The arguments of the calls worked out below. *)

(** Two variables at five points, row-major at address 0. *)
Definition in_batch5 : ndarray := view 12 [2; 5] [5; 1] 0 true.

(** Two variables at no point. *)
Definition in_batch0 : ndarray := view 12 [2; 0] [0; 1] 0 true.

(** Two variables at one point, at addresses 0 and 1. *)
Definition in_single : ndarray := view 12 [2] [1] 0 true.


(** An array of one double at address 1: it overlaps [in_single]. *)
Definition out_alias : ndarray := view 12 [1] [1] 1 true.

(** One real at address 0, an array of outputs at address 60 whose slot is
    not constructed yet, and two parameter values where one is expected. *)
Definition real_in : ndarray := view 257 [1] [1] 0 true.
Definition real_out : ndarray := view 257 [1] [1] 60 true.
Definition real_pars2 : ndarray := view 257 [2] [1] 10 true.

(** The expression [x + par[0]]. *)
Definition expr_x_par : expression :=
  {| get_param_size := 1; ex_is_time_dependent := false; get_variables := ["x"%string] |}.

Definition no_prepared : prepared :=
  {| p_inputs := in_single; p_outputs := in_single; p_pars := None; p_time := None;
     p_multi_eval := false; p_zero_copy := false |}.

(** What [prepare] returns for some of these calls. *)
Definition prepared_by (r : result prepared * state) : prepared :=
  match r.1 with
  | Ok p => p
  | Raise _ => no_prepared
  end.

Definition prepared_batch5 : prepared := Eval vm_compute in
  prepared_by (prepare cf_sum in_batch5 None None None (demo_state cf_sum)).

Definition prepared_single : prepared := Eval vm_compute in
  prepared_by (prepare cf_sum in_single None None None (demo_state cf_sum)).

Definition prepared_alias : prepared := Eval vm_compute in
  prepared_by (prepare cf_sum in_single (Some out_alias) None None (demo_state cf_sum)).

(** Two variables at five points, every other cell of two rows ten cells
    apart: not contiguous. *)
Definition in_strided5 : ndarray := view 12 [2; 5] [10; 2] 0 true.



(** Arrays with something wrong: two long doubles, three doubles, an array
    of outputs of two doubles, two parameter values. *)
Definition in_longdouble : ndarray := view 13 [2] [1] 0 true.
Definition in_three : ndarray := view 12 [3] [1] 0 true.
Definition out_two : ndarray := view 12 [2] [1] 20 true.
Definition pars_two : ndarray := view 12 [2] [1] 10 true.

(** One variable at one point and at three points; one time value. *)
Definition in_one : ndarray := view 12 [1] [1] 0 true.
Definition time_one : ndarray := view 12 [1] [1] 5 true.

(** [x + par[0]] for doubles: one variable, one parameter, SIMD width 2. *)
Definition cf_par : cfunc :=
  {| elt_type := Double; simd_size := 2; nparams := 1; is_time_dependent := false;
     nouts := 1; nvars := 1; prec := 0; kernel_fn := sum_fn |}.

Definition prepared_strided5 : prepared := Eval vm_compute in
  prepared_by (prepare cf_sum in_strided5 None None None (demo_state cf_sum)).




(** ** Reasoning about computations *)

(** Closed side conditions are settled by evaluation. *)
Ltac evaluated := vm_compute; first [reflexivity | done | intuition (first [done | lia])].

Lemma wp_ret {A} (a : A) Q s : Q (Ok a) s → wp (ret a) Q s.
Proof. done. Qed.

Lemma wp_throw {A} e (Q : result A → state → Prop) s :
  Q (Raise e) s → wp (py_throw e) Q s.
Proof. done. Qed.

Lemma wp_bind {A B} (m : M A) (k : A → M B) Q s :
  wp m (λ r s', match r with
                | Ok a => wp (k a) Q s'
                | Raise e => Q (Raise e) s'
                end) s →
  wp (bind m k) Q s.
Proof. unfold wp, bind. by destruct (m s) as [[a|e] s']. Qed.

Lemma wp_mono {A} (m : M A) (Q Q' : result A → state → Prop) s :
  wp m Q' s → (∀ r s', Q' r s' → Q r s') → wp m Q s.
Proof. unfold wp. auto. Qed.

Lemma wp_throw_if c e (Q : result unit → state → Prop) s :
  (c = true → Q (Raise e) s) → (c = false → Q (Ok tt) s) →
  wp (throw_if c e) Q s.
Proof. destruct c; unfold throw_if, wp; simpl; auto. Qed.

(** A loop keeps what each of its iterations keeps. *)
Lemma wp_for_each (I : state → Prop) l body s :
  I s →
  (∀ k s', k ∈ l → I s' → wp (body k) (λ r s'', r = Ok tt ∧ I s'') s') →
  wp (for_each l body) (λ r s', r = Ok tt ∧ I s') s.
Proof.
  revert s. induction l as [|k l IH]; intros s Hs Hbody; simpl.
  - by apply wp_ret.
  - apply wp_bind. eapply wp_mono; [apply Hbody; [left | done] |].
    intros r s' [-> Hs']. apply IH; [done |].
    intros k' s'' Hk'. apply Hbody. by right.
Qed.

Lemma wp_inv {A} (m : M A) (Q : result A → state → Prop) s r s' :
  wp m Q s → m s = (r, s') → Q r s'.
Proof. unfold wp. intros HQ Heq. by rewrite Heq in HQ. Qed.

(** *** Computations that keep a relation between the states *)

Section Preserves.

Context (R : relation state) `{!PreOrder R}.

Lemma preserves_ret {A} (a : A) : preserves R (ret a).
Proof. intros s. simpl. reflexivity. Qed.

Lemma preserves_throw {A} e : preserves R (@py_throw A e).
Proof. intros s. simpl. reflexivity. Qed.

Lemma preserves_bind {A B} (m : M A) (k : A → M B) :
  preserves R m → (∀ a, preserves R (k a)) → preserves R (bind m k).
Proof.
  intros Hm Hk s. unfold bind. specialize (Hm s).
  destruct (m s) as [[a|e] s']; simpl in *; [|done].
  etrans; [exact Hm | apply Hk].
Qed.

Lemma preserves_throw_if c e : preserves R (throw_if c e).
Proof. destruct c; [apply preserves_throw | apply preserves_ret]. Qed.

Lemma preserves_for_each_in l body :
  (∀ k, k ∈ l → preserves R (body k)) → preserves R (for_each l body).
Proof.
  intros Hb. induction l as [|k l IH]; simpl.
  - apply preserves_ret.
  - apply preserves_bind; [apply Hb; left | intros _; apply IH].
    intros k' Hk'. apply Hb. by right.
Qed.

Lemma preserves_for_each l body :
  (∀ k, preserves R (body k)) → preserves R (for_each l body).
Proof. intros Hb. apply preserves_for_each_in. auto. Qed.

Lemma preserves_when_some_eq {A} (o : option A) f :
  (∀ a, o = Some a → preserves R (f a)) → preserves R (when_some o f).
Proof. destruct o; simpl; [by intros Hf; apply Hf | intros; apply preserves_ret]. Qed.

Lemma preserves_when_some {A} (o : option A) f :
  (∀ a, preserves R (f a)) → preserves R (when_some o f).
Proof. intros Hf. apply preserves_when_some_eq. auto. Qed.

Lemma preserves_get_heap : preserves R get_heap.
Proof. intros s. simpl. reflexivity. Qed.

Lemma preserves_get_scratch : preserves R get_scratch.
Proof. intros s. simpl. reflexivity. Qed.

Lemma preserves_heap_get a : preserves R (heap_get a).
Proof. intros s. simpl. reflexivity. Qed.

Lemma preserves_buf_get b i : preserves R (buf_get b i).
Proof. intros s. simpl. reflexivity. Qed.

Lemma preserves_numeric_cast_u32 r z : preserves R (numeric_cast_u32 r z).
Proof.
  unfold numeric_cast_u32.
  destruct (_ && _); [apply preserves_ret | apply preserves_throw].
Qed.

End Preserves.

(** One step of a proof that a computation keeps a relation: the rules of
    the control structures and of the operations that leave the state as it
    is. *)
Ltac preserves_step :=
  lazymatch goal with
  | |- preserves ?R (ret _) => apply (preserves_ret R)
  | |- preserves ?R (py_throw _) => apply (preserves_throw R)
  | |- preserves ?R (throw_if _ _) => apply (preserves_throw_if R)
  | |- preserves ?R get_heap => apply (preserves_get_heap R)
  | |- preserves ?R get_scratch => apply (preserves_get_scratch R)
  | |- preserves ?R (heap_get _) => apply (preserves_heap_get R)
  | |- preserves ?R (buf_get _ _) => apply (preserves_buf_get R)
  | |- preserves ?R (numeric_cast_u32 _ _) => apply (preserves_numeric_cast_u32 R)
  | |- preserves ?R (bind _ _) => apply (preserves_bind R); [| intros ?]
  | |- preserves ?R (for_each _ _) => apply (preserves_for_each R); intros ?
  | |- preserves ?R (when_some _ _) => apply (preserves_when_some R); intros ?
  | |- preserves _ (if ?c then _ else _) => destruct c
  | |- preserves _ (match ?x with _ => _ end) => destruct x
  end.

#[global] Instance same_trace_preorder : PreOrder same_trace.
Proof. split; [done | intros s1 s2 s3; unfold same_trace; congruence]. Qed.

#[global] Instance same_scr_preorder : PreOrder same_scr.
Proof. split; [done | intros s1 s2 s3; unfold same_scr; congruence]. Qed.

#[global] Instance heap_below_preorder b : PreOrder (heap_below b).
Proof.
  split; [done |]. intros s1 s2 s3 H1 H2 x Hx. rewrite H2 by done. by apply H1.
Qed.

#[global] Instance same_lengths_preorder : PreOrder same_lengths.
Proof.
  split; [done |]. intros s1 s2 s3 H1 H2 b. by rewrite H2, H1.
Qed.

#[global] Instance keeps_preorder J : PreOrder (keeps J).
Proof.
  split; [intros s Hs; exact Hs | intros s1 s2 s3 H1 H2 Hs; exact (H2 (H1 Hs))].
Qed.

#[global] Instance same_heap_preorder : PreOrder same_heap.
Proof.
  split; [done |]. intros s1 s2 s3 [? ?] [? ?]. unfold same_heap. split; congruence.
Qed.

(** *** Addresses of arrays *)

Lemma elem_of_offsets_cons n sh st o :
  o ∈ offsets (n :: sh) st ↔
  ∃ i o', o = i * hd 0 st + o' ∧ 0 ≤ i < n ∧ o' ∈ offsets sh (tl st).
Proof.
  simpl. rewrite list_elem_of_bind. split.
  - intros (i & Ho & Hi). apply list_elem_of_fmap in Ho as (o' & -> & Ho').
    apply elem_of_seqZ in Hi. exists i, o'. split; [done |]. split; [lia | done].
  - intros (i & o' & -> & Hi & Ho'). exists i. split.
    + apply list_elem_of_fmap. by exists o'.
    + apply elem_of_seqZ. lia.
Qed.

(** An array with an element has positive sizes in all dimensions. *)
Lemma offsets_positive sh st o : o ∈ offsets sh st → Forall (λ n, 0 < n) sh.
Proof.
  revert st o. induction sh as [|n sh IH]; intros st o Ho; [constructor |].
  apply elem_of_offsets_cons in Ho as (i & o' & _ & Hi & Ho').
  constructor; [lia | by eapply IH].
Qed.

Lemma product_positive sh : Forall (λ n, 0 < n) sh → 0 < foldr Z.mul 1 sh.
Proof. induction 1; simpl; lia. Qed.

(** The offsets of a densely packed array are not negative. *)
Lemma offsets_dense_nonneg sh o : o ∈ offsets sh (c_strides sh) → 0 ≤ o.
Proof.
  revert o. induction sh as [|n sh IH]; intros o Ho.
  - apply list_elem_of_singleton in Ho. lia.
  - apply elem_of_offsets_cons in Ho as (i & o' & -> & Hi & Ho'). simpl in *.
    assert (0 < foldr Z.mul 1 sh)
      by (eapply product_positive, offsets_positive; exact Ho').
    specialize (IH _ Ho'). nia.
Qed.

Lemma elem_of_addresses a x :
  x ∈ addresses a ↔ ∃ o, x = base_addr a + o ∧ o ∈ offsets (nd_shape a) (nd_strides a).
Proof. unfold addresses. apply list_elem_of_fmap. Qed.

(** The addresses of a fresh array are at or above the bound. *)
Lemma fresh_array_addresses b0 a x : fresh_array b0 a → x ∈ addresses a → b0 ≤ x.
Proof.
  intros (d & Ha & Hd) Hx. rewrite Ha in Hx.
  apply elem_of_addresses in Hx as (o & -> & Ho). simpl in *.
  apply offsets_dense_nonneg in Ho. unfold base_addr. simpl. lia.
Qed.

Lemma fresh_array_dense dt sh d b0 : b0 ≤ d → fresh_array b0 (dense_array dt sh d).
Proof. intros Hd. by exists d. Qed.

Lemma fresh_array_mono b0 b1 a : b0 ≤ b1 → fresh_array b1 a → fresh_array b0 a.
Proof. intros Hb (d & Ha & Hd). exists d. split; [done | lia]. Qed.

(** The offsets of a view lie between its least and its largest offset. *)
Lemma offsets_bounds sh st o :
  o ∈ offsets sh st → low_offset sh st ≤ o ≤ high_offset sh st.
Proof.
  revert st o. induction sh as [|n sh IH]; intros st o Ho.
  - apply list_elem_of_singleton in Ho. simpl. lia.
  - apply elem_of_offsets_cons in Ho as (i & o' & -> & Hi & Ho').
    specialize (IH _ _ Ho'). simpl.
    assert (Z.min 0 ((n - 1) * hd 0 st) ≤ i * hd 0 st ≤ Z.max 0 ((n - 1) * hd 0 st)).
    { destruct (Z.le_gt_cases 0 (hd 0 st)); nia. }
    lia.
Qed.

(** Every element of an array lies within the memory bounds of the array. *)
Lemma addresses_extent a x :
  x ∈ addresses a → ∃ lo hi, extent a = Some (lo, hi) ∧ lo ≤ x < hi.
Proof.
  intros Hx. apply elem_of_addresses in Hx as (o & -> & Ho).
  assert (Hf : forallb (λ n, 0 <? n) (nd_shape a) = true).
  { apply Is_true_true, forallb_True.
    eapply Forall_impl; [exact (offsets_positive _ _ _ Ho) |].
    intros n Hn. simpl in *. by apply Is_true_true, Z.ltb_lt. }
  unfold extent. rewrite Hf.
  eexists _, _. split; [done |]. apply offsets_bounds in Ho. lia.
Qed.

(** Arrays whose bounds do not overlap have no address in common. *)
Lemma may_share_memory2_sound a b x :
  may_share_memory2 a b = false → x ∈ addresses a → x ∉ addresses b.
Proof.
  intros Hs Ha Hb.
  apply addresses_extent in Ha as (lo1 & hi1 & Ea & Ha).
  apply addresses_extent in Hb as (lo2 & hi2 & Eb & Hb).
  unfold may_share_memory2 in Hs. rewrite Ea, Eb in Hs.
  apply andb_false_iff in Hs as [Hs|Hs]; apply Z.ltb_ge in Hs; lia.
Qed.

Section DispatcherFacts.

Context `{Extern}.

(** *** Validation leaves the trace and the scratch vectors alone *)

Lemma new_array_same_trace dt sh : preserves same_trace (new_array dt sh).
Proof. by intros s. Qed.

Lemma set_heap_same_trace h : preserves same_trace (set_heap h).
Proof. by intros s. Qed.

Lemma new_array_same_scr dt sh : preserves same_scr (new_array dt sh).
Proof. by intros s. Qed.

Lemma set_heap_same_scr h : preserves same_scr (set_heap h).
Proof. by intros s. Qed.

Lemma prepare_same_trace cf i oo po to :
  preserves same_trace (prepare cf i oo po to).
Proof.
  unfold prepare, time_array, enforce_dtype_opt, enforce_dtype, astype, array_of_scalar,
    prepare_outputs, check_pars, check_time, pyreal_check_array,
    pyreal_ensure_array.
  repeat first [ apply new_array_same_trace | apply set_heap_same_trace
               | preserves_step ].
Qed.

Lemma prepare_same_scr cf i oo po to :
  preserves same_scr (prepare cf i oo po to).
Proof.
  unfold prepare, time_array, enforce_dtype_opt, enforce_dtype, astype, array_of_scalar,
    prepare_outputs, check_pars, check_time, pyreal_check_array,
    pyreal_ensure_array.
  repeat first [ apply new_array_same_scr | apply set_heap_same_scr
               | preserves_step ].
Qed.

(** *** Computations that return and extend the trace *)

Lemma yields_ret {A} (a : A) : yields (ret a) a [].
Proof. intros s. simpl. by rewrite app_nil_r. Qed.

Lemma yields_bind {A B} (m : M A) (k : A → M B) a b e1 e2 :
  yields m a e1 → yields (k a) b e2 → yields (bind m k) b (e1 ++ e2).
Proof.
  intros Hm Hk s. unfold bind. destruct (Hm s) as [Hr Ht].
  destruct (m s) as [r s']; simpl in *; subst r.
  destruct (Hk s') as [Hr' Ht']. split; [done |].
  by rewrite Ht', Ht, app_assoc.
Qed.

Lemma yields_log e : yields (log e) tt [e].
Proof. by intros s. Qed.

Lemma yields_for_each l body (f : Z → list event) :
  (∀ k, yields (body k) tt (f k)) →
  yields (for_each l body) tt (l ≫= f).
Proof.
  intros Hb. induction l as [|k l IH]; simpl.
  - apply yields_ret.
  - eapply yields_bind; [apply Hb | apply IH].
Qed.

Lemma store_trace p i v s : trace (store p i v s) = trace s.
Proof. by destruct p as [[?|? ?]|]. Qed.

Lemma store_list_trace p idxs vals s : trace (store_list p idxs vals s) = trace s.
Proof.
  revert vals s. induction idxs as [|i idxs IH]; intros [|v vals] s; simpl; try done.
  by rewrite IH, store_trace.
Qed.

Lemma store_brk p i v s : brk (store p i v s) = brk s.
Proof. by destruct p as [[?|? ?]|]. Qed.

Lemma store_list_brk p idxs vals s : brk (store_list p idxs vals s) = brk s.
Proof.
  revert vals s. induction idxs as [|i idxs IH]; intros [|v vals] s; simpl; try done.
  by rewrite IH, store_brk.
Qed.

Lemma foldl_store_lane_trace cf p_out st lanes s :
  trace (foldl (store_lane cf p_out st) s lanes) = trace s.
Proof.
  revert s. induction lanes as [|jv lanes IH]; intros s; simpl; [done |].
  rewrite IH. apply store_list_trace.
Qed.

Lemma yields_kernel cf w st po pi pp pt : yields (kernel cf w st po pi pp pt) tt [].
Proof.
  intros s. unfold kernel. simpl. by rewrite foldl_store_lane_trace, app_nil_r.
Qed.

Lemma yields_padd r base off :
  yields (padd r base off) (ptr_add base off) [EvPtrAdd r off].
Proof.
  unfold padd. change [EvPtrAdd r off] with ([EvPtrAdd r off] ++ []).
  eapply yields_bind; [apply yields_log | apply yields_ret].
Qed.

Lemma yields_padd_if c r base off :
  yields (padd_if c r base off)
         (if c then ptr_add base off else None)
         (if c then [EvPtrAdd r off] else []).
Proof. destruct c; [apply yields_padd | apply yields_ret]. Qed.

Lemma yields_fptr_batch_s cf po pi pp pt stride :
  yields (fptr_batch_s cf po pi pp pt stride) tt
    [EvKernel {| k_fptr := FptrBatchS; k_out := po; k_in := pi; k_par := pp;
                 k_time := pt; k_stride := Some stride |}].
Proof.
  unfold fptr_batch_s.
  match goal with |- yields _ _ ?l => change l with (l ++ []) end.
  eapply yields_bind; [apply yields_log | apply yields_kernel].
Qed.

Lemma yields_fptr_scal_s cf po pi pp pt stride :
  yields (fptr_scal_s cf po pi pp pt stride) tt
    [EvKernel {| k_fptr := FptrScalS; k_out := po; k_in := pi; k_par := pp;
                 k_time := pt; k_stride := Some stride |}].
Proof.
  unfold fptr_scal_s.
  match goal with |- yields _ _ ?l => change l with (l ++ []) end.
  eapply yields_bind; [apply yields_log | apply yields_kernel].
Qed.

Lemma yields_run_multi_zero_copy cf p :
  yields (run_multi_zero_copy cf p) tt (zero_copy_events cf p).
Proof.
  unfold run_multi_zero_copy, zero_copy_events.
  eapply yields_bind; apply yields_for_each; intros k; unfold strided_events.
  - eapply yields_bind; [apply yields_padd |].
    eapply yields_bind; [apply yields_padd_if |].
    eapply yields_bind; [apply yields_padd_if |].
    eapply yields_bind; [apply yields_padd_if |].
    apply yields_fptr_batch_s.
  - eapply yields_bind; [apply yields_padd |].
    eapply yields_bind; [apply yields_padd_if |].
    eapply yields_bind; [apply yields_padd_if |].
    eapply yields_bind; [apply yields_padd_if |].
    apply yields_fptr_scal_s.
Qed.

Lemma calls_of_app l1 l2 : calls_of (l1 ++ l2) = calls_of l1 ++ calls_of l2.
Proof. apply omap_app. Qed.

Lemma calls_of_strided_events cf p fptr off :
  calls_of (strided_events cf p fptr off) = [strided_call cf p fptr off].
Proof.
  unfold strided_events.
  by destruct (0 <? nvars cf), (0 <? nparams cf), (is_time_dependent cf).
Qed.

Lemma calls_of_bind (l : list Z) (f : Z → list event) (g : Z → kcall) :
  (∀ k, calls_of (f k) = [g k]) → calls_of (l ≫= f) = g <$> l.
Proof.
  intros Hf. induction l as [|k l IH]; [done |].
  change ((k :: l) ≫= f) with (f k ++ (l ≫= f)).
  by rewrite calls_of_app, Hf, IH.
Qed.

Lemma calls_of_zero_copy_events cf p :
  let n_simd_blocks := Z.quot (shape_at (p_inputs p) 1) (simd_size cf) in
  calls_of (zero_copy_events cf p) =
    (strided_call cf p FptrBatchS <$> ((λ k, k * simd_size cf) <$> seqZ 0 n_simd_blocks))
    ++ (strided_call cf p FptrScalS
          <$> seqZ (n_simd_blocks * simd_size cf)
                   (shape_at (p_inputs p) 1 - n_simd_blocks * simd_size cf)).
Proof.
  intros n. unfold zero_copy_events. fold n. rewrite calls_of_app.
  rewrite (calls_of_bind _ _ (λ k, strided_call cf p FptrBatchS (k * simd_size cf)))
    by (intros; apply calls_of_strided_events).
  rewrite (calls_of_bind _ _ (strided_call cf p FptrScalS))
    by (intros; apply calls_of_strided_events).
  by rewrite <- list_fmap_compose.
Qed.

(** What a call does once its preparation succeeded. *)
Lemma call_after_prepare cf i oo po to s p :
  (prepare cf i oo po to s).1 = Ok p →
  call cf i oo po to s =
    ((run cf p;; ret (p_outputs p)) (prepare cf i oo po to s).2).
Proof.
  intros Hp. unfold call at 1. unfold bind at 1.
  destruct (prepare cf i oo po to s) as [r s1]. simpl in *. by subst r.
Qed.

Lemma call_prepare_raise cf i oo po to s e :
  (prepare cf i oo po to s).1 = Raise e →
  call cf i oo po to s = (Raise e, (prepare cf i oo po to s).2).
Proof.
  intros Hp. unfold call. unfold bind at 1.
  destruct (prepare cf i oo po to s) as [r s1]. simpl in *. by subst r.
Qed.




(** The outcome of a call that reaches the zero-copy batch path. *)
Lemma call_multi_zero_copy cf i oo po to s p :
  (prepare cf i oo po to s).1 = Ok p →
  p_multi_eval p = true → p_zero_copy p = true →
  (call cf i oo po to s).1 = Ok (p_outputs p) ∧
  trace (call cf i oo po to s).2 = trace s ++ zero_copy_events cf p.
Proof.
  intros Hp Hm Hz. rewrite (call_after_prepare _ _ _ _ _ _ _ Hp).
  unfold run. rewrite Hm, Hz.
  assert (Hy : yields (run_multi_zero_copy cf p;; ret (p_outputs p))
                 (p_outputs p) (zero_copy_events cf p ++ [])).
  { eapply yields_bind; [apply yields_run_multi_zero_copy | apply yields_ret]. }
  destruct (Hy (prepare cf i oo po to s).2) as [Hr Ht]. split; [done |].
  rewrite Ht, app_nil_r. f_equal. apply prepare_same_trace.
Qed.

(** *** The steps of the preparation *)

Lemma heap_frame_refl W s : heap_frame W s s.
Proof. split; [lia | done]. Qed.

Lemma heap_frame_trans W s1 s2 s3 :
  heap_frame W s1 s2 → heap_frame W s2 s3 → heap_frame W s1 s3.
Proof.
  intros [Hb1 Hh1] [Hb2 Hh2]. split; [lia |].
  intros x Hx HW. rewrite Hh2 by (done || lia). by apply Hh1.
Qed.

Lemma heap_frame_weaken (W W' : Z → Prop) s s' :
  (∀ x, W x → W' x) → heap_frame W s s' → heap_frame W' s s'.
Proof. intros HW [Hb Hh]. split; [done |]. intros x Hx Hn. apply Hh; auto. Qed.

Lemma heap_kept_frame W s s' : heap_kept s s' → heap_frame W s s'.
Proof. apply heap_frame_weaken. done. Qed.

Lemma upd_ne h a v x : x ≠ a → upd h a v x = h x.
Proof. intros Hx. unfold upd. by rewrite bool_decide_false. Qed.

Lemma upd_eq h a v : upd h a v a = v.
Proof. unfold upd. by rewrite bool_decide_true. Qed.

Lemma upd_list_notin h addrs vals x :
  x ∉ addrs → upd_list h addrs vals x = h x.
Proof.
  revert h vals. induction addrs as [|a addrs IH]; intros h [|v vals] Hx; simpl; try done.
  apply not_elem_of_cons in Hx as [Hne Hx]. rewrite IH by done. by apply upd_ne.
Qed.

(** [pyreal_ensure_array] on the heap. *)
Lemma ensure_notin p addrs h x :
  x ∉ addrs → foldl (λ h' y, upd h' y (ensure_cell p (h' y))) h addrs x = h x.
Proof.
  revert h. induction addrs as [|a addrs IH]; intros h Hx; simpl; [done |].
  apply not_elem_of_cons in Hx as [Hne Hx]. rewrite IH by done. by apply upd_ne.
Qed.

Lemma ensure_cell_has_prec p c : has_prec p (ensure_cell p c) = true.
Proof.
  destruct c as [b|q v|]; simpl; try apply Z.eqb_refl.
  destruct (q =? p) eqn:E; simpl; [done | apply Z.eqb_refl].
Qed.

Lemma ensure_keeps_prec p addrs h x :
  has_prec p (h x) = true →
  has_prec p (foldl (λ h' y, upd h' y (ensure_cell p (h' y))) h addrs x) = true.
Proof.
  revert h. induction addrs as [|a addrs IH]; intros h Hx; simpl; [done |].
  apply IH. unfold upd. case_bool_decide; [apply ensure_cell_has_prec | done].
Qed.

Lemma ensure_in p addrs h x :
  x ∈ addrs →
  has_prec p (foldl (λ h' y, upd h' y (ensure_cell p (h' y))) h addrs x) = true.
Proof.
  revert h. induction addrs as [|a addrs IH]; intros h Hx; simpl.
  - by apply elem_of_nil in Hx.
  - apply elem_of_cons in Hx as [->|Hx]; [| by apply IH].
    apply ensure_keeps_prec. rewrite upd_eq. apply ensure_cell_has_prec.
Qed.

(** The conversion of the time argument. *)
Lemma time_array_wp dt to (Q : result (option ndarray) → state → Prop) s :
  (to = None → Q (Ok None) s) →
  (∀ a, to = Some (inr a) → Q (Ok (Some a)) s) →
  (∀ v s', to = Some (inl v) → heap_kept s s' →
     Q (Ok (Some (dense_array dt [1] (brk s)))) s') →
  wp (time_array dt to) Q s.
Proof.
  intros HN HA HS. destruct to as [[v|a]|]; simpl; [| by apply HA | by apply HN].
  unfold wp. simpl. apply (HS v); [done |]. split; simpl; [lia |].
  intros x Hx _. apply upd_ne. unfold base_addr. simpl. lia.
Qed.

(** The enforcement of the dtype. *)
Lemma enforce_dtype_wp r dt a (Q : result ndarray → state → Prop) s :
  (nd_dtype a = dt → Q (Ok a) s) →
  (nd_dtype a ≠ dt → can_cast_safe (nd_dtype a) dt = false →
     Q (Raise (UnsafeCast r)) s) →
  (∀ b s', nd_dtype a ≠ dt → heap_kept s s' → fresh_array (brk s) b →
     nd_dtype b = dt → nd_shape b = nd_shape a → Q (Ok b) s') →
  wp (enforce_dtype r dt a) Q s.
Proof.
  intros HS HR HC. unfold enforce_dtype. case_bool_decide as Hd.
  - unfold astype. destruct (can_cast_safe _ _) eqn:Ec; [| by apply HR].
    unfold wp. simpl. apply HC; try done.
    + split; simpl; [lia |]. intros x Hx _. apply upd_list_notin. intros Hin.
      apply (fresh_array_addresses (brk s)) in Hin; [lia |].
      by apply fresh_array_dense.
    + by apply fresh_array_dense.
  - apply HS. by destruct (decide (nd_dtype a = dt)).
Qed.

Lemma enforce_dtype_opt_wp r dt oa (Q : result (option ndarray) → state → Prop) s :
  (oa = None → Q (Ok None) s) →
  (∀ a, oa = Some a → nd_dtype a = dt → Q (Ok (Some a)) s) →
  (∀ a, oa = Some a → nd_dtype a ≠ dt → can_cast_safe (nd_dtype a) dt = false →
     Q (Raise (UnsafeCast r)) s) →
  (∀ a b s', oa = Some a → nd_dtype a ≠ dt → heap_kept s s' →
     fresh_array (brk s) b → nd_dtype b = dt → nd_shape b = nd_shape a →
     Q (Ok (Some b)) s') →
  wp (enforce_dtype_opt r dt oa) Q s.
Proof.
  intros HN HS HR HC. destruct oa as [a|]; simpl; [| by apply HN].
  apply wp_bind, enforce_dtype_wp.
  - intros Hd. by apply (HS a).
  - intros Hd Hc. by apply (HR a).
  - intros b s' Hd Hk Hf Hdt Hsh. by apply (HC a).
Qed.

Lemma numeric_cast_u32_wp r z (Q : result Z → state → Prop) s :
  (0 ≤ z ≤ uint32_max → Q (Ok z) s) →
  (¬ 0 ≤ z ≤ uint32_max → Q (Raise (NumericCastOverflow r)) s) →
  wp (numeric_cast_u32 r z) Q s.
Proof.
  intros HO HR. unfold numeric_cast_u32.
  destruct (0 <=? z) eqn:E1, (z <=? uint32_max) eqn:E2; simpl;
    try (apply wp_throw, HR; first [apply Z.leb_gt in E1 | apply Z.leb_gt in E2]; lia).
  apply HO. apply Z.leb_le in E1, E2. lia.
Qed.

(** The preparation of the array of outputs. *)
Lemma prepare_outputs_wp cf inputs oo multi (Q : result ndarray → state → Prop) s :
  (∀ e, is_Some oo → late_error e = false → Q (Raise e) s) →
  (∀ o, oo = Some o → nd_writeable o = true → ndim o = ndim inputs →
     shape_at o 0 = nouts cf →
     (multi = true → shape_at o 1 = shape_at inputs 1) → Q (Ok o) s) →
  (∀ s', oo = None → heap_kept s s' → heap s' = heap s →
     Q (Ok (dense_array (nd_dtype inputs)
              (if multi then [nouts cf; shape_at inputs 1] else [nouts cf])
              (brk s))) s') →
  wp (prepare_outputs cf inputs oo multi) Q s.
Proof.
  intros HR HS HN. destruct oo as [o|]; simpl.
  - apply wp_bind, wp_throw_if; [intros; by apply HR | intros Hw].
    apply wp_bind, wp_throw_if; [intros; by apply HR | intros Hd].
    apply wp_bind, numeric_cast_u32_wp; [intros Hr | intros _; by apply HR].
    apply wp_bind, wp_throw_if; [intros; by apply HR | intros Hn].
    apply wp_bind, wp_throw_if; [intros; by apply HR | intros Hm].
    apply wp_ret, HS; try done.
    + by apply negb_false_iff in Hw.
    + apply bool_decide_eq_false in Hd. by destruct (decide (ndim o = ndim inputs)).
    + apply bool_decide_eq_false in Hn.
      by destruct (decide (shape_at o 0 = nouts cf)).
    + intros ->. simpl in Hm. apply bool_decide_eq_false in Hm.
      by destruct (decide (shape_at o 1 = shape_at inputs 1)).
  - destruct multi; unfold wp; simpl; apply HN; try done; split; simpl; (lia || done).
Qed.

Lemma pyreal_check_array_wp r a p (Q : result unit → state → Prop) s :
  Q (Raise (PrecisionMismatch r)) s →
  (array_has_prec p (heap s) a → Q (Ok tt) s) →
  wp (pyreal_check_array r a p) Q s.
Proof.
  intros HR HS. unfold pyreal_check_array. apply wp_bind. unfold wp at 1. simpl.
  apply wp_throw_if; [done |]. intros Hf. apply HS.
  apply negb_false_iff, Is_true_true, forallb_True in Hf.
  intros x Hx. unfold contents in Hf. rewrite Forall_fmap, Forall_forall in Hf.
  by apply Is_true_true, Hf.
Qed.

(** The checks on the parameters and on time. *)
Lemma check_pars_wp cf inputs pars multi (Q : result unit → state → Prop) s :
  (∀ e, late_error e = true → Q (Raise e) s) →
  ((∀ q, pars = Some q →
      ndim q = ndim inputs ∧ shape_at q 0 = nparams cf ∧
      (multi = true → shape_at q 1 = shape_at inputs 1) ∧
      (is_real (elt_type cf) = true → array_has_prec (prec cf) (heap s) q)) →
   Q (Ok tt) s) →
  wp (check_pars cf inputs pars multi) Q s.
Proof.
  intros HR HS. destruct pars as [q|]; simpl; [| apply wp_ret, HS; by intros].
  apply wp_bind, wp_throw_if; [intros; by apply HR | intros Hd].
  apply wp_bind, numeric_cast_u32_wp; [intros Hr | intros _; by apply HR].
  apply wp_bind, wp_throw_if; [intros; by apply HR | intros Hn].
  apply wp_bind, wp_throw_if; [intros; by apply HR | intros Hm].
  assert (Hfacts : ndim q = ndim inputs ∧ shape_at q 0 = nparams cf ∧
                   (multi = true → shape_at q 1 = shape_at inputs 1)).
  { apply bool_decide_eq_false in Hd, Hn. split; [| split].
    - by destruct (decide (ndim q = ndim inputs)).
    - by destruct (decide (shape_at q 0 = nparams cf)).
    - intros ->. simpl in Hm. apply bool_decide_eq_false in Hm.
      by destruct (decide (shape_at q 1 = shape_at inputs 1)). }
  destruct (is_real (elt_type cf)) eqn:Er.
  - apply pyreal_check_array_wp; [by apply HR |]. intros Hp. apply HS.
    intros ? [= <-]. repeat split; try apply Hfacts. done.
  - apply wp_ret, HS. intros ? [= <-]. repeat split; try apply Hfacts. done.
Qed.

Lemma check_time_wp cf inputs time multi (Q : result unit → state → Prop) s :
  (∀ e, late_error e = true → Q (Raise e) s) →
  ((∀ t, time = Some t →
      ndim t = 1 ∧ (multi = true → shape_at t 0 = shape_at inputs 1) ∧
      (is_real (elt_type cf) = true → array_has_prec (prec cf) (heap s) t)) →
   Q (Ok tt) s) →
  wp (check_time cf inputs time multi) Q s.
Proof.
  intros HR HS. destruct time as [t|]; simpl; [| apply wp_ret, HS; by intros].
  apply wp_bind, wp_throw_if; [intros; by apply HR | intros Hd].
  apply wp_bind, wp_throw_if; [intros; by apply HR | intros Hm].
  assert (Hfacts : ndim t = 1 ∧ (multi = true → shape_at t 0 = shape_at inputs 1)).
  { apply bool_decide_eq_false in Hd. split.
    - by destruct (decide (ndim t = 1)).
    - intros ->. simpl in Hm. apply bool_decide_eq_false in Hm.
      by destruct (decide (shape_at t 0 = shape_at inputs 1)). }
  destruct (is_real (elt_type cf)) eqn:Er.
  - apply pyreal_check_array_wp; [by apply HR |]. intros Hp. apply HS.
    intros ? [= <-]. repeat split; try apply Hfacts. done.
  - apply wp_ret, HS. intros ? [= <-]. repeat split; try apply Hfacts. done.
Qed.

(** The same steps, with one case for all the ways to go on. *)
Lemma time_array_spec dt to (Q : result (option ndarray) → state → Prop) s :
  (∀ t s', heap_kept s s' →
     (to = None → t = None) →
     (∀ v, to = Some (inl v) → ∃ d, t = Some (dense_array dt [1] d)) →
     (∀ a, to = Some (inr a) → t = Some a) →
     Q (Ok t) s') →
  wp (time_array dt to) Q s.
Proof.
  intros HQ. apply time_array_wp.
  - intros ->. by apply HQ; [apply heap_frame_refl | ..].
  - intros a ->. apply HQ; [apply heap_frame_refl | done | done |]. by intros ? [= <-].
  - intros v s' -> Hk. apply HQ; [done | done | | done]. intros _ _. by eexists.
Qed.

Lemma enforce_dtype_spec r dt a (Q : result ndarray → state → Prop) s :
  (nd_dtype a ≠ dt → can_cast_safe (nd_dtype a) dt = false →
     Q (Raise (UnsafeCast r)) s) →
  (∀ b s', heap_kept s s' → nd_shape b = nd_shape a → nd_dtype b = dt →
     (nd_dtype a = dt → b = a ∧ s' = s) →
     (nd_dtype a ≠ dt → fresh_array (brk s) b) → Q (Ok b) s') →
  wp (enforce_dtype r dt a) Q s.
Proof.
  intros HR HQ. apply enforce_dtype_wp.
  - intros Hd. apply HQ; first [apply heap_frame_refl | done].
  - done.
  - intros b s' Hd Hk Hf Hdt Hsh. apply HQ; try done.
Qed.

Lemma enforce_dtype_opt_spec r dt oa (Q : result (option ndarray) → state → Prop) s :
  (∀ a, oa = Some a → nd_dtype a ≠ dt → can_cast_safe (nd_dtype a) dt = false →
     Q (Raise (UnsafeCast r)) s) →
  (∀ ob s', heap_kept s s' →
     (oa = None → ob = None) →
     (∀ a, oa = Some a → ∃ b, ob = Some b ∧ nd_shape b = nd_shape a ∧
        nd_dtype b = dt ∧
        (nd_dtype a = dt → b = a ∧ s' = s) ∧
        (nd_dtype a ≠ dt → fresh_array (brk s) b)) →
     Q (Ok ob) s') →
  wp (enforce_dtype_opt r dt oa) Q s.
Proof.
  intros HR HQ. destruct oa as [a|]; simpl.
  - apply wp_bind, enforce_dtype_spec; [by apply HR |].
    intros b s' Hk Hsh Hdt Hsame Hfresh. apply wp_ret, HQ; [done | done |].
    intros ? [= <-]. by exists b.
  - apply wp_ret, HQ; [apply heap_frame_refl | done | done].
Qed.

Lemma prepare_outputs_spec cf inputs oo multi (Q : result ndarray → state → Prop) s :
  multi = bool_decide (ndim inputs = 2) →
  ndim inputs = 1 ∨ ndim inputs = 2 →
  (∀ e, late_error e = false → Q (Raise e) s) →
  (∀ o s', heap_kept s s' → heap s' = heap s →
     nd_writeable o = true → ndim o = ndim inputs → shape_at o 0 = nouts cf →
     (multi = true → shape_at o 1 = shape_at inputs 1) →
     match oo with Some o' => o = o' | None => fresh_array (brk s) o end →
     Q (Ok o) s') →
  wp (prepare_outputs cf inputs oo multi) Q s.
Proof.
  intros Hm Hnd HR HQ. apply prepare_outputs_wp.
  - intros e _ He. by apply HR.
  - intros o -> Hw Hd Hn Hs. apply HQ; first [done | apply heap_frame_refl].
  - intros s' -> Hk Hh. apply HQ; try done.
    + subst multi. case_bool_decide as E; [by rewrite E | by destruct Hnd].
    + by destruct multi.
    + by destruct multi.
    + by apply fresh_array_dense.
Qed.

(** *** The outcome of the preparation *)

Lemma prepare_spec cf i oo po to s :
  wp (prepare cf i oo po to) (prepare_post cf i oo s) s.
Proof.
  unfold prepare. set (dt := get_dtype (elt_type cf)).
  apply wp_bind, time_array_spec. intros t0 s1 K1 Ht0N Ht0 Ht0A.
  apply wp_bind, enforce_dtype_spec; [intros _ _; exact K1 |].
  intros inputs s2 K2 Hish Hidt Hisame Hifresh.
  assert (K02 := heap_frame_trans _ _ _ _ K1 K2).
  apply wp_bind, enforce_dtype_opt_spec; [intros; exact K02 |].
  intros outputs_ s3 K3 HoN HoS.
  assert (K03 := heap_frame_trans _ _ _ _ K02 K3).
  apply wp_bind, enforce_dtype_opt_spec; [intros; exact K03 |].
  intros pars s4 K4 HpN HpS.
  assert (K04 := heap_frame_trans _ _ _ _ K03 K4).
  apply wp_bind, enforce_dtype_opt_spec; [intros; exact K04 |].
  intros time s5 K5 HtN HtS.
  assert (K05 := heap_frame_trans _ _ _ _ K04 K5).
  apply wp_bind, wp_throw_if; [intros _; exact K05 | intros Hc1].
  apply wp_bind, wp_throw_if; [intros _; exact K05 | intros Hc2].
  apply wp_bind, wp_throw_if; [intros _; exact K05 | intros Hc3].
  apply wp_bind, numeric_cast_u32_wp; [intros Hr | intros _; exact K05].
  apply wp_bind, wp_throw_if; [intros _; exact K05 | intros Hc4].
  apply wp_bind, wp_throw_if; [intros _; exact K05 | intros Hc5].
  assert (Hnd : ndim inputs = 1 ∨ ndim inputs = 2).
  { apply andb_false_iff in Hc3 as [Hc3|Hc3]; apply bool_decide_eq_false in Hc3.
    - left. by destruct (decide (ndim inputs = 1)).
    - right. by destruct (decide (ndim inputs = 2)). }
  assert (Hnv : shape_at inputs 0 = nvars cf).
  { apply bool_decide_eq_false in Hc4.
    by destruct (decide (shape_at inputs 0 = nvars cf)). }
  apply wp_bind, prepare_outputs_spec; [done | done | |].
  { intros e He. simpl. rewrite He. exact K05. }
  intros outputs s6 K6 Hh6 Hw Hond Hon0 Hon1 Horigin.
  assert (K06 := heap_frame_trans _ _ _ _ K05 K6).
  (* where the array of outputs comes from *)
  assert (Hout : outputs_origin cf oo (brk s) outputs).
  { unfold outputs_origin. destruct oo as [o|].
    - destruct (HoS o eq_refl) as (b & -> & Hsh & Hbdt & Hsame & Hfresh).
      simpl in Horigin. subst outputs.
      fold dt. destruct (decide (nd_dtype o = dt)) as [Hd|Hd];
        [rewrite bool_decide_true by done | rewrite bool_decide_false by done].
      + by destruct (Hsame Hd).
      + split; [| done]. eapply fresh_array_mono; [| by apply Hfresh].
        destruct K02. lia.
    - rewrite (HoN eq_refl) in Horigin.
      eapply fresh_array_mono; [| exact Horigin]. destruct K05. lia. }
  assert (Hnorm : is_real (elt_type cf) = true →
            ∀ x, x ∈ addresses outputs → x < brk s → normalized_outputs cf oo x).
  { intros Er x Hx Hlt. unfold outputs_origin in Hout. destruct oo as [o|].
    - fold dt in Hout. destruct (decide (nd_dtype o = dt)) as [Hd|Hd];
        [rewrite bool_decide_true in Hout by done
        | rewrite bool_decide_false in Hout by done].
      + subst outputs. split; [done |]. by exists o.
      + destruct Hout as (Hf & _ & _).
        apply (fresh_array_addresses _ _ x) in Hf; [lia | done].
    - apply (fresh_array_addresses _ _ x) in Hout; [lia | done]. }
  (* the checks on parameters and time, and the result *)
  assert (Htail : ∀ s7,
    heap_frame (normalized_outputs cf oo) s s7 →
    (is_real (elt_type cf) = true →
       array_has_prec (prec cf) (heap s7) inputs ∧
       array_has_prec (prec cf) (heap s7) outputs) →
    wp (check_pars cf inputs pars (bool_decide (ndim inputs = 2));;
        check_time cf inputs time (bool_decide (ndim inputs = 2));;
        ret {| p_inputs := inputs; p_outputs := outputs; p_pars := pars;
               p_time := time; p_multi_eval := bool_decide (ndim inputs = 2);
               p_zero_copy := zero_copy_of inputs outputs pars time |})
       (prepare_post cf i oo s) s7).
  { intros s7 K7 Hprec.
    apply wp_bind, check_pars_wp; [intros e He; simpl; by rewrite He | intros Hpars].
    apply wp_bind, check_time_wp; [intros e He; simpl; by rewrite He | intros Htime].
    apply wp_ret. simpl. split; [done |]. split; [| split; [done |]; split; [done |]].
    - constructor; simpl; try done.
      + intros Hn. apply andb_false_iff in Hc1 as [Hc1|Hc1].
        * apply Z.ltb_ge in Hc1. lia.
        * apply negb_false_iff, bool_decide_eq_true in Hc1. done.
      + intros q Hq. destruct (Hpars q Hq) as (? & ? & ? & _). done.
      + intros Htd. rewrite Htd in Hc2. simpl in Hc2.
        by apply negb_false_iff, bool_decide_eq_true in Hc2.
      + intros t Ht. destruct (Htime t Ht) as (? & ? & _).
        split; [done |]. split; [done |]. intros Hm.
        assert (Hsc : holds_scalar to = true).
        { rewrite Hm in Hc5. destruct (holds_scalar to); [done |].
          simpl in Hc5. rewrite Ht in Hc5.
          apply andb_false_iff in Hc5 as [Hc5|Hc5]; [| done].
          apply andb_false_iff in Hc5 as [Hc5|Hc5]; [| done].
          apply bool_decide_eq_false in Hc5. destruct Hc5. by eexists. }
        destruct to as [[v|?]|]; try done.
        destruct (Ht0 v eq_refl) as (d & ->).
        destruct (HtS _ eq_refl) as (b & Hb & Hsh & _ & Hsame & _).
        rewrite Ht in Hb. injection Hb as <-.
        destruct (Hsame eq_refl) as [-> _]. by exists d.
    - intros Er. destruct (Hprec Er) as [Hi Ho]. repeat split; try done.
      + intros q Hq. destruct (Hpars q Hq) as (_ & _ & _ & Hp). by apply Hp.
      + intros t Ht. destruct (Htime t Ht) as (_ & _ & Hp). by apply Hp. }
  apply wp_bind. destruct (is_real (elt_type cf)) eqn:Er.
  - apply wp_bind, pyreal_check_array_wp; [exact K06 | intros Hip].
    unfold pyreal_ensure_array, wp at 1. simpl. apply Htail.
    + destruct K06 as [Hb Hh]. split; simpl; [done |].
      intros x Hx HW. rewrite ensure_notin; [apply Hh; [done | by intros []] |].
      intros Hin. apply HW. by apply Hnorm.
    + intros _. simpl. split.
      * intros x Hx. apply ensure_keeps_prec. by apply Hip.
      * intros x Hx. by apply ensure_in.
  - apply wp_ret, Htail; [by apply heap_kept_frame | done].
Qed.

Lemma prepare_ok cf i oo po to s p :
  (prepare cf i oo po to s).1 = Ok p →
  prepare_post cf i oo s (Ok p) (prepare cf i oo po to s).2.
Proof. intros Hp. rewrite <- Hp. apply prepare_spec. Qed.

Lemma prepare_raise cf i oo po to s e :
  (prepare cf i oo po to s).1 = Raise e →
  prepare_post cf i oo s (Raise e) (prepare cf i oo po to s).2.
Proof. intros Hp. rewrite <- Hp. apply prepare_spec. Qed.

Lemma prepare_validated cf i oo po to s p :
  (prepare cf i oo po to s).1 = Ok p → validated cf p.
Proof. intros Hp. by destruct (prepare_ok _ _ _ _ _ _ _ Hp) as (_ & Hv & _). Qed.

(** *** The zero-copy decision *)

Lemma may_share_memory_false l :
  may_share_memory l = false →
  ∀ (i j : nat) a b, (i < j)%nat → l !! i = Some a → l !! j = Some b →
    may_share_memory2 a b = false.
Proof.
  induction l as [|c l IH]; intros Hs i j a b Hij Ha Hb; [done |].
  simpl in Hs. apply orb_false_iff in Hs as [Hc Hl].
  destruct j as [|j]; [lia |]. simpl in Hb. destruct i as [|i]; simpl in Ha.
  - injection Ha as ->.
    destruct (may_share_memory2 a b) eqn:E; [| done].
    assert (existsb (may_share_memory2 a) l = true); [| congruence].
    apply existsb_exists. exists b. split; [| done].
    apply list_elem_of_In, list_elem_of_lookup. by exists j.
  - apply (IH Hl i j); [lia | done | done].
Qed.

Lemma is_npy_array_carray_contiguous a :
  is_npy_array_carray a = true → is_c_contiguous a = true.
Proof. unfold is_npy_array_carray. by intros [? _]%andb_true_iff. Qed.

Lemma zero_copy_of_true inputs outputs pars time :
  zero_copy_of inputs outputs pars time = true →
  Forall (λ a, is_npy_array_carray a = true)
         (inputs :: outputs :: option_list pars ++ option_list time) ∧
  may_share_memory (inputs :: outputs :: option_list pars ++ option_list time) = false.
Proof.
  unfold zero_copy_of.
  destruct (is_npy_array_carray inputs) eqn:Ei; [| done].
  destruct (is_npy_array_carray outputs) eqn:Eo; [| done].
  destruct pars as [q|], time as [t|]; simpl.
  - destruct (is_npy_array_carray q) eqn:Eq; [| done].
    destruct (is_npy_array_carray t) eqn:Et; [| done]. simpl.
    destruct (_ || _) eqn:Es; [done |]. intros _. split; [| done].
    by repeat constructor.
  - destruct (is_npy_array_carray q) eqn:Eq; [| done]. simpl.
    destruct (_ || _) eqn:Es; [done |]. intros _. split; [| done].
    by repeat constructor.
  - destruct (is_npy_array_carray t) eqn:Et; [| done]. simpl.
    destruct (_ || _) eqn:Es; [done |]. intros _. split; [| done].
    by repeat constructor.
  - destruct (_ || _) eqn:Es; [done |]. intros _. split; [| done].
    by repeat constructor.
Qed.

(** *** The evaluation never throws *)

Lemma never_raises_ret {A} (a : A) : never_raises (ret a).
Proof. intros s. by exists a. Qed.

Lemma never_raises_bind {A B} (m : M A) (k : A → M B) :
  never_raises m → (∀ a, never_raises (k a)) → never_raises (bind m k).
Proof.
  intros Hm Hk s. unfold bind. destruct (Hm s) as [a Ha].
  destruct (m s) as [r s']. simpl in Ha. subst r. apply Hk.
Qed.

Lemma never_raises_for_each l body :
  (∀ k, never_raises (body k)) → never_raises (for_each l body).
Proof.
  intros Hb. induction l as [|k l IH]; simpl.
  - apply never_raises_ret.
  - by apply never_raises_bind.
Qed.

Lemma never_raises_when_some {A} (o : option A) f :
  (∀ a, never_raises (f a)) → never_raises (when_some o f).
Proof. destruct o; simpl; [done | intros; apply never_raises_ret]. Qed.

Lemma never_raises_total {A} (m : M A) (f : state → A) (g : state → state) :
  (∀ s, m s = (Ok (f s), g s)) → never_raises m.
Proof. intros Hm s. exists (f s). by rewrite Hm. Qed.

Ltac never_raises_step :=
  first
    [ apply never_raises_ret
    | apply never_raises_bind; [| intros ?]
    | apply never_raises_for_each; intros ?
    | apply never_raises_when_some; intros ?
    | by (eapply never_raises_total; intros ?; reflexivity)
    | match goal with
      | |- never_raises (if ?c then _ else _) => destruct c
      end ].

Lemma never_raises_run cf p : never_raises (run cf p).
Proof.
  unfold run, run_multi_zero_copy, run_multi_buffered, run_single_zero_copy,
    run_single_buffered, gather_block, gather_time_block, scatter_block,
    gather_point, gather_time_point, scatter_point, gather1, scatter1,
    fptr_scal, fptr_batch, fptr_scal_s, fptr_batch_s, padd_if, padd, heap_set,
    buf_set.
  repeat never_raises_step.
Qed.

(** A call whose preparation succeeds returns the array of outputs. *)
Lemma call_ok cf i oo po to s p :
  (prepare cf i oo po to s).1 = Ok p →
  (call cf i oo po to s).1 = Ok (p_outputs p).
Proof.
  intros Hp. rewrite (call_after_prepare _ _ _ _ _ _ _ Hp).
  unfold bind at 1.
  destruct (never_raises_run cf p (prepare cf i oo po to s).2) as [[] Hr].
  destruct (run cf p _) as [r s']. simpl in Hr. by subst r.
Qed.

(** The outcome of a call is an error exactly when its preparation ends in
    that error, and then the state is the one the preparation left. *)
Lemma call_raise_inv cf i oo po to s e :
  (call cf i oo po to s).1 = Raise e →
  (prepare cf i oo po to s).1 = Raise e ∧
  (call cf i oo po to s).2 = (prepare cf i oo po to s).2.
Proof.
  intros Hc. destruct (prepare cf i oo po to s).1 as [p|e'] eqn:Hp.
  - by rewrite (call_ok _ _ _ _ _ _ _ Hp) in Hc.
  - rewrite (call_prepare_raise _ _ _ _ _ _ _ Hp) in Hc |- *. simpl in *.
    by injection Hc as ->.
Qed.

Lemma call_ok_inv cf i oo po to s r :
  (call cf i oo po to s).1 = Ok r →
  ∃ p, (prepare cf i oo po to s).1 = Ok p ∧ r = p_outputs p.
Proof.
  intros Hc. destruct (prepare cf i oo po to s).1 as [p|e'] eqn:Hp.
  - exists p. split; [done |]. rewrite (call_ok _ _ _ _ _ _ _ Hp) in Hc. congruence.
  - by rewrite (call_prepare_raise _ _ _ _ _ _ _ Hp) in Hc.
Qed.

(** *** Calls that pass the early checks *)

Lemma castable_not dt a :
  castable dt a → nd_dtype a ≠ dt → can_cast_safe (nd_dtype a) dt = false → False.
Proof. intros [?|?] ? ?; congruence. Qed.

(** The preparation of a call that passes the early checks gets to the
    array of outputs, with the converted arguments. *)
Lemma prepare_early_wp cf i oo po to (Q : result prepared → state → Prop) s :
  early_checks_pass cf i po to →
  (∀ o, oo = Some o → castable (get_dtype (elt_type cf)) o) →
  (∀ inputs outputs_ pars time s5 (k : M prepared),
     heap_kept s s5 →
     nd_shape inputs = nd_shape i →
     (oo = None → outputs_ = None) →
     (∀ o, oo = Some o → ∃ b, outputs_ = Some b ∧ nd_shape b = nd_shape o ∧
        (nd_dtype o = get_dtype (elt_type cf) → b = o) ∧
        (nd_dtype o ≠ get_dtype (elt_type cf) → nd_writeable b = true)) →
     (po = None → pars = None) →
     (∀ q, po = Some q → ∃ b, pars = Some b ∧ nd_shape b = nd_shape q) →
     (to = None → time = None) →
     (∀ t, to = Some (inr t) → ∃ b, time = Some b ∧ nd_shape b = nd_shape t) →
     (∀ v, to = Some (inl v) → ∃ b, time = Some b ∧ nd_shape b = [1]) →
     k = (outputs <- prepare_outputs cf inputs outputs_ (bool_decide (ndim inputs = 2));;
          (if is_real (elt_type cf)
           then pyreal_check_array RIn inputs (prec cf);;
                pyreal_ensure_array outputs (prec cf)
           else ret tt);;
          check_pars cf inputs pars (bool_decide (ndim inputs = 2));;
          check_time cf inputs time (bool_decide (ndim inputs = 2));;
          ret {| p_inputs := inputs; p_outputs := outputs; p_pars := pars;
                 p_time := time; p_multi_eval := bool_decide (ndim inputs = 2);
                 p_zero_copy := zero_copy_of inputs outputs pars time |}) →
     wp k Q s5) →
  wp (prepare cf i oo po to) Q s.
Proof.
  intros (Hci & Hcq & Hct & Hpg & Htg & Hnd & Hr & Hnv & Hst) Hco HQ.
  unfold prepare. set (dt := get_dtype (elt_type cf)) in *.
  apply wp_bind, time_array_spec. intros t0 s1 K1 Ht0N Ht0 Ht0A.
  apply wp_bind, enforce_dtype_spec.
  { intros Hne Hc. destruct (castable_not _ _ Hci Hne Hc). }
  intros inputs s2 K2 Hish Hidt Hisame Hifresh.
  assert (K02 := heap_frame_trans _ _ _ _ K1 K2).
  apply wp_bind, enforce_dtype_opt_spec.
  { intros o Ho Hne Hc. destruct (castable_not _ _ (Hco o Ho) Hne Hc). }
  intros outputs_ s3 K3 HoN HoS.
  assert (K03 := heap_frame_trans _ _ _ _ K02 K3).
  apply wp_bind, enforce_dtype_opt_spec.
  { intros q Hq Hne Hc. destruct (castable_not _ _ (Hcq q Hq) Hne Hc). }
  intros pars s4 K4 HpN HpS.
  assert (K04 := heap_frame_trans _ _ _ _ K03 K4).
  apply wp_bind, enforce_dtype_opt_spec.
  { intros t Ht Hne Hc. destruct to as [[v|t']|].
    - destruct (Ht0 v eq_refl) as (d & Hd). rewrite Ht in Hd.
      injection Hd as ->. by destruct Hne.
    - rewrite (Ht0A t' eq_refl) in Ht. injection Ht as ->.
      destruct (castable_not _ _ (Hct t eq_refl) Hne Hc).
    - by rewrite (Ht0N eq_refl) in Ht. }
  intros time s5 K5 HtN HtS.
  assert (K05 := heap_frame_trans _ _ _ _ K04 K5).
  assert (Hndi : ndim inputs = ndim i) by (unfold ndim; by rewrite Hish).
  assert (Hs0 : shape_at inputs 0 = shape_at i 0) by (unfold shape_at; by rewrite Hish).
  apply wp_bind, wp_throw_if.
  { intros [Hn Hp]%andb_true_iff. apply Z.ltb_lt in Hn.
    destruct (Hpg Hn) as [q Hq]. destruct (HpS q Hq) as (b & Hb & _).
    rewrite Hb in Hp. apply negb_true_iff, bool_decide_eq_false in Hp.
    destruct Hp. by eexists. }
  intros _. apply wp_bind, wp_throw_if.
  { intros [Htd Hp]%andb_true_iff. apply negb_true_iff, bool_decide_eq_false in Hp.
    destruct Hp. destruct (Htg Htd) as [[v|t] ->].
    - destruct (Ht0 v eq_refl) as (d & Hd).
      destruct (HtS _ Hd) as (b & -> & _). by eexists.
    - destruct (HtS _ (Ht0A t eq_refl)) as (b & -> & _). by eexists. }
  intros _. apply wp_bind, wp_throw_if.
  { intros [H1 H2]%andb_true_iff. apply bool_decide_eq_true in H1, H2. lia. }
  intros _. apply wp_bind, numeric_cast_u32_wp; [| intros Hn; destruct Hn; lia].
  intros _. apply wp_bind, wp_throw_if.
  { intros Hn%bool_decide_eq_true. destruct Hn. lia. }
  intros _. apply wp_bind, wp_throw_if.
  { intros [[Ht Hm]%andb_true_iff Hsc]%andb_true_iff.
    apply bool_decide_eq_true in Ht. apply negb_true_iff, bool_decide_eq_false in Hm.
    apply negb_true_iff in Hsc. destruct Hnd as [Hnd|Hnd]; [| lia].
    destruct to as [[v|t]|]; [done | by destruct (Hst Hnd t) |].
    rewrite (HtN (Ht0N eq_refl)) in Ht. by destruct Ht. }
  intros _.
  eapply HQ; [exact K05 | exact Hish | exact HoN | | exact HpN | | | | | reflexivity].
  - intros o Ho. destruct (HoS o Ho) as (b & Hb & Hsh & _ & Hsame & Hfresh).
    exists b. split; [done |]. split; [done |]. split.
    + intros Hd. by destruct (Hsame Hd).
    + intros Hd. destruct (Hfresh Hd) as (d & -> & _). done.
  - intros q Hq. destruct (HpS q Hq) as (b & Hb & Hsh & _). by exists b.
  - intros Hto. by rewrite (HtN (Ht0N Hto)).
  - intros t Ht. destruct (HtS _ (Ht0A t Ht)) as (b & Hb & Hsh & _). by exists b.
  - intros v Hv. destruct (Ht0 v Hv) as (d & Hd).
    destruct (HtS _ Hd) as (b & Hb & Hsh & _). by exists b.
Qed.

(** *** Arrays without elements *)

Lemma offsets_zero st : offsets [0] st = [].
Proof. cbn [offsets]. by rewrite (seqZ_nil 0 0) by lia. Qed.

Lemma offsets_inner_nil n sh st :
  offsets sh (tl st) = [] → offsets (n :: sh) st = [].
Proof.
  intros Hs. cbn [offsets]. rewrite Hs.
  induction (seqZ 0 n) as [|x l IH]; [done |]. exact IH.
Qed.

Lemma addresses_empty_batch a n : nd_shape a = [n; 0] → addresses a = [].
Proof.
  intros Hs. unfold addresses. rewrite Hs.
  by rewrite offsets_inner_nil by apply offsets_zero.
Qed.

Lemma addresses_empty a : nd_shape a = [0] → addresses a = [].
Proof. intros Hs. unfold addresses. rewrite Hs. by rewrite offsets_zero. Qed.

Lemma pyreal_check_array_empty r a p s :
  addresses a = [] → pyreal_check_array r a p s = (Ok tt, s).
Proof.
  intros Ha. unfold pyreal_check_array, bind, get_heap, contents. by rewrite Ha.
Qed.

(** The checks on an array of outputs that is as it must be. *)
Lemma prepare_outputs_given cf inputs o multi s :
  nd_writeable o = true → ndim o = ndim inputs →
  0 ≤ shape_at o 0 ≤ uint32_max → shape_at o 0 = nouts cf →
  (multi = true → shape_at o 1 = shape_at inputs 1) →
  prepare_outputs cf inputs (Some o) multi s = (Ok o, s).
Proof.
  intros Hw Hd Hr Hn Hm. unfold prepare_outputs, numeric_cast_u32, bind. simpl.
  rewrite Hw. simpl. rewrite bool_decide_false by (intros Hx; by apply Hx).
  simpl. rewrite (proj2 (Z.leb_le _ _)) by lia.
  rewrite (proj2 (Z.leb_le _ _)) by lia. simpl.
  rewrite bool_decide_false by (intros Hx; by apply Hx). simpl.
  destruct multi; simpl; [| done].
  by rewrite bool_decide_false by (intros Hx; by apply Hx, Hm).
Qed.

(** *** What the evaluation writes *)

Lemma quot_nonneg a b : 0 ≤ a → 0 ≤ b → 0 ≤ a ÷ b.
Proof.
  intros Ha Hb. destruct (decide (b = 0)) as [->|Hne].
  - by destruct a.
  - apply Z.quot_pos; lia.
Qed.








Lemma ndim_2_shape a :
  ndim a = 2 → ∃ n0 n1, nd_shape a = [n0; n1] ∧ shape_at a 0 = n0 ∧ shape_at a 1 = n1.
Proof.
  unfold ndim, shape_at. destruct (nd_shape a) as [|n0 [|n1 [|? ?]]]; simpl; try lia.
  intros _. by exists n0, n1.
Qed.

Lemma ndim_1_shape a :
  ndim a = 1 → ∃ n0, nd_shape a = [n0] ∧ shape_at a 0 = n0.
Proof.
  unfold ndim, shape_at. destruct (nd_shape a) as [|n0 [|? ?]]; simpl; try lia.
  intros _. by exists n0.
Qed.
















(** *** The scratch vectors keep their lengths *)

Lemma length_vec_set l i v : length (vec_set l i v) = length l.
Proof. unfold vec_set. case_bool_decide; [apply length_insert | done]. Qed.

Lemma get_put_buf b b' l sc :
  get_buf b (put_buf b' l sc) = if decide (b = b') then l else get_buf b sc.
Proof. by destruct b, b'. Qed.

Lemma store_same_lengths p i v s : same_lengths s (store p i v s).
Proof.
  intros b. destruct p as [[a|b' o]|]; simpl; try done.
  rewrite get_put_buf. case_decide; [subst; apply length_vec_set | done].
Qed.

Lemma store_list_same_lengths p idxs vals s : same_lengths s (store_list p idxs vals s).
Proof.
  revert vals s. induction idxs as [|i idxs IH]; intros [|v vals] s; simpl; try done.
  etrans; [apply store_same_lengths | apply IH].
Qed.

Lemma foldl_store_lane_same_lengths cf po st lanes s :
  same_lengths s (foldl (store_lane cf po st) s lanes).
Proof.
  revert s. induction lanes as [|jv lanes IH]; intros s; simpl; [done |].
  etrans; [| apply IH]. apply store_list_same_lengths.
Qed.

Lemma kernel_same_lengths cf w st po pi pp pt :
  preserves same_lengths (kernel cf w st po pi pp pt).
Proof. intros s. apply foldl_store_lane_same_lengths. Qed.

Lemma set_heap_same_lengths h : preserves same_lengths (set_heap h).
Proof. by intros s. Qed.

Lemma log_same_lengths e : preserves same_lengths (log e).
Proof. by intros s. Qed.

Lemma buf_set_same_lengths b i v : preserves same_lengths (buf_set b i v).
Proof.
  intros s b'. simpl. rewrite get_put_buf.
  case_decide; [subst; apply length_vec_set | done].
Qed.

Ltac same_lengths_step :=
  lazymatch goal with
  | |- preserves _ (kernel _ _ _ _ _ _ _) => apply kernel_same_lengths
  | |- preserves _ (set_heap _) => apply set_heap_same_lengths
  | |- preserves _ (log _) => apply log_same_lengths
  | |- preserves _ (buf_set _ _ _) => apply buf_set_same_lengths
  | |- _ => preserves_step
  end.

Lemma run_same_lengths cf p : preserves same_lengths (run cf p).
Proof.
  unfold run, run_multi_zero_copy, run_multi_buffered, run_single_zero_copy,
    run_single_buffered, gather_block, gather_time_block, scatter_block,
    gather_point, gather_time_point, scatter_point, gather1, scatter1,
    fptr_scal, fptr_batch, fptr_scal_s, fptr_batch_s, padd_if, padd, heap_set.
  repeat same_lengths_step.
Qed.

(** No call changes the length of a scratch vector. *)
Lemma call_same_lengths cf i oo po to : preserves same_lengths (call cf i oo po to).
Proof.
  unfold call. apply (preserves_bind same_lengths).
  - intros s b. by rewrite (prepare_same_scr cf i oo po to s).
  - intros p. apply (preserves_bind same_lengths); [apply run_same_lengths |].
    intros _. apply preserves_ret, _.
Qed.

Lemma scratch_sized_same_lengths cf s s' :
  same_lengths s s' → scratch_sized cf (scr s) → scratch_sized cf (scr s').
Proof.
  intros Hl (H1 & H2 & H3 & H4). unfold scratch_sized.
  rewrite <- H1, <- H2, <- H3, <- H4.
  repeat split; [apply (Hl BufIn) | apply (Hl BufOut) | apply (Hl BufPars)
                | apply (Hl BufTime)].
Qed.

(** *** Construction *)

Lemma length_make_buffer T n p : length (make_buffer T n p) = Z.to_nat n.
Proof.
  unfold make_buffer. destruct (is_real T); rewrite ?length_fmap; apply length_resize.
Qed.

Lemma make_buffer_has_prec n p :
  Forall (λ c, has_prec p c = true) (make_buffer Real n p).
Proof.
  unfold make_buffer. simpl. apply Forall_fmap, Forall_forall. intros c _. simpl.
  apply Z.eqb_refl.
Qed.

Lemma add_cfunc_scratch_ok T fn vars batch_size prec_ kfn cf sc :
  add_cfunc T fn vars batch_size prec_ kfn = Ok (cf, sc) →
  cfunc_wf cf → no_overflow cf → scratch_ok cf sc.
Proof.
  unfold add_cfunc. destruct (_ && _); [done |]. intros [= <- <-].
  intros (Hv & Ho & Hp & Hw) (Oi & Oo & Op). simpl in *.
  unfold mul_u32. split.
  - unfold scratch_sized. simpl. rewrite !length_make_buffer.
    rewrite !Z.mod_small by (unfold uint32_max in *; nia). done.
  - intros Hr. simpl in *. destruct T; try done.
    intros []; simpl; apply make_buffer_has_prec.
Qed.

(** *** Elements of arrays by index *)

Lemma addr1_in_addresses a i :
  ndim a = 1 → 0 ≤ i < shape_at a 0 → addr1 a i ∈ addresses a.
Proof.
  intros Hnd Hi. destruct (ndim_1_shape _ Hnd) as (n0 & Hsh & Hs0).
  apply elem_of_addresses. exists (i * hd 0 (nd_strides a) + 0). split.
  - unfold addr1, stride_at. destruct (nd_strides a); simpl; lia.
  - rewrite Hsh. apply elem_of_offsets_cons. exists i, 0.
    split; [done |]. split; [lia |]. simpl. by left.
Qed.

Lemma addr2_in_addresses a i c :
  ndim a = 2 → 0 ≤ i < shape_at a 0 → 0 ≤ c < shape_at a 1 →
  addr2 a i c ∈ addresses a.
Proof.
  intros Hnd Hi Hc. destruct (ndim_2_shape _ Hnd) as (n0 & n1 & Hsh & Hs0 & Hs1).
  apply elem_of_addresses.
  exists (i * hd 0 (nd_strides a) + (c * hd 0 (tl (nd_strides a)) + 0)). split.
  - unfold addr2, stride_at. destruct (nd_strides a) as [|? [|? ?]]; simpl; lia.
  - rewrite Hsh. apply elem_of_offsets_cons. eexists i, _.
    split; [done |]. split; [lia |]. apply elem_of_offsets_cons. exists c, 0.
    split; [done |]. split; [lia |]. simpl. by left.
Qed.

(** *** The precision of the scratch vectors along a buffered evaluation *)

Lemma vec_get_Forall (P : cell → Prop) l i :
  Forall P l → 0 ≤ i → (Z.to_nat i < length l)%nat → P (vec_get l i).
Proof.
  intros Hl Hi Hlt. unfold vec_get. rewrite bool_decide_true by done.
  destruct (lookup_lt_is_Some_2 l (Z.to_nat i) Hlt) as [c Hc].
  rewrite (list_lookup_total_correct _ _ _ Hc).
  by eapply Forall_lookup_1.
Qed.

Lemma vec_set_Forall (P : cell → Prop) l i v :
  Forall P l → P v → Forall P (vec_set l i v).
Proof.
  intros Hl Hv. unfold vec_set. case_bool_decide; [| done].
  destruct (decide (Z.to_nat i < length l)%nat).
  - by apply Forall_insert.
  - by rewrite list_insert_ge by lia.
Qed.

Section RunInv.

Context (cf : cfunc) (p : prepared).

Lemma run_inv_heap_set a v :
  (∀ s, run_inv cf p s → has_prec (prec cf) v = true) →
  preserves (keeps (run_inv cf p)) (heap_set a v).
Proof.
  intros Hv s HJ. specialize (Hv s HJ). destruct HJ as (Hs & Hb & Hi & Hq & Ht).
  assert (Hupd : ∀ arr, array_has_prec (prec cf) (heap s) arr →
                        array_has_prec (prec cf) (upd (heap s) a v) arr).
  { intros arr Harr x Hx. unfold upd. case_bool_decide; [done | by apply Harr]. }
  split; [done |]. split; [done |]. split; [by apply Hupd |].
  split; [intros q Hq'; by apply Hupd, Hq | intros t Ht'; by apply Hupd, Ht].
Qed.

Lemma run_inv_buf_set b i v :
  (∀ s, run_inv cf p s → has_prec (prec cf) v = true) →
  preserves (keeps (run_inv cf p)) (buf_set b i v).
Proof.
  intros Hv s HJ. specialize (Hv s HJ). destruct HJ as (Hs & Hb & Hi & Hq & Ht).
  split; [| split; [| done]].
  - apply (scratch_sized_same_lengths cf s); [apply buf_set_same_lengths | done].
  - intros b'. simpl. rewrite get_put_buf. case_decide; [| done].
    subst. by apply vec_set_Forall.
Qed.

Lemma run_inv_log e : preserves (keeps (run_inv cf p)) (log e).
Proof. by intros s HJ. Qed.

(** An element of a checked array goes into a scratch vector. *)
Lemma run_inv_copy_in b a i :
  (∀ s, run_inv cf p s → has_prec (prec cf) (heap s a) = true) →
  preserves (keeps (run_inv cf p)) (v <- heap_get a;; buf_set b i v).
Proof.
  intros Ha s HJ. unfold bind, heap_get. simpl.
  apply (run_inv_buf_set b i (heap s a) (λ _ _, Ha s HJ) s HJ).
Qed.

(** A slot of a sized scratch vector. *)
Lemma run_inv_vec_get b i s (n : Z) :
  run_inv cf p s → length (get_buf b (scr s)) = Z.to_nat n → 0 ≤ i < n →
  has_prec (prec cf) (vec_get (get_buf b (scr s)) i) = true.
Proof.
  intros (Hs & Hb & _) Hl Hi.
  apply (vec_get_Forall (λ c, has_prec (prec cf) c = true)); [apply Hb | lia | lia].
Qed.

(** A slot of [buf_out] goes into the array of outputs. *)
Lemma run_inv_copy_out a i :
  0 ≤ i < nouts cf * simd_size cf →
  preserves (keeps (run_inv cf p)) (v <- buf_get BufOut i;; heap_set a v).
Proof.
  intros Hi s HJ. unfold bind, buf_get. cbn [fst snd].
  apply (run_inv_heap_set a _ (λ _ _, run_inv_vec_get BufOut i s _ HJ
           (proj1 (proj2 (proj1 HJ))) Hi) s HJ).
Qed.

Lemma run_inv_store_list b idxs vals s :
  Forall (λ c, has_prec (prec cf) c = true) vals →
  run_inv cf p s → run_inv cf p (store_list (Some (LBuf b 0)) idxs vals s).
Proof.
  revert vals s. induction idxs as [|i idxs IH]; intros [|v vals] s Hv HJ; simpl; try done.
  apply Forall_cons in Hv as [Hv Hvals]. apply IH; [done |].
  exact (run_inv_buf_set b i v (λ _ _, Hv) s HJ).
Qed.

Lemma run_inv_store_lanes st lanes s :
  Forall (λ jv : Z * list cell, Forall (λ c, has_prec (prec cf) c = true) jv.2) lanes →
  run_inv cf p s →
  run_inv cf p (foldl (store_lane cf (buf_ptr BufOut) st) s lanes).
Proof.
  revert s. induction lanes as [|jv lanes IH]; intros s Hl HJ; simpl; [done |].
  apply Forall_cons in Hl as [Hjv Hl]. apply IH; [done |].
  by apply run_inv_store_list.
Qed.

(** A kernel run on the scratch vectors, reading within them. *)
Lemma run_inv_kernel w st :
  is_real (elt_type cf) = true → kernel_keeps_prec cf →
  (∀ i j, 0 ≤ i < nvars cf → 0 ≤ j < w →
     0 ≤ i * st + j < nvars cf * simd_size cf) →
  (∀ i j, 0 ≤ i < nparams cf → 0 ≤ j < w →
     0 ≤ i * st + j < nparams cf * simd_size cf) →
  w ≤ simd_size cf →
  preserves (keeps (run_inv cf p))
    (kernel cf w st (buf_ptr BufOut) (buf_ptr BufIn) (buf_ptr BufPars)
       (buf_ptr BufTime)).
Proof.
  intros Hr Hk Hin Hpar Hw s HJ. unfold kernel. simpl.
  apply run_inv_store_lanes; [| done].
  apply Forall_fmap, Forall_seqZ. intros j Hj. simpl. unfold lane_result.
  destruct HJ as ((L1 & L2 & L3 & L4) & Hb & _).
  match goal with
  | |- Forall _ (resize _ _ (kernel_fn cf ?ins ?pars ?tm)) =>
      destruct (Hk Hr ins pars tm) as [Hlen Hgood]
  end.
  - apply Forall_fmap, Forall_seqZ. intros i Hi. simpl.
    apply (vec_get_Forall (λ c, has_prec (prec cf) c = true)); [apply (Hb BufIn) | |].
    + specialize (Hin i j). lia.
    + simpl. rewrite L1. specialize (Hin i j). lia.
  - apply Forall_fmap, Forall_seqZ. intros i Hi. simpl.
    apply (vec_get_Forall (λ c, has_prec (prec cf) c = true)); [apply (Hb BufPars) | |].
    + specialize (Hpar i j). lia.
    + simpl. rewrite L3. specialize (Hpar i j). lia.
  - intros c Hc. destruct (is_time_dependent cf); [| done]. injection Hc as <-.
    apply (vec_get_Forall (λ c, has_prec (prec cf) c = true)); [apply (Hb BufTime) | |].
    + lia.
    + simpl. rewrite L4. lia.
  - by rewrite resize_all_alt.
Qed.

End RunInv.

Lemma mul_quot_le a b : 0 ≤ a → 0 ≤ b → (a ÷ b) * b ≤ a.
Proof.
  intros Ha Hb. destruct (decide (b = 0)) as [->|Hne]; [lia |].
  assert (b * (a ÷ b) ≤ a) by (apply Z.mul_quot_le; lia). lia.
Qed.

(** A buffered evaluation for [mppp::real] keeps its invariant. *)
Lemma run_buffered_inv cf p :
  is_real (elt_type cf) = true → kernel_keeps_prec cf → cfunc_wf cf →
  1 ≤ simd_size cf → validated cf p →
  (p_multi_eval p = true → 0 ≤ shape_at (p_inputs p) 1) →
  p_zero_copy p = false →
  preserves (keeps (run_inv cf p)) (run cf p).
Proof.
  intros Hr Hk (Wv & Wo & Wp & Ww) HW Hv HN Hz.
  set (J := keeps (run_inv cf p)).
  set (W := simd_size cf) in *. set (N := shape_at (p_inputs p) 1) in *.
  assert (Cin : ∀ x, x ∈ addresses (p_inputs p) →
            ∀ s, run_inv cf p s → has_prec (prec cf) (heap s x) = true).
  { intros x Hx s (_ & _ & Hi & _). by apply Hi. }
  assert (Cpar : ∀ q x, p_pars p = Some q → x ∈ addresses q →
            ∀ s, run_inv cf p s → has_prec (prec cf) (heap s x) = true).
  { intros q x Hq Hx s (_ & _ & _ & Hp & _). by apply (Hp q). }
  assert (Ctime : ∀ t x, p_time p = Some t → x ∈ addresses t →
            ∀ s, run_inv cf p s → has_prec (prec cf) (heap s x) = true).
  { intros t x Ht Hx s (_ & _ & _ & _ & Hp). by apply (Hp t). }
  assert (Kscal : preserves J
            (fptr_scal cf (buf_ptr BufOut) (buf_ptr BufIn) (buf_ptr BufPars)
               (buf_ptr BufTime))).
  { unfold fptr_scal. apply (preserves_bind J); [apply run_inv_log | intros _].
    apply run_inv_kernel; try done; intros; subst W; nia. }
  assert (Kbatch : preserves J
            (fptr_batch cf (buf_ptr BufOut) (buf_ptr BufIn) (buf_ptr BufPars)
               (buf_ptr BufTime))).
  { unfold fptr_batch. apply (preserves_bind J); [apply run_inv_log | intros _].
    apply run_inv_kernel; try done; intros; subst W; nia. }
  unfold run. rewrite Hz. destruct (p_multi_eval p) eqn:Hm.
  - (* batch *)
    specialize (HN eq_refl).
    assert (Hnd : ndim (p_inputs p) = 2).
    { rewrite (v_multi _ _ Hv) in Hm. by apply bool_decide_eq_true in Hm. }
    assert (Hq := quot_nonneg _ _ HN (ltac:(lia) : 0 ≤ W)).
    assert (Hql := mul_quot_le _ _ HN (ltac:(lia) : 0 ≤ W)).
    assert (Ain : ∀ i c, 0 ≤ i < nvars cf → 0 ≤ c < N →
              addr2 (p_inputs p) i c ∈ addresses (p_inputs p)).
    { intros i c Hi Hc. apply addr2_in_addresses; [done | |].
      - by rewrite (v_nvars _ _ Hv).
      - done. }
    assert (Apar : ∀ q i c, p_pars p = Some q → 0 ≤ i < nparams cf → 0 ≤ c < N →
              addr2 q i c ∈ addresses q).
    { intros q i c Hq' Hi Hc. destruct (v_pars _ _ Hv q Hq') as (Hd & H0 & H1).
      apply addr2_in_addresses; [by rewrite Hd | by rewrite H0 | by rewrite H1]. }
    assert (Atime : ∀ t c, p_time p = Some t → 0 ≤ c < N → addr1 t c ∈ addresses t).
    { intros t c Ht Hc. destruct (v_time _ _ Hv t Ht) as (Hd & H0 & _).
      apply addr1_in_addresses; [done | by rewrite H0]. }
    assert (Hon : 0 ≤ nouts cf * W) by nia.
    unfold run_multi_buffered. fold W N.
    apply (preserves_bind J); [| intros _];
      apply (preserves_for_each_in J); intros k Hk'%elem_of_seqZ.
    + apply (preserves_bind J); [| intros _].
      { unfold gather_block.
        apply (preserves_for_each_in J); intros i Hi%elem_of_seqZ.
        apply (preserves_for_each_in J); intros j Hj%elem_of_seqZ.
        apply run_inv_copy_in, Cin, Ain; nia. }
      apply (preserves_bind J); [| intros _].
      { apply (preserves_when_some_eq J). intros q Hq'. unfold gather_block.
        apply (preserves_for_each_in J); intros i Hi%elem_of_seqZ.
        apply (preserves_for_each_in J); intros j Hj%elem_of_seqZ.
        apply run_inv_copy_in, (Cpar q), Apar; try done; nia. }
      apply (preserves_bind J); [| intros _].
      { apply (preserves_when_some_eq J). intros t Ht'. unfold gather_time_block.
        apply (preserves_for_each_in J); intros j Hj%elem_of_seqZ.
        apply run_inv_copy_in, (Ctime t), Atime; try done; nia. }
      apply (preserves_bind J); [done | intros _].
      unfold scatter_block.
      apply (preserves_for_each_in J); intros i Hi%elem_of_seqZ.
      apply (preserves_for_each_in J); intros j Hj%elem_of_seqZ.
      apply run_inv_copy_out. fold W. nia.
    + apply (preserves_bind J); [| intros _].
      { unfold gather_point.
        apply (preserves_for_each_in J); intros i Hi%elem_of_seqZ.
        apply run_inv_copy_in, Cin, Ain; nia. }
      apply (preserves_bind J); [| intros _].
      { apply (preserves_when_some_eq J). intros q Hq'. unfold gather_point.
        apply (preserves_for_each_in J); intros i Hi%elem_of_seqZ.
        apply run_inv_copy_in, (Cpar q), Apar; try done; nia. }
      apply (preserves_bind J); [| intros _].
      { apply (preserves_when_some_eq J). intros t Ht'. unfold gather_time_point.
        apply run_inv_copy_in, (Ctime t), Atime; try done; nia. }
      apply (preserves_bind J); [done | intros _].
      unfold scatter_point.
      apply (preserves_for_each_in J); intros i Hi%elem_of_seqZ.
      apply run_inv_copy_out. fold W. nia.
  - (* single evaluation *)
    assert (Hnd : ndim (p_inputs p) = 1).
    { rewrite (v_multi _ _ Hv) in Hm. apply bool_decide_eq_false in Hm.
      by destruct (v_ndim _ _ Hv). }
    unfold run_single_buffered.
    apply (preserves_bind J); [| intros _].
    { unfold gather1. apply (preserves_for_each_in J); intros i Hi%elem_of_seqZ.
      apply run_inv_copy_in, Cin, addr1_in_addresses; [done |].
      rewrite (v_nvars _ _ Hv). lia. }
    apply (preserves_bind J); [| intros _].
    { apply (preserves_when_some_eq J). intros q Hq'. unfold gather1.
      apply (preserves_for_each_in J); intros i Hi%elem_of_seqZ.
      destruct (v_pars _ _ Hv q Hq') as (Hd & H0 & _).
      apply run_inv_copy_in, (Cpar q), addr1_in_addresses; try done.
      - by rewrite Hd.
      - rewrite H0. lia. }
    apply (preserves_bind J); [| intros _].
    { apply (preserves_when_some_eq J). intros t Ht'. unfold gather_time_point.
      destruct (v_time _ _ Hv t Ht') as (Hd & _ & (d & Ht)); [done |].
      apply run_inv_copy_in, (Ctime t), addr1_in_addresses; try done.
      rewrite Ht. unfold shape_at. simpl. lia. }
    apply (preserves_bind J); [done | intros _].
    unfold scatter1. apply (preserves_for_each_in J); intros i Hi%elem_of_seqZ.
    apply run_inv_copy_out. fold W. nia.
Qed.

(** *** The zero-copy paths leave the scratch vectors alone *)

Lemma store_heap_same_scr p i v s :
  (∀ b o, p ≠ Some (LBuf b o)) → scr (store p i v s) = scr s.
Proof. intros Hp. destruct p as [[a|b o]|]; simpl; try done. by destruct (Hp b o). Qed.

Lemma store_list_heap_same_scr p idxs vals s :
  (∀ b o, p ≠ Some (LBuf b o)) → scr (store_list p idxs vals s) = scr s.
Proof.
  intros Hp. revert vals s.
  induction idxs as [|i idxs IH]; intros [|v vals] s; simpl; try done.
  by rewrite IH, store_heap_same_scr.
Qed.

Lemma kernel_heap_same_scr cf w st po pi pp pt :
  (∀ b o, po ≠ Some (LBuf b o)) →
  preserves same_scr (kernel cf w st po pi pp pt).
Proof.
  intros Hp s. unfold kernel. simpl.
  generalize ((λ j, (j, lane_result cf s pi pp pt st j)) <$> seqZ 0 w). intros lanes.
  unfold same_scr. revert s. induction lanes as [|jv lanes IH]; intros s; simpl; [done |].
  rewrite IH. by apply store_list_heap_same_scr.
Qed.

Lemma ptr_add_not_buf a off b o : ptr_add (data_ptr a) off ≠ Some (LBuf b o).
Proof. unfold data_ptr. by destruct (nd_data a). Qed.

Lemma data_ptr_not_buf a b o : data_ptr a ≠ Some (LBuf b o).
Proof. unfold data_ptr. by destruct (nd_data a). Qed.

Lemma strided_step_same_scr cf (fptr : cfunc → ptr → ptr → ptr → ptr → Z → M unit)
    kid w base off stride in_data par_data time_data :
  (∀ po pi pp pt s, fptr cf po pi pp pt stride s
     = (kernel cf w stride po pi pp pt)
         {| heap := heap s; brk := brk s; scr := scr s;
            trace := trace s ++ [EvKernel {| k_fptr := kid;
                 k_out := po; k_in := pi; k_par := pp; k_time := pt;
                 k_stride := Some stride |}] |}) →
  (∀ b o, ptr_add base off ≠ Some (LBuf b o)) →
  preserves same_scr
    (po <- padd ROut base off;;
     pi <- padd_if (0 <? nvars cf) RIn in_data off;;
     pp <- padd_if (0 <? nparams cf) RPar par_data off;;
     pt <- padd_if (is_time_dependent cf) RTime time_data off;;
     fptr cf po pi pp pt stride).
Proof.
  intros Hf Hb s.
  assert (Hk : ∀ pi pp pt,
    preserves same_scr (kernel cf w stride (ptr_add base off) pi pp pt)).
  { intros pi pp pt. by apply kernel_heap_same_scr. }
  unfold bind, padd, padd_if, bind, log, ret. simpl.
  destruct (0 <? nvars cf), (0 <? nparams cf), (is_time_dependent cf); simpl;
    rewrite Hf;
    (match goal with
     | |- same_scr _ (kernel _ _ _ _ ?pi ?pp ?pt ?s').2 => apply (Hk pi pp pt s')
     end).
Qed.

Lemma run_zero_copy_same_scr cf p :
  p_zero_copy p = true → preserves same_scr (run cf p).
Proof.
  intros Hz. unfold run. rewrite Hz. destruct (p_multi_eval p).
  - unfold run_multi_zero_copy.
    apply (preserves_bind same_scr); [| intros _];
      apply (preserves_for_each same_scr); intros k.
    + apply (strided_step_same_scr cf fptr_batch_s FptrBatchS (simd_size cf)); [done |].
      intros b o. apply ptr_add_not_buf.
    + apply (strided_step_same_scr cf fptr_scal_s FptrScalS 1); [done |].
      intros b o. apply ptr_add_not_buf.
  - unfold run_single_zero_copy, fptr_scal.
    apply (preserves_bind same_scr); [by intros s | intros _].
    apply kernel_heap_same_scr, data_ptr_not_buf.
Qed.

Lemma shape_at_nonneg a k : array_wf a → 0 ≤ shape_at a k.
Proof.
  unfold array_wf, shape_at. intros Hwf.
  destruct (decide (k < length (nd_shape a))%nat) as [Hk|Hk].
  - destruct (lookup_lt_is_Some_2 _ _ Hk) as [n Hn].
    rewrite (nth_lookup_Some _ _ _ _ Hn). by eapply (Forall_lookup_1 _ _ _ _ Hwf).
  - rewrite nth_overflow by lia. done.
Qed.

(** What a call does to the scratch vectors of a sound evaluator. *)
Lemma call_scratch_ok cf i oo po to s :
  cfunc_wf cf → 1 ≤ simd_size cf → kernel_keeps_prec cf → array_wf i →
  scratch_ok cf (scr s) → scratch_ok cf (scr (call cf i oo po to s).2).
Proof.
  intros Hwf HW Hk Hi [Hsz Hpr]. split.
  - by apply (scratch_sized_same_lengths cf s), Hsz; [apply call_same_lengths].
  - intros Hr. destruct (prepare cf i oo po to s).1 as [p|e] eqn:Hp.
    + destruct (prepare_ok _ _ _ _ _ _ _ Hp) as (_ & Hv & Hsh & _ & Hprec).
      destruct (Hprec Hr) as (Pi & _ & Pq & Pt).
      assert (Hscr := prepare_same_scr cf i oo po to s). unfold same_scr in Hscr.
      rewrite (call_after_prepare _ _ _ _ _ _ _ Hp).
      set (s1 := (prepare cf i oo po to s).2) in *.
      assert (Hst : ((run cf p;; ret (p_outputs p)) s1).2 = (run cf p s1).2).
      { unfold bind. by destruct (run cf p s1) as [[[]|e] s2]. }
      rewrite Hst. destruct (p_zero_copy p) eqn:Hz.
      * rewrite (run_zero_copy_same_scr cf p Hz s1), Hscr. by apply Hpr.
      * assert (HJ : run_inv cf p s1).
        { unfold run_inv. rewrite Hscr. split; [done |]. split; [by apply Hpr | done]. }
        apply (run_buffered_inv cf p) in HJ; try done.
        -- destruct HJ as (_ & Hb & _). exact Hb.
        -- intros _. apply shape_at_nonneg. unfold array_wf. by rewrite Hsh.
    + rewrite (call_prepare_raise _ _ _ _ _ _ _ Hp). simpl.
      rewrite (prepare_same_scr cf i oo po to s). by apply Hpr.
Qed.

(** *** The single evaluation, step by step *)

(** A counted loop: [I k] holds before iteration [k] and [I n] in the end. *)
Lemma wp_for_range (I : Z → state → Prop) m n body s :
  0 ≤ n → I m s →
  (∀ k s', m ≤ k < m + n → I k s' →
     wp (body k) (λ r s'', r = Ok tt ∧ I (k + 1) s'') s') →
  wp (for_each (seqZ m n) body) (λ r s', r = Ok tt ∧ I (m + n) s') s.
Proof.
  intros Hn. revert m s. pattern n. apply natlike_ind; [| | exact Hn]; clear n Hn.
  - intros m s Hs _. rewrite seqZ_nil by lia. apply wp_ret.
    by rewrite Z.add_0_r.
  - intros n Hn IH m s Hs Hbody. rewrite seqZ_cons by lia. simpl.
    apply wp_bind. eapply wp_mono; [apply (Hbody m); [lia | done] |].
    intros r s' [-> Hs']. replace (Z.pred (Z.succ n)) with n by lia.
    replace (m + Z.succ n) with (Z.succ m + n) by lia.
    apply IH; [by replace (Z.succ m) with (m + 1) by lia |].
    intros k s'' Hk. apply Hbody. lia.
Qed.

(** The elements of a one-dimensional array, by index. *)
Lemma offsets_1d n st : offsets [n] st = (λ i, i * hd 0 st + 0) <$> seqZ 0 n.
Proof.
  cbn [offsets]. induction (seqZ 0 n) as [|i l IH]; [done |].
  cbn. by f_equal.
Qed.

Lemma contents_1d h a n :
  nd_shape a = [n] → contents h a = (λ i, h (addr1 a i)) <$> seqZ 0 n.
Proof.
  intros Hs. unfold contents, addresses. rewrite Hs, offsets_1d.
  rewrite <- !list_fmap_compose. apply list_fmap_ext. intros _ i _. simpl.
  f_equal. unfold addr1, stride_at. destruct (nd_strides a); simpl; lia.
Qed.

Lemma vec_get_set_eq l i v :
  0 ≤ i → (Z.to_nat i < length l)%nat → vec_get (vec_set l i v) i = v.
Proof.
  intros Hi Hl. unfold vec_get, vec_set. rewrite !bool_decide_true by done.
  apply list_lookup_total_correct. by apply list_lookup_insert_eq.
Qed.

Lemma vec_get_set_ne l i j v : i ≠ j → vec_get (vec_set l j v) i = vec_get l i.
Proof.
  intros Hne. unfold vec_get, vec_set.
  case_bool_decide as Hi; [| done]. case_bool_decide as Hj; [| done].
  rewrite !list_lookup_total_alt. rewrite list_lookup_insert_ne by lia. done.
Qed.

(** Writing a list of values through a heap pointer, and reading it back. *)
Lemma store_list_heap_other d idxs vals s x :
  x ∉ ((λ i, d + i) <$> idxs) →
  heap (store_list (Some (LHeap d)) idxs vals s) x = heap s x.
Proof.
  revert vals s. induction idxs as [|i idxs IH]; intros [|v vals] s Hx; simpl; try done.
  rewrite fmap_cons in Hx. apply not_elem_of_cons in Hx as [Hne Hx].
  rewrite IH by done. simpl. by apply upd_ne.
Qed.

Lemma store_list_heap_read d idxs vals s :
  NoDup idxs → length vals = length idxs →
  (λ i, heap (store_list (Some (LHeap d)) idxs vals s) (d + i)) <$> idxs = vals.
Proof.
  revert vals s. induction idxs as [|i idxs IH]; intros [|v vals] s Hnd Hl; simpl in *;
    try done.
  apply NoDup_cons in Hnd as [Hi Hnd]. f_equal.
  - rewrite store_list_heap_other.
    + simpl. apply upd_eq.
    + intros (j & Hj & Hin)%list_elem_of_fmap. assert (i = j) by lia. by subst.
  - apply IH; [done | lia].
Qed.

Lemma store_list_heap_scr d idxs vals s :
  scr (store_list (Some (LHeap d)) idxs vals s) = scr s.
Proof. by apply store_list_heap_same_scr. Qed.

(** The same through a pointer to a scratch vector. *)
Lemma store_list_buf_heap b idxs vals s :
  heap (store_list (Some (LBuf b 0)) idxs vals s) = heap s.
Proof.
  revert vals s. induction idxs as [|i idxs IH]; intros [|v vals] s; simpl; try done.
  by rewrite IH.
Qed.

Lemma store_list_buf_others b b' idxs vals s :
  b' ≠ b →
  get_buf b' (scr (store_list (Some (LBuf b 0)) idxs vals s)) = get_buf b' (scr s).
Proof.
  intros Hne. revert vals s.
  induction idxs as [|i idxs IH]; intros [|v vals] s; simpl; try done.
  rewrite IH. simpl. rewrite get_put_buf. by case_decide.
Qed.

Lemma store_list_buf_other b idxs vals s i :
  i ∉ idxs →
  vec_get (get_buf b (scr (store_list (Some (LBuf b 0)) idxs vals s))) i
  = vec_get (get_buf b (scr s)) i.
Proof.
  revert vals s. induction idxs as [|j idxs IH]; intros [|v vals] s Hi; simpl; try done.
  apply not_elem_of_cons in Hi as [Hne Hi]. rewrite IH by done. simpl.
  rewrite get_put_buf. rewrite decide_True by done. by apply vec_get_set_ne.
Qed.

Lemma store_list_buf_read b idxs vals s :
  NoDup idxs → length vals = length idxs →
  Forall (λ i, 0 ≤ i ∧ (Z.to_nat i < length (get_buf b (scr s)))%nat) idxs →
  (λ i, vec_get (get_buf b (scr (store_list (Some (LBuf b 0)) idxs vals s))) i)
    <$> idxs = vals.
Proof.
  revert vals s. induction idxs as [|i idxs IH]; intros [|v vals] s Hnd Hl Hr;
    simpl in *; try done.
  apply NoDup_cons in Hnd as [Hi Hnd]. apply Forall_cons in Hr as [[Hi0 Hil] Hr].
  f_equal.
  - rewrite store_list_buf_other by done. simpl. rewrite get_put_buf.
    rewrite decide_True by done. by apply vec_get_set_eq.
  - apply IH; [done | lia |]. eapply Forall_impl; [exact Hr |].
    intros j [Hj0 Hjl]. split; [done |]. simpl. rewrite get_put_buf.
    rewrite decide_True by done. by rewrite length_vec_set.
Qed.

(** Gathering a one-dimensional array. *)
Lemma gather1_wp b a n s :
  0 ≤ n → (Z.to_nat n ≤ length (get_buf b (scr s)))%nat →
  wp (gather1 b a n)
     (λ r s', r = Ok tt ∧ heap s' = heap s ∧
        (∀ b', b' ≠ b → get_buf b' (scr s') = get_buf b' (scr s)) ∧
        length (get_buf b (scr s')) = length (get_buf b (scr s)) ∧
        (∀ i, 0 ≤ i < n → vec_get (get_buf b (scr s')) i = heap s (addr1 a i))) s.
Proof.
  intros Hn Hl. unfold gather1.
  eapply wp_mono;
    [apply (wp_for_range (λ k s', heap s' = heap s ∧
        (∀ b', b' ≠ b → get_buf b' (scr s') = get_buf b' (scr s)) ∧
        length (get_buf b (scr s')) = length (get_buf b (scr s)) ∧
        (∀ i, 0 ≤ i < k → vec_get (get_buf b (scr s')) i = heap s (addr1 a i))))
    | by intros r s' [-> ?]].
  - done.
  - repeat split; try done. intros; lia.
  - intros k s' Hk (Hh & Ho & Hlen & Hv). unfold wp, bind, heap_get, buf_set, bind.
    simpl. split; [done |]. split; [done |]. split; [| split].
    + intros b' Hb'. rewrite get_put_buf. rewrite decide_False by done. by apply Ho.
    + rewrite get_put_buf, decide_True by done. by rewrite length_vec_set.
    + intros i Hi. rewrite get_put_buf, decide_True by done.
      destruct (decide (i = k)) as [->|Hne].
      * rewrite vec_get_set_eq by lia. by rewrite Hh.
      * rewrite vec_get_set_ne by done. apply Hv. lia.
Qed.

(** Scattering into a one-dimensional array whose elements do not overlap. *)
Lemma scatter1_wp a n s :
  0 ≤ n →
  (∀ i j, 0 ≤ i < n → 0 ≤ j < n → addr1 a i = addr1 a j → i = j) →
  wp (scatter1 a n)
     (λ r s', r = Ok tt ∧ scr s' = scr s ∧
        (∀ i, 0 ≤ i < n → heap s' (addr1 a i) = vec_get (buf_out (scr s)) i)) s.
Proof.
  intros Hn Hinj. unfold scatter1.
  eapply wp_mono;
    [apply (wp_for_range (λ k s', scr s' = scr s ∧
        (∀ i, 0 ≤ i < k → heap s' (addr1 a i) = vec_get (buf_out (scr s)) i)))
    | by intros r s' [-> ?]].
  - done.
  - split; [done |]. intros; lia.
  - intros k s' Hk (Hs & Hv). unfold wp, bind, buf_get, heap_set, bind. simpl.
    split; [done |]. split; [done |]. intros i Hi.
    destruct (decide (i = k)) as [->|Hne].
    + rewrite upd_eq. by rewrite Hs.
    + rewrite upd_ne; [apply Hv; lia |]. intros Heq. apply Hne, Hinj; [lia | lia | done].
Qed.

Lemma lane_result_point cf s pi pp pt st j :
  lane_result cf s pi pp pt st j
  = point_result cf ((λ i, load s pi (i * st + j)) <$> seqZ 0 (nvars cf))
      ((λ i, load s pp (i * st + j)) <$> seqZ 0 (nparams cf)) (load s pt j).
Proof. done. Qed.

Lemma point_result_time cf ins pars t t' :
  is_time_dependent cf = false →
  point_result cf ins pars t = point_result cf ins pars t'.
Proof. unfold point_result. by intros ->. Qed.

Lemma length_point_result cf ins pars t :
  length (point_result cf ins pars t) = Z.to_nat (nouts cf).
Proof. apply length_resize. Qed.

Lemma NoDup_unit_stride n : NoDup ((λ i, i * 1 + 0) <$> seqZ 0 n).
Proof. apply NoDup_fmap_2; [intros i j; lia | apply NoDup_seqZ]. Qed.

(** A contiguous one-dimensional array with a data pointer. *)
Lemma contiguous_1d a n :
  nd_shape a = [n] → is_npy_array_carray a = true → backed a →
  ∃ d, data_ptr a = Some (LHeap d) ∧ ∀ i, addr1 a i = d + (i * 1 + 0).
Proof.
  intros Hs Hc [d Hd]. apply is_npy_array_carray_contiguous in Hc.
  apply bool_decide_eq_true in Hc. rewrite Hs in Hc. simpl in Hc.
  exists d. split; [unfold data_ptr; by rewrite Hd |].
  intros i. unfold addr1, base_addr, stride_at. rewrite Hd, Hc. simpl. lia.
Qed.

Lemma supplied_inputs p : p_inputs p ∈ supplied p.
Proof. unfold supplied. by left. Qed.

Lemma supplied_outputs p : p_outputs p ∈ supplied p.
Proof. unfold supplied. right. by left. Qed.

Lemma supplied_pars p q : p_pars p = Some q → q ∈ supplied p.
Proof.
  intros Hq. unfold supplied. rewrite Hq. do 2 right. apply elem_of_app. left.
  simpl. by left.
Qed.

Lemma supplied_time p t : p_time p = Some t → t ∈ supplied p.
Proof.
  intros Ht. unfold supplied. rewrite Ht. do 2 right. apply elem_of_app. right.
  simpl. by left.
Qed.

(** The scalar kernel, writing through a heap pointer. *)
Lemma kernel_scal_heap cf d pi pp pt s :
  (λ i, heap (kernel cf 1 1 (Some (LHeap d)) pi pp pt s).2 (d + (i * 1 + 0)))
    <$> seqZ 0 (nouts cf)
  = lane_result cf s pi pp pt 1 0.
Proof.
  unfold kernel. change (seqZ 0 1) with [0]. cbn [fmap list_fmap foldl snd].
  unfold store_lane. cbn [fst snd].
  assert (Hr := store_list_heap_read d ((λ i, i * 1 + 0) <$> seqZ 0 (nouts cf))
                  (lane_result cf s pi pp pt 1 0) s).
  rewrite <- list_fmap_compose in Hr. apply Hr; [apply NoDup_unit_stride |].
  by rewrite lane_result_point, length_point_result, length_fmap, length_seqZ.
Qed.

(** The scalar kernel, writing into [buf_out]. *)
Lemma kernel_scal_buf cf pi pp pt s :
  0 ≤ nouts cf → (Z.to_nat (nouts cf) ≤ length (buf_out (scr s)))%nat →
  (λ i, vec_get (buf_out (scr (kernel cf 1 1 (buf_ptr BufOut) pi pp pt s).2)) i)
    <$> seqZ 0 (nouts cf)
  = lane_result cf s pi pp pt 1 0 ∧
  heap (kernel cf 1 1 (buf_ptr BufOut) pi pp pt s).2 = heap s.
Proof.
  intros Hn Hl. unfold kernel. change (seqZ 0 1) with [0].
  cbn [fmap list_fmap foldl snd]. unfold store_lane, buf_ptr. cbn [fst snd]. split.
  - assert (Hr := store_list_buf_read BufOut ((λ i, i * 1 + 0) <$> seqZ 0 (nouts cf))
                    (lane_result cf s pi pp pt 1 0) s).
    rewrite <- list_fmap_compose in Hr. simpl in Hr.
    etrans; [| apply Hr].
    + apply list_fmap_ext. intros _ i _. simpl. f_equal. lia.
    + apply NoDup_unit_stride.
    + by rewrite lane_result_point, length_point_result, length_fmap, length_seqZ.
    + apply Forall_fmap, Forall_seqZ. intros i Hi. simpl. lia.
  - apply store_list_buf_heap.
Qed.

(** The single evaluation on the zero-copy path: the array of outputs ends
    up holding the outputs of the function at the values of the arrays. *)
Lemma run_single_zero_copy_result cf p s :
  validated cf p → cfunc_wf cf →
  p_multi_eval p = false → p_zero_copy p = true →
  Forall backed (supplied p) →
  contents (heap (run cf p s).2) (p_outputs p)
  = point_result cf (contents (heap s) (p_inputs p)) (pars_values (heap s) p)
      (time_value (heap s) p).
Proof.
  intros Hv (Wv & Wo & Wp & Ww) Hm Hz Hb.
  assert (Hnd : ndim (p_inputs p) = 1).
  { rewrite (v_multi _ _ Hv) in Hm. apply bool_decide_eq_false in Hm.
    by destruct (v_ndim _ _ Hv). }
  assert (Hc : Forall (λ a, is_npy_array_carray a = true) (supplied p)).
  { rewrite (v_zero_copy _ _ Hv) in Hz. by apply zero_copy_of_true in Hz as [Hc _]. }
  rewrite Forall_forall in Hc, Hb.
  destruct (ndim_1_shape _ Hnd) as (ni & Hsi & Hi0).
  rewrite (v_nvars _ _ Hv) in Hi0. subst ni.
  assert (Hndo : ndim (p_outputs p) = 1) by (by rewrite (v_out_ndim _ _ Hv)).
  destruct (ndim_1_shape _ Hndo) as (no & Hso & Ho0).
  rewrite (v_nouts _ _ Hv) in Ho0. subst no.
  destruct (contiguous_1d _ _ Hsi (Hc _ (supplied_inputs p)) (Hb _ (supplied_inputs p)))
    as (di & Hdi & Hai).
  destruct (contiguous_1d _ _ Hso (Hc _ (supplied_outputs p))
              (Hb _ (supplied_outputs p))) as (do & Hdo & Hao).
  unfold run. rewrite Hm, Hz. unfold run_single_zero_copy, fptr_scal.
  match goal with
  | |- contents (heap (bind (log ?e) _ s).2) _ = _ => set (s0 := (log e s).2)
  end.
  change (contents (heap (kernel cf 1 1 (data_ptr (p_outputs p))
            (data_ptr (p_inputs p)) (from_option data_ptr None (p_pars p))
            (from_option data_ptr None (p_time p)) s0).2) (p_outputs p)
          = point_result cf (contents (heap s0) (p_inputs p))
              (pars_values (heap s0) p) (time_value (heap s0) p)).
  clearbody s0. rewrite Hdo, (contents_1d _ _ _ Hso).
  rewrite (list_fmap_ext _ (λ i, heap (kernel cf 1 1 (Some (LHeap do))
             (data_ptr (p_inputs p)) (from_option data_ptr None (p_pars p))
             (from_option data_ptr None (p_time p)) s0).2 (do + (i * 1 + 0)))
             (seqZ 0 (nouts cf))) by (by intros _ i _; rewrite Hao).
  rewrite kernel_scal_heap, lane_result_point. f_equal.
  - rewrite (contents_1d _ _ _ Hsi), Hdi. apply list_fmap_ext. intros _ i _.
    simpl. by rewrite Hai.
  - unfold pars_values. destruct (p_pars p) as [q|] eqn:Hq; simpl.
    + destruct (v_pars _ _ Hv q Hq) as (Hdq & Hq0 & _).
      assert (Hndq : ndim q = 1) by (by rewrite Hdq).
      destruct (ndim_1_shape _ Hndq) as (nq & Hsq & Hq0'). rewrite Hq0 in Hq0'.
      subst nq.
      destruct (contiguous_1d _ _ Hsq (Hc _ (supplied_pars _ _ Hq))
                  (Hb _ (supplied_pars _ _ Hq))) as (dq & Hdq' & Haq).
      rewrite (contents_1d _ _ _ Hsq), Hdq'. apply list_fmap_ext. intros _ i _.
      simpl. by rewrite Haq.
    + assert (nparams cf ≤ 0).
      { destruct (decide (0 < nparams cf)) as [Hp|]; [| lia].
        destruct (v_pars_given _ _ Hv Hp) as [q' Hq']. congruence. }
      by rewrite seqZ_nil.
  - unfold time_value. destruct (p_time p) as [t|] eqn:Ht; simpl; [| done].
    destruct (v_time _ _ Hv t Ht) as (_ & _ & Hd). destruct (Hd Hm) as (d & Hdt).
    rewrite Hdt. unfold addr1, base_addr, stride_at. simpl.
    first [done | f_equal; lia].
Qed.

Lemma addresses_1d a n :
  nd_shape a = [n] → addresses a = (λ i, addr1 a i) <$> seqZ 0 n.
Proof.
  intros Hs. unfold addresses. rewrite Hs, offsets_1d, <- list_fmap_compose.
  apply list_fmap_ext. intros _ i _. simpl.
  unfold addr1, stride_at. destruct (nd_strides a); simpl; lia.
Qed.

(** The elements of a one-dimensional array without overlap are at distinct
    addresses. *)
Lemma addr1_inj a n i j :
  nd_shape a = [n] → NoDup (addresses a) →
  0 ≤ i < n → 0 ≤ j < n → addr1 a i = addr1 a j → i = j.
Proof.
  intros Hs Hnd Hi Hj Heq. rewrite (addresses_1d _ _ Hs) in Hnd.
  assert (Hli : ((λ i, addr1 a i) <$> seqZ 0 n) !! Z.to_nat i = Some (addr1 a i)).
  { rewrite list_lookup_fmap, lookup_seqZ_lt by lia. simpl. do 2 f_equal. lia. }
  assert (Hlj : ((λ i, addr1 a i) <$> seqZ 0 n) !! Z.to_nat j = Some (addr1 a i)).
  { rewrite list_lookup_fmap, lookup_seqZ_lt by lia. simpl. rewrite Heq.
    do 2 f_equal. lia. }
  assert (Z.to_nat i = Z.to_nat j) by (eapply NoDup_lookup; eauto). lia.
Qed.

(** The single evaluation on the buffered path: the same outcome. *)
Lemma run_single_buffered_result cf p s :
  validated cf p → cfunc_wf cf → 1 ≤ simd_size cf → scratch_sized cf (scr s) →
  p_multi_eval p = false → p_zero_copy p = false →
  NoDup (addresses (p_outputs p)) →
  contents (heap (run cf p s).2) (p_outputs p)
  = point_result cf (contents (heap s) (p_inputs p)) (pars_values (heap s) p)
      (time_value (heap s) p).
Proof.
  intros Hv (Wv & Wo & Wp & Ww) HW (L1 & L2 & L3 & L4) Hm Hz Hnodup.
  assert (Hnd : ndim (p_inputs p) = 1).
  { rewrite (v_multi _ _ Hv) in Hm. apply bool_decide_eq_false in Hm.
    by destruct (v_ndim _ _ Hv). }
  destruct (ndim_1_shape _ Hnd) as (ni & Hsi & Hi0).
  rewrite (v_nvars _ _ Hv) in Hi0. subst ni.
  assert (Hndo : ndim (p_outputs p) = 1) by (by rewrite (v_out_ndim _ _ Hv)).
  destruct (ndim_1_shape _ Hndo) as (no & Hso & Ho0).
  rewrite (v_nouts _ _ Hv) in Ho0. subst no.
  unfold run. rewrite Hm, Hz. unfold run_single_buffered.
  (* inputs *)
  unfold bind at 1.
  destruct (gather1 BufIn (p_inputs p) (nvars cf) s) as [r1 s1] eqn:E1.
  destruct (wp_inv _ _ _ _ _ (gather1_wp BufIn (p_inputs p) (nvars cf) s
              ltac:(lia) ltac:(simpl; rewrite L1; nia)) E1)
    as (-> & Hh1 & Ho1 & Hl1 & Hv1).
  assert (Hlen1 : ∀ b, length (get_buf b (scr s1)) = length (get_buf b (scr s))).
  { intros b. destruct (decide (b = BufIn)) as [->|Hb]; [done | by rewrite Ho1]. }
  (* parameters *)
  unfold bind at 1.
  destruct (when_some (p_pars p) (λ pars, gather1 BufPars pars (nparams cf)) s1)
    as [r2 s2] eqn:E2.
  assert (H2 : r2 = Ok tt ∧ heap s2 = heap s ∧
            get_buf BufIn (scr s2) = get_buf BufIn (scr s1) ∧
            (∀ b, length (get_buf b (scr s2)) = length (get_buf b (scr s))) ∧
            (λ i, vec_get (buf_pars (scr s2)) i) <$> seqZ 0 (nparams cf)
            = pars_values (heap s) p).
  { unfold pars_values. destruct (p_pars p) as [q|] eqn:Hq; simpl in E2.
    - destruct (v_pars _ _ Hv q Hq) as (Hdq & Hq0 & _).
      assert (Hndq : ndim q = 1) by (by rewrite Hdq).
      destruct (ndim_1_shape _ Hndq) as (nq & Hsq & Hq0'). rewrite Hq0 in Hq0'.
      subst nq.
      destruct (wp_inv _ _ _ _ _ (gather1_wp BufPars q (nparams cf) s1
                  ltac:(lia) ltac:(rewrite (Hlen1 BufPars); simpl; rewrite L3; nia)) E2)
        as (-> & Hh2 & Ho2 & Hl2 & Hv2).
      split; [done |]. split; [congruence |]. split; [by apply Ho2 |]. split.
      + intros b. destruct (decide (b = BufPars)) as [->|Hb].
        * by rewrite Hl2, Hlen1.
        * by rewrite Ho2, Hlen1.
      + simpl. rewrite (contents_1d _ _ _ Hsq). apply list_fmap_ext.
        intros k i Hk%lookup_seqZ. simpl. rewrite <- Hh1. apply Hv2. lia.
    - injection E2 as <- <-.
      assert (nparams cf ≤ 0).
      { destruct (decide (0 < nparams cf)) as [Hp|]; [| lia].
        destruct (v_pars_given _ _ Hv Hp) as [q' Hq']. congruence. }
      repeat split; try done. by rewrite seqZ_nil. }
  destruct H2 as (-> & Hh2 & Hin2 & Hlen2 & Hpars2).
  (* time *)
  unfold bind at 1.
  destruct (when_some (p_time p) (λ time, gather_time_point time 0) s2)
    as [r3 s3] eqn:E3.
  assert (H3 : r3 = Ok tt ∧ heap s3 = heap s ∧
            get_buf BufIn (scr s3) = get_buf BufIn (scr s2) ∧
            get_buf BufPars (scr s3) = get_buf BufPars (scr s2) ∧
            (∀ b, length (get_buf b (scr s3)) = length (get_buf b (scr s))) ∧
            (is_Some (p_time p) →
             vec_get (buf_time (scr s3)) 0 = time_value (heap s) p)).
  { unfold time_value. destruct (p_time p) as [t|] eqn:Ht; simpl in E3.
    - unfold gather_time_point, bind, heap_get, buf_set, bind in E3. simpl in E3.
      injection E3 as <- <-. simpl. repeat split; try done.
      + intros b. destruct b; simpl; rewrite ?length_vec_set;
          first [apply (Hlen2 BufIn) | apply (Hlen2 BufOut) | apply (Hlen2 BufPars)
                | apply (Hlen2 BufTime)].
      + intros _. rewrite vec_get_set_eq; [by rewrite Hh2 | lia |].
        assert (Hl := Hlen2 BufTime). simpl in Hl. rewrite Hl, L4. lia.
    - injection E3 as <- <-. repeat split; try done. }
  destruct H3 as (-> & Hh3 & Hin3 & Hpar3 & Hlen3 & Htime3).
  (* the kernel *)
  unfold bind at 1. unfold fptr_scal at 1. unfold bind at 1.
  match goal with
  | |- context [log ?e s3] => set (s3' := (log e s3).2)
  end.
  cbn [log fst snd] in s3'.
  change (log _ s3) with (Ok tt, s3'). cbn iota.
  destruct (kernel cf 1 1 (buf_ptr BufOut) (buf_ptr BufIn) (buf_ptr BufPars)
              (buf_ptr BufTime) s3') as [r4 s4] eqn:E4.
  assert (Hr4 : r4 = Ok tt) by (unfold kernel in E4; congruence).
  subst r4.
  destruct (kernel_scal_buf cf (buf_ptr BufIn) (buf_ptr BufPars) (buf_ptr BufTime) s3'
              ltac:(lia)
              ltac:(subst s3'; simpl; fold (get_buf BufOut (scr s3));
                    rewrite (Hlen3 BufOut); simpl; rewrite L2; nia))
    as [Hout4 Hh4].
  rewrite E4 in Hout4, Hh4. simpl in Hout4, Hh4.
  (* the outputs *)
  destruct (scatter1 (p_outputs p) (nouts cf) s4) as [r5 s5] eqn:E5.
  destruct (wp_inv _ _ _ _ _ (scatter1_wp (p_outputs p) (nouts cf) s4 ltac:(lia)
              (λ i j Hi Hj, addr1_inj _ _ i j Hso Hnodup Hi Hj)) E5)
    as (-> & Hs5 & Hv5).
  simpl. rewrite (contents_1d _ _ _ Hso).
  rewrite (list_fmap_ext _ (λ i, vec_get (buf_out (scr s4)) i) (seqZ 0 (nouts cf)))
    by (intros k i Hk%lookup_seqZ; apply Hv5; lia).
  rewrite Hout4, lane_result_point.
  assert (Hins : (λ i, load s3' (buf_ptr BufIn) (i * 1 + 0)) <$> seqZ 0 (nvars cf)
                 = contents (heap s) (p_inputs p)).
  { rewrite (contents_1d _ _ _ Hsi). apply list_fmap_ext.
    intros k i Hk%lookup_seqZ. simpl.
    change (buf_in (scr s3)) with (get_buf BufIn (scr s3)).
    rewrite Hin3, Hin2. replace (0 + (i * 1 + 0)) with i by lia. apply Hv1. lia. }
  assert (Hps : (λ i, load s3' (buf_ptr BufPars) (i * 1 + 0)) <$> seqZ 0 (nparams cf)
                = pars_values (heap s) p).
  { rewrite <- Hpars2. apply list_fmap_ext. intros k i Hk%lookup_seqZ. simpl.
    change (buf_pars (scr s3)) with (get_buf BufPars (scr s3)).
    rewrite Hpar3. f_equal. lia. }
  rewrite Hins, Hps. destruct (is_time_dependent cf) eqn:Htd.
  - f_equal. rewrite <- Htime3 by (by apply (v_time_given _ _ Hv)). done.
  - by apply point_result_time.
Qed.
(** C1. On the zero-copy path of a batch evaluation of [N] points with SIMD
    width [W], the call returns the outputs array and invokes, in this
    order: the strided batch kernel [N / W] times, invocation [k] with the
    pointers at offset [k * W] and with stride [N]; then the strided scalar
    kernel once per remaining point [k] of [N / W * W, N), with the pointers
    at offset [k] and with stride [N]. (A pointer of [strided_call] is the
    data pointer of its role moved by the offset; C7 covers the roles that
    are not read.) *)
Theorem batch_zero_copy_invocations cf i oo po to s p :
  (prepare cf i oo po to s).1 = Ok p →
  p_multi_eval p = true → p_zero_copy p = true →
  0 ≤ shape_at (p_inputs p) 1 → 0 < simd_size cf →
  let N := shape_at (p_inputs p) 1 in
  let W := simd_size cf in
  (call cf i oo po to s).1 = Ok (p_outputs p) ∧
  calls_of (trace (call cf i oo po to s).2) =
    calls_of (trace s)
    ++ (strided_call cf p FptrBatchS <$> ((λ k, k * W) <$> seqZ 0 (N `div` W)))
    ++ (strided_call cf p FptrScalS <$> seqZ (N `div` W * W) (N `mod` W)).
Proof.
  intros Hp Hm Hz HN HW N W.
  destruct (call_multi_zero_copy _ _ _ _ _ _ _ Hp Hm Hz) as [Hr Ht].
  assert (Hq : Z.quot N W = N `div` W) by (apply Z.quot_div_nonneg; lia).
  assert (Hc := calls_of_zero_copy_events cf p). simpl in Hc.
  fold N W in Hc. rewrite Hq in Hc.
  replace (N - N `div` W * W) with (N `mod` W) in Hc
    by (rewrite Z.mod_eq by lia; lia).
  split; [done |]. by rewrite Ht, calls_of_app, Hc.
Qed.


(** C3. The zero-copy path is taken only if every buffer of the call
    (inputs, outputs, parameters and time when present) is C-style contiguous
    and no two of them may share memory; then no two of them have an address
    in common. When a buffer is not contiguous or two buffers may share
    memory, the evaluation runs on the buffered path. *)
Theorem zero_copy_only_if_contiguous_and_disjoint cf i oo po to s p :
  (prepare cf i oo po to s).1 = Ok p →
  (p_zero_copy p = true →
     run cf p = (if p_multi_eval p then run_multi_zero_copy cf p
                 else run_single_zero_copy cf p) ∧
     Forall (λ a, is_c_contiguous a = true) (supplied p) ∧
     ∀ (j k : nat) a b, (j < k)%nat →
       supplied p !! j = Some a → supplied p !! k = Some b →
       may_share_memory2 a b = false ∧ ∀ x, x ∈ addresses a → x ∉ addresses b) ∧
  ((Exists (λ a, is_c_contiguous a = false) (supplied p) ∨
    ∃ (j k : nat) a b, (j < k)%nat ∧
      supplied p !! j = Some a ∧ supplied p !! k = Some b ∧
      may_share_memory2 a b = true) →
   p_zero_copy p = false ∧
   run cf p = (if p_multi_eval p then run_multi_buffered cf p
               else run_single_buffered cf p)).
Proof.
  intros Hp. assert (Hv := prepare_validated _ _ _ _ _ _ _ Hp).
  assert (Hzc : p_zero_copy p = true →
    Forall (λ a, is_c_contiguous a = true) (supplied p) ∧
    ∀ (j k : nat) a b, (j < k)%nat →
      supplied p !! j = Some a → supplied p !! k = Some b →
      may_share_memory2 a b = false).
  { intros Hz. rewrite (v_zero_copy _ _ Hv) in Hz.
    apply zero_copy_of_true in Hz as [Hc Hs]. split.
    - eapply Forall_impl; [exact Hc |]. apply is_npy_array_carray_contiguous.
    - by apply may_share_memory_false. }
  split.
  - intros Hz. destruct (Hzc Hz) as [Hc Hs]. split; [| split; [done |]].
    + unfold run. by rewrite Hz.
    + intros j k a b Hjk Ha Hb. assert (Hab := Hs j k a b Hjk Ha Hb).
      split; [done |]. intros x. by apply may_share_memory2_sound.
  - intros Hfail. assert (Hz : p_zero_copy p = false).
    { destruct (p_zero_copy p); [| done]. destruct (Hzc eq_refl) as [Hc Hs].
      destruct Hfail as [Hex | (j & k & a & b & Hjk & Ha & Hb & Hab)].
      - apply Exists_exists in Hex as (a & Ha & Hna).
        rewrite Forall_forall in Hc. specialize (Hc a Ha). congruence.
      - specialize (Hs j k a b Hjk Ha Hb). congruence. }
    split; [done |]. unfold run. by rewrite Hz.
Qed.


(** C10. A batch evaluation with no point at all is accepted: the call
    returns an array of outputs of shape (nouts, 0), and no kernel is
    invoked (nothing is added to the trace). *)
Theorem empty_batch_accepted cf i oo po to s :
  cfunc_wf cf → empty_batch cf i oo po to →
  ∃ out, (call cf i oo po to s).1 = Ok out ∧
         nd_shape out = [nouts cf; 0] ∧
         calls_of (trace (call cf i oo po to s).2) = calls_of (trace s) ∧
         trace (call cf i oo po to s).2 = trace s.
Proof.
  intros (Hwv & Hwo & Hwp & Hww) (Hsi & Hci & Ho & Hpg & Hq & Htg & Ht).
  set (dt := get_dtype (elt_type cf)) in *.
  assert (Hprep : ∃ p, (prepare cf i oo po to s).1 = Ok p ∧
            nd_shape (p_outputs p) = [nouts cf; 0] ∧ p_multi_eval p = true ∧
            shape_at (p_inputs p) 1 = 0).
  { change (wp (prepare cf i oo po to)
              (λ r _, ∃ p, r = Ok p ∧ nd_shape (p_outputs p) = [nouts cf; 0] ∧
                           p_multi_eval p = true ∧ shape_at (p_inputs p) 1 = 0) s).
    apply prepare_early_wp.
    { unfold early_checks_pass. fold dt. unfold ndim, shape_at. rewrite Hsi. simpl.
      repeat split; try done; try lia.
      - intros q Hq'. by destruct (Hq q Hq').
      - intros t Ht'. destruct (Ht _ Ht') as (t' & [= <-] & Hc & _). done. }
    { intros o Ho'. by destruct (Ho o Ho'). }
    intros inputs outputs_ pars time s5 k _ Hish HoN HoS HpN HpS HtN HtS HtV ->.
    assert (Hnd : ndim inputs = 2) by (unfold ndim; by rewrite Hish, Hsi).
    assert (Hs0 : shape_at inputs 0 = nvars cf)
      by (unfold shape_at; by rewrite Hish, Hsi).
    assert (Hs1 : shape_at inputs 1 = 0)
      by (unfold shape_at; by rewrite Hish, Hsi).
    assert (Hai : addresses inputs = []).
    { apply (addresses_empty_batch _ (nvars cf)). by rewrite Hish. }
    rewrite (bool_decide_true (ndim inputs = 2)) by done.
    (* the array of outputs *)
    apply wp_bind.
    assert (Hout : ∃ outputs s6,
      prepare_outputs cf inputs outputs_ true s5 = (Ok outputs, s6) ∧
      nd_shape outputs = [nouts cf; 0]).
    { destruct oo as [o|].
      - destruct (Ho o eq_refl) as (Hc & Hso & Hwr).
        destruct (HoS o eq_refl) as (b & -> & Hsb & Hsame & Hfresh).
        exists b, s5. rewrite Hso in Hsb. split; [| done].
        apply prepare_outputs_given; unfold ndim, shape_at in *;
          rewrite ?Hsb, ?Hish, ?Hsi; simpl; try done.
        destruct (decide (nd_dtype o = dt)) as [Hd|Hd].
        + rewrite (Hsame Hd). by apply Hwr.
        + by apply Hfresh.
      - rewrite (HoN eq_refl). simpl. rewrite Hs1. eexists _, _. split; [done |].
        done. }
    destruct Hout as (outputs & s6 & Hpo & Hso). unfold wp at 1. rewrite Hpo. simpl.
    (* the precision of the inputs, and the outputs made ready *)
    apply wp_bind.
    assert (Hreal : ∃ s7,
      (if is_real (elt_type cf)
       then pyreal_check_array RIn inputs (prec cf);;
            pyreal_ensure_array outputs (prec cf)
       else ret tt) s6 = (Ok tt, s7)).
    { destruct (is_real (elt_type cf)); [| by eexists].
      unfold bind at 1. rewrite pyreal_check_array_empty by done. by eexists. }
    destruct Hreal as (s7 & Hr7). unfold wp at 1. rewrite Hr7. simpl.
    (* parameters *)
    apply wp_bind.
    assert (Hcp : check_pars cf inputs pars true s7 = (Ok tt, s7)).
    { destruct po as [q|]; [| by rewrite (HpN eq_refl)].
      destruct (Hq q eq_refl) as (Hc & Hsq).
      destruct (HpS q eq_refl) as (b & -> & Hsb). rewrite Hsq in Hsb.
      unfold check_pars, numeric_cast_u32, bind, ndim, shape_at.
      rewrite Hsb, Hish, Hsi. simpl.
      rewrite (proj2 (Z.leb_le _ _)) by lia.
      rewrite (proj2 (Z.leb_le _ _)) by lia. simpl.
      rewrite bool_decide_false by (intros Hx; by apply Hx). simpl.
      destruct (is_real (elt_type cf)); [| done].
      apply pyreal_check_array_empty. by apply (addresses_empty_batch _ (nparams cf)). }
    unfold wp at 1. rewrite Hcp. simpl.
    (* time *)
    apply wp_bind.
    assert (Hct : check_time cf inputs time true s7 = (Ok tt, s7)).
    { destruct to as [x|]; [| by rewrite (HtN eq_refl)].
      destruct (Ht x eq_refl) as (t & -> & Hc & Hst).
      destruct (HtS t eq_refl) as (b & -> & Hsb). rewrite Hst in Hsb.
      unfold check_time, bind, ndim, shape_at. rewrite Hsb, Hish, Hsi. simpl.
      destruct (is_real (elt_type cf)); [| done].
      apply pyreal_check_array_empty. by apply addresses_empty. }
    unfold wp at 1. rewrite Hct. simpl.
    apply wp_ret. eexists. split; [done |]. simpl. done. }
  destruct Hprep as (p & Hp & Hso & Hm & HN).
  exists (p_outputs p). split; [by apply call_ok |]. split; [done |].
  assert (Htr : trace (call cf i oo po to s).2 = trace s).
  { rewrite (call_after_prepare _ _ _ _ _ _ _ Hp).
    assert (Hrun : ∀ s', run cf p s' = (Ok tt, s')).
    { intros s'. unfold run. rewrite Hm.
      destruct (p_zero_copy p);
        unfold run_multi_zero_copy, run_multi_buffered; by rewrite HN. }
    unfold bind. rewrite Hrun. simpl. apply prepare_same_trace. }
  split; [by rewrite Htr | done].
Qed.

(** C4, as amended. When a call raises an error, no kernel has been invoked
    (the trace is as before the call) and the scratch vectors are untouched.
    The memory that existed before the call is untouched too, with one
    exception: when the element type is [mppp::real], the caller supplied an
    array of outputs of that dtype, and the error comes from one of the
    checks on parameters or time that follow the preparation of the outputs,
    the elements of that array may have been made values of precision
    [prec]. *)
Theorem validation_errors_precede_kernels cf i oo po to s e :
  (call cf i oo po to s).1 = Raise e →
  let s' := (call cf i oo po to s).2 in
  trace s' = trace s ∧ scr s' = scr s ∧
  (∀ x, x < brk s → ¬ (late_error e = true ∧ normalized_outputs cf oo x) →
     heap s' x = heap s x) ∧
  (is_real (elt_type cf) = false ∨ late_error e = false ∨ oo = None →
   ∀ x, x < brk s → heap s' x = heap s x).
Proof.
  intros Hc s'. destruct (call_raise_inv _ _ _ _ _ _ _ Hc) as [Hp Hs].
  subst s'. rewrite Hs. split; [apply prepare_same_trace |].
  split; [apply prepare_same_scr |].
  assert (Hpost := prepare_raise _ _ _ _ _ _ _ Hp). simpl in Hpost.
  assert (Hframe : ∀ x, x < brk s →
            ¬ (late_error e = true ∧ normalized_outputs cf oo x) →
            heap (prepare cf i oo po to s).2 x = heap s x).
  { intros x Hx Hn. destruct (late_error e); destruct Hpost as [_ Hh].
    - apply Hh; [done |]. intros HW. by apply Hn.
    - apply Hh; [done |]. by intros []. }
  split; [done |]. intros Hcase x Hx. apply Hframe; [done |].
  intros [Hl (Hr & o & Ho & _)]. destruct Hcase as [?|[?|?]]; congruence.
Qed.


(** C8. The evaluator made by [add_cfunc] owns four scratch vectors of
    [nvars * W], [nouts * W], [nparams * W] and [W] slots; for [mppp::real]
    every slot is set to the working precision at construction. No call
    changes the length of a scratch vector, and after every call every slot
    still holds a value of the working precision: the invariant that
    construction establishes is kept from call to call. (The sizes are
    those of the code when the products fit in 32 bits, as the compilation
    has checked; the kernels are taken to compute values of the working
    precision from values of the working precision.) *)
Theorem scratch_invariant T fn vars batch_size prec_ kfn cf sc :
  add_cfunc T fn vars batch_size prec_ kfn = Ok (cf, sc) →
  cfunc_wf cf → 1 ≤ simd_size cf → no_overflow cf → kernel_keeps_prec cf →
  scratch_ok cf sc ∧
  ∀ i oo po to s, array_wf i → scratch_ok cf (scr s) →
    same_lengths s (call cf i oo po to s).2 ∧
    scratch_ok cf (scr (call cf i oo po to s).2).
Proof.
  intros Hadd Hwf HW Hno Hk. split.
  - by eapply add_cfunc_scratch_ok.
  - intros i oo po to s Hi Hok. split.
    + apply call_same_lengths.
    + by apply call_scratch_ok.
Qed.

Lemma call_state_after_prepare cf i oo po to s p :
  (prepare cf i oo po to s).1 = Ok p →
  (call cf i oo po to s).2 = (run cf p (prepare cf i oo po to s).2).2.
Proof.
  intros Hp. rewrite (call_after_prepare _ _ _ _ _ _ _ Hp). unfold bind.
  by destruct (run cf p _) as [[[]|e] s'].
Qed.

(** C2. Take two single evaluations by the same evaluator, one that runs on
    the zero-copy path and one that runs on the buffered path, made with the
    same values of the variables, of the parameters and (when the function
    depends on time) of time. Both return, and the arrays of outputs they
    return hold the same values: the outputs of the compiled function at
    these values. (The arrays of the zero-copy call have a data pointer, the
    scratch vectors have the size construction gave them, and the elements
    of the outputs of the buffered call do not overlap one another.) *)
Theorem single_eval_paths_agree cf i1 oo1 po1 to1 s1 p1 i2 oo2 po2 to2 s2 p2 :
  cfunc_wf cf → 1 ≤ simd_size cf →
  (prepare cf i1 oo1 po1 to1 s1).1 = Ok p1 →
  (prepare cf i2 oo2 po2 to2 s2).1 = Ok p2 →
  p_multi_eval p1 = false → p_multi_eval p2 = false →
  p_zero_copy p1 = true → p_zero_copy p2 = false →
  Forall backed (supplied p1) →
  scratch_sized cf (scr s2) → NoDup (addresses (p_outputs p2)) →
  contents (heap (prepare cf i1 oo1 po1 to1 s1).2) (p_inputs p1)
  = contents (heap (prepare cf i2 oo2 po2 to2 s2).2) (p_inputs p2) →
  pars_values (heap (prepare cf i1 oo1 po1 to1 s1).2) p1
  = pars_values (heap (prepare cf i2 oo2 po2 to2 s2).2) p2 →
  (is_time_dependent cf = true →
   time_value (heap (prepare cf i1 oo1 po1 to1 s1).2) p1
   = time_value (heap (prepare cf i2 oo2 po2 to2 s2).2) p2) →
  (call cf i1 oo1 po1 to1 s1).1 = Ok (p_outputs p1) ∧
  (call cf i2 oo2 po2 to2 s2).1 = Ok (p_outputs p2) ∧
  contents (heap (call cf i1 oo1 po1 to1 s1).2) (p_outputs p1)
  = contents (heap (call cf i2 oo2 po2 to2 s2).2) (p_outputs p2) ∧
  contents (heap (call cf i1 oo1 po1 to1 s1).2) (p_outputs p1)
  = point_result cf
      (contents (heap (prepare cf i1 oo1 po1 to1 s1).2) (p_inputs p1))
      (pars_values (heap (prepare cf i1 oo1 po1 to1 s1).2) p1)
      (time_value (heap (prepare cf i1 oo1 po1 to1 s1).2) p1).
Proof.
  intros Hwf HW Hp1 Hp2 Hm1 Hm2 Hz1 Hz2 Hb Hsz Hnd Hin Hpar Htime.
  assert (Hv1 := prepare_validated _ _ _ _ _ _ _ Hp1).
  assert (Hv2 := prepare_validated _ _ _ _ _ _ _ Hp2).
  assert (R1 := run_single_zero_copy_result cf p1 (prepare cf i1 oo1 po1 to1 s1).2
                  Hv1 Hwf Hm1 Hz1 Hb).
  assert (Hsz2 : scratch_sized cf (scr (prepare cf i2 oo2 po2 to2 s2).2)).
  { by rewrite (prepare_same_scr cf i2 oo2 po2 to2 s2). }
  assert (R2 := run_single_buffered_result cf p2 (prepare cf i2 oo2 po2 to2 s2).2
                  Hv2 Hwf HW Hsz2 Hm2 Hz2 Hnd).
  split; [by apply call_ok |]. split; [by apply call_ok |].
  rewrite (call_state_after_prepare _ _ _ _ _ _ _ Hp1).
  rewrite (call_state_after_prepare _ _ _ _ _ _ _ Hp2).
  split; [| done]. rewrite R1, R2, Hin, Hpar.
  destruct (is_time_dependent cf) eqn:Htd.
  - by rewrite Htime.
  - by apply point_result_time.
Qed.

End DispatcherFacts.

(** ** The claims the code does not meet, on concrete calls *)

(** C5. A batch evaluation of one point with a scalar time value: the time
    becomes an array of shape (1,), which passes the checks on the time
    array, and the call returns. With more than one point the same call is
    refused as a size mismatch, and a time array in a single evaluation is
    refused as [ScalarTimeExpected]. *)
Theorem scalar_time_accepted_in_batch_of_one :
  (call cf_time (view 12 [1; 1] [1; 1] 0 true) None None
     (Some (inl (Fixed 7))) (demo_state cf_time)).1
  = Ok (dense_array 12 [1; 1] 101) ∧
  (call cf_time (view 12 [1; 3] [3; 1] 0 true) None None
     (Some (inl (Fixed 7))) (demo_state cf_time)).1
  = Raise (BatchSizeMismatch RTime) ∧
  (call cf_time (view 12 [1] [1] 0 true) None None
     (Some (inr (view 12 [1] [1] 5 true))) (demo_state cf_time)).1
  = Raise ScalarTimeExpected.
Proof. by vm_compute. Qed.

(** C4 fails for [mppp::real]: the array of outputs of the caller (at
    address 60, not constructed yet) is made a real of precision 113 before
    the parameters, of the wrong size, are refused. *)
Lemma outputs_written_before_error :
  let outs := view 257 [1] [1] 60 true in
  let r := call cf_real (view 257 [1] [1] 0 true) (Some outs)
             (Some (view 257 [2] [1] 10 true)) None real_state in
  r.1 = Raise (SizeMismatch RPar) ∧
  addresses outs = [60] ∧
  heap real_state 60 = Unconstructed ∧
  heap r.2 60 = MpReal 113 (Some 0).
Proof. by vm_compute. Qed.


(** ** The theorems at work on concrete calls *)

Lemma batch_zero_copy_invocations_witness :
  (call cf_sum in_batch5 None None None (demo_state cf_sum)).1
  = Ok (p_outputs prepared_batch5) ∧
  calls_of (trace (call cf_sum in_batch5 None None None (demo_state cf_sum)).2)
  = calls_of (trace (demo_state cf_sum))
    ++ (strided_call cf_sum prepared_batch5 FptrBatchS
          <$> ((λ k, k * 2) <$> seqZ 0 (5 `div` 2)))
    ++ (strided_call cf_sum prepared_batch5 FptrScalS <$> seqZ (5 `div` 2 * 2) (5 `mod` 2)).
Proof.
  apply (batch_zero_copy_invocations cf_sum in_batch5 None None None
           (demo_state cf_sum) prepared_batch5); evaluated.
Defined.


(** The aliased call: the outputs overlap the inputs, so that the call runs
    on the buffered path. *)
Lemma zero_copy_only_if_contiguous_and_disjoint_witness :
  let p := prepared_alias in
  (p_zero_copy p = true →
     run cf_sum p = (if p_multi_eval p then run_multi_zero_copy cf_sum p
                     else run_single_zero_copy cf_sum p) ∧
     Forall (λ a, is_c_contiguous a = true) (supplied p) ∧
     ∀ (j k : nat) a b, (j < k)%nat →
       supplied p !! j = Some a → supplied p !! k = Some b →
       may_share_memory2 a b = false ∧ ∀ x, x ∈ addresses a → x ∉ addresses b) ∧
  ((Exists (λ a, is_c_contiguous a = false) (supplied p) ∨
    ∃ (j k : nat) a b, (j < k)%nat ∧
      supplied p !! j = Some a ∧ supplied p !! k = Some b ∧
      may_share_memory2 a b = true) →
   p_zero_copy p = false ∧
   run cf_sum p = (if p_multi_eval p then run_multi_buffered cf_sum p
                   else run_single_buffered cf_sum p)).
Proof.
  apply (zero_copy_only_if_contiguous_and_disjoint cf_sum in_single (Some out_alias)
           None None (demo_state cf_sum) prepared_alias); evaluated.
Defined.


Lemma empty_batch_accepted_witness :
  ∃ out, (call cf_sum in_batch0 None None None (demo_state cf_sum)).1 = Ok out ∧
         nd_shape out = [nouts cf_sum; 0] ∧
         calls_of (trace (call cf_sum in_batch0 None None None (demo_state cf_sum)).2)
         = calls_of (trace (demo_state cf_sum)) ∧
         trace (call cf_sum in_batch0 None None None (demo_state cf_sum)).2
         = trace (demo_state cf_sum).
Proof.
  apply (empty_batch_accepted cf_sum in_batch0 None None None (demo_state cf_sum)).
  - evaluated.
  - unfold empty_batch. simpl. repeat split; try done; by left.
Defined.

Lemma validation_errors_precede_kernels_witness :
  let s' := (call cf_real real_in (Some real_out) (Some real_pars2) None real_state).2 in
  trace s' = trace real_state ∧ scr s' = scr real_state ∧
  (∀ x, x < brk real_state →
     ¬ (late_error (SizeMismatch RPar) = true ∧
        normalized_outputs cf_real (Some real_out) x) →
     heap s' x = heap real_state x) ∧
  (is_real (elt_type cf_real) = false ∨ late_error (SizeMismatch RPar) = false ∨
   Some real_out = None →
   ∀ x, x < brk real_state → heap s' x = heap real_state x).
Proof.
  apply (validation_errors_precede_kernels cf_real real_in (Some real_out)
           (Some real_pars2) None real_state (SizeMismatch RPar)); evaluated.
Defined.


(** The kernel of [cf_real] honours the contract of a kernel for reals. *)
Lemma real_sum_fn_keeps_prec : kernel_keeps_prec cf_real.
Proof.
  intros _ ins pars tm _ _ _. split; [reflexivity |].
  apply Forall_cons. split; [reflexivity | apply Forall_nil_2].
Qed.

Lemma scratch_invariant_witness :
  scratch_ok cf_real (scratch_of cf_real) ∧
  ∀ i oo po to s, array_wf i → scratch_ok cf_real (scr s) →
    same_lengths s (call cf_real i oo po to s).2 ∧
    scratch_ok cf_real (scr (call cf_real i oo po to s).2).
Proof.
  apply (scratch_invariant Real [expr_x_par] None None 113 real_sum_fn cf_real
           (scratch_of cf_real));
    [reflexivity | evaluated | evaluated | evaluated | exact real_sum_fn_keeps_prec].
Defined.

(** The same two variables evaluated twice: once into a new array of
    outputs, on the zero-copy path, and once into an array that overlaps the
    inputs, on the buffered path. *)
Lemma single_eval_paths_agree_witness :
  let s := demo_state cf_sum in
  let c1 := call cf_sum in_single None None None s in
  let c2 := call cf_sum in_single (Some out_alias) None None s in
  let s1 := (prepare cf_sum in_single None None None s).2 in
  c1.1 = Ok (p_outputs prepared_single) ∧
  c2.1 = Ok (p_outputs prepared_alias) ∧
  contents (heap c1.2) (p_outputs prepared_single)
  = contents (heap c2.2) (p_outputs prepared_alias) ∧
  contents (heap c1.2) (p_outputs prepared_single)
  = point_result cf_sum (contents (heap s1) (p_inputs prepared_single))
      (pars_values (heap s1) prepared_single) (time_value (heap s1) prepared_single).
Proof.
  apply (single_eval_paths_agree cf_sum
           in_single None None None (demo_state cf_sum) prepared_single
           in_single (Some out_alias) None None (demo_state cf_sum) prepared_alias);
    try (apply (bool_decide_unpack _); vm_compute; exact I); evaluated.
Defined.

(** * More of the dispatcher *)

Section MoreFacts.

Context `{Extern}.

(** ** The kernel invocations of the other three paths *)

Lemma emits_yields {A} (m : M A) a evs : yields m a evs → emits m evs.
Proof. intros Hy s. destruct (Hy s) as [Hr Ht]. split; [by exists a | done]. Qed.

Lemma emits_quiet {A} (m : M A) :
  never_raises m → preserves same_trace m → emits m [].
Proof.
  intros Hn Hp s. split; [apply Hn |]. rewrite app_nil_r. apply Hp.
Qed.

Lemma emits_bind {A B} (m : M A) (k : A → M B) e1 e2 :
  emits m e1 → (∀ a, emits (k a) e2) → emits (bind m k) (e1 ++ e2).
Proof.
  intros Hm Hk s. unfold bind. destruct (Hm s) as [[a Hr] Ht].
  destruct (m s) as [r s']; simpl in *; subst r.
  destruct (Hk a s') as [Hr' Ht']. split; [done |].
  by rewrite Ht', Ht, app_assoc.
Qed.

Lemma emits_for_each l body e :
  (∀ k, emits (body k) [e]) → emits (for_each l body) (replicate (length l) e).
Proof.
  intros Hb. induction l as [|k l IH]; simpl.
  - apply emits_yields with tt, yields_ret.
  - change (e :: replicate (length l) e) with ([e] ++ replicate (length l) e).
    apply emits_bind; [apply Hb | intros _; apply IH].
Qed.

Lemma emits_when_some {A} (o : option A) f :
  (∀ a, emits (f a) []) → emits (when_some o f) [].
Proof. destruct o; simpl; [done | intros _; apply emits_yields with tt, yields_ret]. Qed.

Ltac returns_step :=
  first
    [ apply never_raises_ret
    | apply never_raises_bind; [| intros ?]
    | apply never_raises_for_each; intros ?
    | apply never_raises_when_some; intros ?
    | by (eapply never_raises_total; intros ?; reflexivity) ].

Lemma set_scratch_same_trace b : preserves same_trace (set_scratch b).
Proof. by intros s. Qed.

Lemma copy_in_quiet b a i : emits (v <- heap_get a;; buf_set b i v) [].
Proof.
  apply emits_quiet.
  - unfold buf_set. repeat returns_step.
  - unfold buf_set. repeat preserves_step. apply set_scratch_same_trace.
Qed.

Lemma copy_out_quiet i a : emits (v <- buf_get BufOut i;; heap_set a v) [].
Proof.
  apply emits_quiet.
  - unfold heap_set. repeat returns_step.
  - unfold heap_set. repeat preserves_step. apply set_heap_same_trace.
Qed.

Lemma emits_loop_quiet l body :
  (∀ k, emits (body k) []) → emits (for_each l body) [].
Proof.
  intros Hb. induction l as [|k l IH]; simpl.
  - apply emits_yields with tt, yields_ret.
  - change (@nil event) with (@nil event ++ []).
    apply emits_bind; [apply Hb | intros _; apply IH].
Qed.

Lemma emits_fptr_scal cf po pi pp pt :
  emits (fptr_scal cf po pi pp pt)
    [EvKernel {| k_fptr := FptrScal; k_out := po; k_in := pi; k_par := pp;
                 k_time := pt; k_stride := None |}].
Proof.
  unfold fptr_scal.
  match goal with |- emits _ ?l => change l with (l ++ []) end.
  apply emits_bind; [apply emits_yields with tt, yields_log |].
  intros _. apply emits_yields with tt, yields_kernel.
Qed.

Lemma emits_fptr_batch cf po pi pp pt :
  emits (fptr_batch cf po pi pp pt)
    [EvKernel {| k_fptr := FptrBatch; k_out := po; k_in := pi; k_par := pp;
                 k_time := pt; k_stride := None |}].
Proof.
  unfold fptr_batch.
  match goal with |- emits _ ?l => change l with (l ++ []) end.
  apply emits_bind; [apply emits_yields with tt, yields_log |].
  intros _. apply emits_yields with tt, yields_kernel.
Qed.

(** A computation made of quiet parts around one kernel invocation. *)
Ltac emits_quiet_step :=
  lazymatch goal with
  | |- emits (for_each _ _) [] => apply emits_loop_quiet; intros ?
  | |- emits (when_some _ _) [] => apply emits_when_some; intros ?
  | |- emits (bind (heap_get _) _) [] => apply copy_in_quiet
  | |- emits (bind (buf_get _ _) _) [] => apply copy_out_quiet
  end.

Lemma emits_run_single_buffered cf p :
  emits (run_single_buffered cf p) [EvKernel (buffer_call FptrScal)].
Proof.
  unfold run_single_buffered, gather1, scatter1, gather_time_point.
  change [EvKernel (buffer_call FptrScal)]
    with ([] ++ [] ++ [] ++ [EvKernel (buffer_call FptrScal)] ++ []).
  apply emits_bind; [repeat emits_quiet_step | intros _].
  apply emits_bind; [repeat emits_quiet_step | intros _].
  apply emits_bind; [repeat emits_quiet_step | intros _].
  apply emits_bind; [apply emits_fptr_scal | intros _].
  repeat emits_quiet_step.
Qed.

Lemma emits_run_multi_buffered cf p :
  let n_simd_blocks := Z.quot (shape_at (p_inputs p) 1) (simd_size cf) in
  emits (run_multi_buffered cf p)
    (replicate (Z.to_nat n_simd_blocks) (EvKernel (buffer_call FptrBatch))
     ++ replicate (Z.to_nat (shape_at (p_inputs p) 1 - n_simd_blocks * simd_size cf))
          (EvKernel (buffer_call FptrScal))).
Proof.
  intros n. unfold run_multi_buffered. fold n.
  apply emits_bind; [| intros _].
  - rewrite <- (length_seqZ 0 n). apply emits_for_each. intros k.
    unfold gather_block, gather_time_block, scatter_block.
    change [EvKernel (buffer_call FptrBatch)]
      with ([] ++ [] ++ [] ++ [EvKernel (buffer_call FptrBatch)] ++ []).
    apply emits_bind; [repeat emits_quiet_step | intros _].
    apply emits_bind; [repeat emits_quiet_step | intros _].
    apply emits_bind; [repeat emits_quiet_step | intros _].
    apply emits_bind; [apply emits_fptr_batch | intros _].
    repeat emits_quiet_step.
  - match goal with
    | |- emits (for_each (seqZ ?m ?len) _) _ => rewrite <- (length_seqZ m len)
    end.
    apply emits_for_each. intros k.
    unfold gather_point, gather_time_point, scatter_point.
    change [EvKernel (buffer_call FptrScal)]
      with ([] ++ [] ++ [] ++ [EvKernel (buffer_call FptrScal)] ++ []).
    apply emits_bind; [repeat emits_quiet_step | intros _].
    apply emits_bind; [repeat emits_quiet_step | intros _].
    apply emits_bind; [repeat emits_quiet_step | intros _].
    apply emits_bind; [apply emits_fptr_scal | intros _].
    repeat emits_quiet_step.
Qed.

(** The trace of a call whose evaluation emits [evs]. *)
Lemma call_emits cf i oo po to s p evs :
  (prepare cf i oo po to s).1 = Ok p →
  emits (run cf p) evs →
  (call cf i oo po to s).1 = Ok (p_outputs p) ∧
  trace (call cf i oo po to s).2 = trace s ++ evs.
Proof.
  intros Hp He. split; [by apply call_ok |].
  rewrite (call_after_prepare _ _ _ _ _ _ _ Hp). unfold bind at 1.
  destruct (He (prepare cf i oo po to s).2) as [[[] Hr] Ht].
  destruct (run cf p _) as [r s']. simpl in *. subst r. simpl.
  rewrite Ht. f_equal. apply prepare_same_trace.
Qed.

(** X1. A single evaluation invokes a kernel exactly once: the dense scalar
    entry point, on the arrays of the call themselves on the zero-copy path
    (a null pointer standing for parameters or time that were not given) and
    on the four scratch vectors on the buffered path. Nothing else is added
    to the trace: no strided or batch kernel runs and no pointer is moved. *)
Theorem single_eval_one_invocation cf i oo po to s p :
  (prepare cf i oo po to s).1 = Ok p → p_multi_eval p = false →
  (call cf i oo po to s).1 = Ok (p_outputs p) ∧
  trace (call cf i oo po to s).2
  = trace s ++ [EvKernel (if p_zero_copy p then direct_call p
                          else buffer_call FptrScal)].
Proof.
  intros Hp Hm. apply call_emits; [done |]. unfold run. rewrite Hm.
  destruct (p_zero_copy p).
  - apply emits_fptr_scal.
  - apply emits_run_single_buffered.
Qed.

(** X2. On the buffered path of a batch evaluation of [N] points with SIMD
    width [W], the dense batch kernel is invoked [N / W] times and then the
    dense scalar kernel [N mod W] times, every time on the four scratch
    vectors; no strided kernel runs and no pointer of the caller is moved. *)
Theorem batch_buffered_invocations cf i oo po to s p :
  (prepare cf i oo po to s).1 = Ok p →
  p_multi_eval p = true → p_zero_copy p = false →
  0 ≤ shape_at (p_inputs p) 1 → 0 < simd_size cf →
  let N := shape_at (p_inputs p) 1 in
  let W := simd_size cf in
  (call cf i oo po to s).1 = Ok (p_outputs p) ∧
  trace (call cf i oo po to s).2
  = trace s
    ++ replicate (Z.to_nat (N `div` W)) (EvKernel (buffer_call FptrBatch))
    ++ replicate (Z.to_nat (N `mod` W)) (EvKernel (buffer_call FptrScal)).
Proof.
  intros Hp Hm Hz HN HW N W. apply call_emits; [done |].
  unfold run. rewrite Hm, Hz.
  assert (He := emits_run_multi_buffered cf p). simpl in He. fold N W in He.
  rewrite Z.quot_div_nonneg in He by lia.
  replace (N - N `div` W * W) with (N `mod` W) in He
    by (rewrite Z.mod_eq by lia; lia).
  exact He.
Qed.

(** X3. A call that runs on the zero-copy path leaves the four scratch
    vectors exactly as they were. *)
Theorem zero_copy_leaves_scratch cf i oo po to s p :
  (prepare cf i oo po to s).1 = Ok p → p_zero_copy p = true →
  scr (call cf i oo po to s).2 = scr s.
Proof.
  intros Hp Hz. rewrite (call_after_prepare _ _ _ _ _ _ _ Hp).
  assert (H1 := prepare_same_scr cf i oo po to s).
  assert (H2 := run_zero_copy_same_scr cf p Hz (prepare cf i oo po to s).2).
  unfold same_scr in *. unfold bind at 1.
  destruct (run cf p _) as [[[]|e] s']; simpl in *; congruence.
Qed.

(** ** The order of the checks *)

Lemma ndim_shape a b : nd_shape a = nd_shape b → ndim a = ndim b.
Proof. intros E. unfold ndim. by rewrite E. Qed.

Lemma shape_at_shape a b n : nd_shape a = nd_shape b → shape_at a n = shape_at b n.
Proof. intros E. unfold shape_at. by rewrite E. Qed.

(** The preparation of a call whose arrays can all be converted gets to the
    checks, with the converted arguments. *)
Lemma prepare_converted_wp cf i oo po to (Q : result prepared → state → Prop) s :
  castable (get_dtype (elt_type cf)) i →
  (∀ o, oo = Some o → castable (get_dtype (elt_type cf)) o) →
  (∀ q, po = Some q → castable (get_dtype (elt_type cf)) q) →
  (∀ t, to = Some (inr t) → castable (get_dtype (elt_type cf)) t) →
  (∀ inputs outputs_ pars time s5 (k : M prepared),
     heap_kept s s5 →
     nd_shape inputs = nd_shape i →
     (oo = None → outputs_ = None) →
     (po = None → pars = None) →
     (∀ q, po = Some q → ∃ b, pars = Some b ∧ nd_shape b = nd_shape q) →
     (to = None → time = None) →
     (∀ x, to = Some x → is_Some time) →
     k = (throw_if ((0 <? nparams cf) && negb (bool_decide (is_Some pars)))
                   MissingParameters;;
          throw_if (is_time_dependent cf && negb (bool_decide (is_Some time)))
                   MissingTime;;
          throw_if (bool_decide (ndim inputs ≠ 1) && bool_decide (ndim inputs ≠ 2))
                   InvalidDimensionality;;
          n0 <- numeric_cast_u32 RIn (shape_at inputs 0);;
          throw_if (bool_decide (n0 ≠ nvars cf)) (SizeMismatch RIn);;
          throw_if (bool_decide (is_Some time)
                    && negb (bool_decide (ndim inputs = 2))
                    && negb (holds_scalar to))
                   ScalarTimeExpected;;
          outputs <- prepare_outputs cf inputs outputs_ (bool_decide (ndim inputs = 2));;
          (if is_real (elt_type cf)
           then pyreal_check_array RIn inputs (prec cf);;
                pyreal_ensure_array outputs (prec cf)
           else ret tt);;
          check_pars cf inputs pars (bool_decide (ndim inputs = 2));;
          check_time cf inputs time (bool_decide (ndim inputs = 2));;
          ret {| p_inputs := inputs; p_outputs := outputs; p_pars := pars;
                 p_time := time; p_multi_eval := bool_decide (ndim inputs = 2);
                 p_zero_copy := zero_copy_of inputs outputs pars time |}) →
     wp k Q s5) →
  wp (prepare cf i oo po to) Q s.
Proof.
  intros Hci Hco Hcq Hct HQ.
  unfold prepare. set (dt := get_dtype (elt_type cf)) in *.
  apply wp_bind, time_array_spec. intros t0 s1 K1 Ht0N Ht0 Ht0A.
  apply wp_bind, enforce_dtype_spec.
  { intros Hne Hc. destruct (castable_not _ _ Hci Hne Hc). }
  intros inputs s2 K2 Hish Hidt Hisame Hifresh.
  assert (K02 := heap_frame_trans _ _ _ _ K1 K2).
  apply wp_bind, enforce_dtype_opt_spec.
  { intros o Ho Hne Hc. destruct (castable_not _ _ (Hco o Ho) Hne Hc). }
  intros outputs_ s3 K3 HoN HoS.
  assert (K03 := heap_frame_trans _ _ _ _ K02 K3).
  apply wp_bind, enforce_dtype_opt_spec.
  { intros q Hq Hne Hc. destruct (castable_not _ _ (Hcq q Hq) Hne Hc). }
  intros pars s4 K4 HpN HpS.
  assert (K04 := heap_frame_trans _ _ _ _ K03 K4).
  apply wp_bind, enforce_dtype_opt_spec.
  { intros t Ht Hne Hc. destruct to as [[v|t']|].
    - destruct (Ht0 v eq_refl) as (d & Hd). rewrite Ht in Hd.
      injection Hd as ->. by destruct Hne.
    - rewrite (Ht0A t' eq_refl) in Ht. injection Ht as ->.
      destruct (castable_not _ _ (Hct t eq_refl) Hne Hc).
    - by rewrite (Ht0N eq_refl) in Ht. }
  intros time s5 K5 HtN HtS.
  assert (K05 := heap_frame_trans _ _ _ _ K04 K5).
  eapply HQ; [exact K05 | exact Hish | exact HoN | exact HpN | | | | reflexivity].
  - intros q Hq. destruct (HpS q Hq) as (b & Hb & Hsh & _). by exists b.
  - intros Hto. by rewrite (HtN (Ht0N Hto)).
  - intros [v|t] ->.
    + destruct (Ht0 v eq_refl) as (d & Hd). destruct (HtS _ Hd) as (b & -> & _).
      by eexists.
    + destruct (HtS _ (Ht0A t eq_refl)) as (b & -> & _). by eexists.
Qed.

(** An error of the preparation is the error of the call. *)
Lemma call_raises cf i oo po to s e :
  wp (prepare cf i oo po to) (λ r _, r = Raise e) s →
  (call cf i oo po to s).1 = Raise e.
Proof. intros Hp. by rewrite (call_prepare_raise _ _ _ _ _ _ _ Hp). Qed.

Lemma enforce_dtype_unsafe r dt a s :
  unsafe dt a → enforce_dtype r dt a s = (Raise (UnsafeCast r), s).
Proof.
  intros [Hne Hc]. unfold enforce_dtype, astype.
  by rewrite bool_decide_true, Hc by done.
Qed.

Lemma wp_enforce_dtype_opt_unsafe r dt a (Q : result (option ndarray) → state → Prop) s :
  unsafe dt a → Q (Raise (UnsafeCast r)) s →
  wp (enforce_dtype_opt r dt (Some a)) Q s.
Proof.
  intros Hu HQ. unfold wp, enforce_dtype_opt, bind.
  by rewrite (enforce_dtype_unsafe r dt a s Hu).
Qed.

(** X4. The arrays of a call are converted to the dtype of [T] before any
    other check, in the order inputs, outputs, parameters, time: the first
    one that cannot be cast safely decides the error, whatever else is wrong
    with the call. *)
Theorem unsafe_casts_rejected_in_order cf i oo po to s :
  let dt := get_dtype (elt_type cf) in
  (unsafe dt i → (call cf i oo po to s).1 = Raise (UnsafeCast RIn)) ∧
  (castable dt i → ∀ o, oo = Some o → unsafe dt o →
     (call cf i oo po to s).1 = Raise (UnsafeCast ROut)) ∧
  (castable dt i → (∀ o, oo = Some o → castable dt o) →
     ∀ q, po = Some q → unsafe dt q →
     (call cf i oo po to s).1 = Raise (UnsafeCast RPar)) ∧
  (castable dt i → (∀ o, oo = Some o → castable dt o) →
     (∀ q, po = Some q → castable dt q) →
     ∀ t, to = Some (inr t) → unsafe dt t →
     (call cf i oo po to s).1 = Raise (UnsafeCast RTime)).
Proof.
  intros dt. repeat split.
  - intros Hu. apply call_raises. unfold prepare. fold dt.
    apply wp_bind, time_array_spec. intros t0 s1 _ _ _ _.
    apply wp_bind. unfold wp. by rewrite (enforce_dtype_unsafe RIn dt i s1 Hu).
  - intros Hci o -> Hu. apply call_raises. unfold prepare. fold dt.
    apply wp_bind, time_array_spec. intros t0 s1 _ _ _ _.
    apply wp_bind, enforce_dtype_spec.
    { intros Hne Hc. destruct (castable_not _ _ Hci Hne Hc). }
    intros inputs s2 _ _ _ _ _.
    by apply wp_bind, wp_enforce_dtype_opt_unsafe.
  - intros Hci Hco q -> Hu. apply call_raises. unfold prepare. fold dt.
    apply wp_bind, time_array_spec. intros t0 s1 _ _ _ _.
    apply wp_bind, enforce_dtype_spec.
    { intros Hne Hc. destruct (castable_not _ _ Hci Hne Hc). }
    intros inputs s2 _ _ _ _ _.
    apply wp_bind, enforce_dtype_opt_spec.
    { intros o Ho Hne Hc. destruct (castable_not _ _ (Hco o Ho) Hne Hc). }
    intros outputs_ s3 _ _ _.
    by apply wp_bind, wp_enforce_dtype_opt_unsafe.
  - intros Hci Hco Hcq t -> Hu. apply call_raises. unfold prepare. fold dt.
    apply wp_bind, time_array_spec. intros t0 s1 _ _ _ Ht0.
    rewrite (Ht0 t eq_refl).
    apply wp_bind, enforce_dtype_spec.
    { intros Hne Hc. destruct (castable_not _ _ Hci Hne Hc). }
    intros inputs s2 _ _ _ _ _.
    apply wp_bind, enforce_dtype_opt_spec.
    { intros o Ho Hne Hc. destruct (castable_not _ _ (Hco o Ho) Hne Hc). }
    intros outputs_ s3 _ _ _.
    apply wp_bind, enforce_dtype_opt_spec.
    { intros q Hq Hne Hc. destruct (castable_not _ _ (Hcq q Hq) Hne Hc). }
    intros pars s4 _ _ _.
    by apply wp_bind, wp_enforce_dtype_opt_unsafe.
Qed.

(** X5. With arrays that can all be converted, a function with parameters
    called without parameter values is refused as [MissingParameters]; when
    that check passes, a time-dependent function called without time is
    refused as [MissingTime]. Both come before any look at the shape of the
    inputs. *)
Theorem missing_arguments_rejected cf i oo po to s :
  convertible cf i oo po to →
  (0 < nparams cf → po = None →
     (call cf i oo po to s).1 = Raise MissingParameters) ∧
  ((0 < nparams cf → is_Some po) → is_time_dependent cf = true → to = None →
     (call cf i oo po to s).1 = Raise MissingTime).
Proof.
  intros (Hci & Hco & Hcq & Hct). split.
  - intros Hn Hpo. apply call_raises. apply prepare_converted_wp; try done.
    intros inputs outputs_ pars time s5 k _ _ _ HpN _ _ _ ->.
    apply wp_bind, wp_throw_if; [done |]. intros Hc. exfalso.
    rewrite (HpN Hpo) in Hc. apply Z.ltb_lt in Hn. rewrite Hn in Hc. simpl in Hc.
    first [done | rewrite bool_decide_false in Hc; [done | by intros [? ?]]].
  - intros Hpg Htd Hto. apply call_raises. apply prepare_converted_wp; try done.
    intros inputs outputs_ pars time s5 k _ _ _ _ HpS HtN _ ->.
    apply wp_bind, wp_throw_if.
    { intros [Hn Hp]%andb_true_iff. apply Z.ltb_lt in Hn.
      destruct (Hpg Hn) as [q Hq]. destruct (HpS q Hq) as (b & Hb & _).
      rewrite Hb in Hp. apply negb_true_iff, bool_decide_eq_false in Hp.
      destruct Hp. by eexists. }
    intros _. apply wp_bind, wp_throw_if; [done |]. intros Hc. exfalso.
    rewrite (HtN Hto), Htd in Hc. simpl in Hc.
    first [done | rewrite bool_decide_false in Hc; [done | by intros [? ?]]].
Qed.

(** With the conversions and the presence of parameters and time settled,
    the preparation gets to the checks on the inputs. *)
Lemma prepare_present_wp cf i oo po to (Q : result prepared → state → Prop) s :
  convertible cf i oo po to →
  (0 < nparams cf → is_Some po) → (is_time_dependent cf = true → is_Some to) →
  (∀ inputs outputs_ pars time s5 (k : M prepared),
     heap_kept s s5 →
     ndim inputs = ndim i → shape_at inputs 0 = shape_at i 0 →
     (to = None → time = None) →
     (∀ x, to = Some x → is_Some time) →
     k = (throw_if (bool_decide (ndim inputs ≠ 1) && bool_decide (ndim inputs ≠ 2))
                   InvalidDimensionality;;
          n0 <- numeric_cast_u32 RIn (shape_at inputs 0);;
          throw_if (bool_decide (n0 ≠ nvars cf)) (SizeMismatch RIn);;
          throw_if (bool_decide (is_Some time)
                    && negb (bool_decide (ndim inputs = 2))
                    && negb (holds_scalar to))
                   ScalarTimeExpected;;
          outputs <- prepare_outputs cf inputs outputs_ (bool_decide (ndim inputs = 2));;
          (if is_real (elt_type cf)
           then pyreal_check_array RIn inputs (prec cf);;
                pyreal_ensure_array outputs (prec cf)
           else ret tt);;
          check_pars cf inputs pars (bool_decide (ndim inputs = 2));;
          check_time cf inputs time (bool_decide (ndim inputs = 2));;
          ret {| p_inputs := inputs; p_outputs := outputs; p_pars := pars;
                 p_time := time; p_multi_eval := bool_decide (ndim inputs = 2);
                 p_zero_copy := zero_copy_of inputs outputs pars time |}) →
     wp k Q s5) →
  wp (prepare cf i oo po to) Q s.
Proof.
  intros (Hci & Hco & Hcq & Hct) Hpg Htg HQ.
  apply prepare_converted_wp; try done.
  intros inputs outputs_ pars time s5 k K Hish _ _ HpS HtN HtS ->.
  apply wp_bind, wp_throw_if.
  { intros [Hn Hp]%andb_true_iff. apply Z.ltb_lt in Hn.
    destruct (Hpg Hn) as [q Hq]. destruct (HpS q Hq) as (b & Hb & _).
    rewrite Hb in Hp. apply negb_true_iff, bool_decide_eq_false in Hp.
    destruct Hp. by eexists. }
  intros _. apply wp_bind, wp_throw_if.
  { intros [Htd Hp]%andb_true_iff. apply negb_true_iff, bool_decide_eq_false in Hp.
    destruct Hp. destruct (Htg Htd) as [x Hx]. by apply (HtS x). }
  intros _. eapply HQ; [exact K | | | exact HtN | exact HtS | reflexivity].
  - unfold ndim. by rewrite Hish.
  - unfold shape_at. by rewrite Hish.
Qed.

(** X6. With arrays that can be converted and the parameters and time the
    function needs, the inputs are checked next: an array of inputs that has
    neither one nor two dimensions is refused as [InvalidDimensionality];
    then a first size that does not fit in 32 bits is an overflow error
    rather than being wrapped around; then a first size other than the
    number of variables is refused as [SizeMismatch]. *)
Theorem inputs_shape_rejected cf i oo po to s :
  convertible cf i oo po to →
  (0 < nparams cf → is_Some po) → (is_time_dependent cf = true → is_Some to) →
  (ndim i ≠ 1 → ndim i ≠ 2 →
     (call cf i oo po to s).1 = Raise InvalidDimensionality) ∧
  (ndim i = 1 ∨ ndim i = 2 → ¬ 0 ≤ shape_at i 0 ≤ uint32_max →
     (call cf i oo po to s).1 = Raise (NumericCastOverflow RIn)) ∧
  (ndim i = 1 ∨ ndim i = 2 → 0 ≤ shape_at i 0 ≤ uint32_max →
   shape_at i 0 ≠ nvars cf →
     (call cf i oo po to s).1 = Raise (SizeMismatch RIn)).
Proof.
  intros Hc Hpg Htg. repeat split.
  - intros H1 H2. apply call_raises, prepare_present_wp; try done.
    intros inputs outputs_ pars time s5 k _ Hnd _ _ _ ->.
    apply wp_bind, wp_throw_if; [done |]. intros Hf. exfalso.
    rewrite Hnd in Hf. by rewrite !bool_decide_true in Hf by done.
  - intros Hnd Hr. apply call_raises, prepare_present_wp; try done.
    intros inputs outputs_ pars time s5 k _ Hnd' Hs0 _ _ ->.
    apply wp_bind, wp_throw_if.
    { intros [H1 H2]%andb_true_iff. apply bool_decide_eq_true in H1, H2. lia. }
    intros _. apply wp_bind, numeric_cast_u32_wp; [| done].
    rewrite Hs0. intros Hr'. by destruct Hr.
  - intros Hnd Hr Hne. apply call_raises, prepare_present_wp; try done.
    intros inputs outputs_ pars time s5 k _ Hnd' Hs0 _ _ ->.
    apply wp_bind, wp_throw_if.
    { intros [H1 H2]%andb_true_iff. apply bool_decide_eq_true in H1, H2. lia. }
    intros _. apply wp_bind, numeric_cast_u32_wp; [| rewrite Hs0; by intros []].
    intros _. apply wp_bind, wp_throw_if; [done |]. intros Hf. exfalso.
    rewrite Hs0 in Hf. by rewrite bool_decide_true in Hf by done.
Qed.

(** X7. A single evaluation (one-dimensional inputs of the right size) that
    is given an array of time values is refused as [ScalarTimeExpected],
    also when the function does not depend on time at all. *)
Theorem array_time_rejected_in_single_eval cf i oo po to s t :
  convertible cf i oo po to →
  (0 < nparams cf → is_Some po) →
  ndim i = 1 → 0 ≤ shape_at i 0 ≤ uint32_max → shape_at i 0 = nvars cf →
  to = Some (inr t) →
  (call cf i oo po to s).1 = Raise ScalarTimeExpected.
Proof.
  intros Hc Hpg Hnd Hr Hnv Hto. subst to.
  apply call_raises, prepare_present_wp; try done.
  intros inputs outputs_ pars time s5 k _ Hnd' Hs0 _ HtS ->.
  apply wp_bind, wp_throw_if.
  { intros [H1 H2]%andb_true_iff. apply bool_decide_eq_true in H1, H2. lia. }
  intros _. apply wp_bind, numeric_cast_u32_wp; [| rewrite Hs0; by intros []].
  intros _. apply wp_bind, wp_throw_if.
  { intros Hn%bool_decide_eq_true. destruct Hn. lia. }
  intros _. apply wp_bind, wp_throw_if; [done |].
  intros Hf. exfalso. simpl in Hf.
  rewrite bool_decide_true in Hf by (by apply (HtS (inr t))).
  rewrite bool_decide_false in Hf by lia. done.
Qed.

(** X8. With the earlier checks passed, a caller-supplied array of outputs
    (writeable, unless it is converted first) is checked in this order: a
    number of dimensions other than that of the inputs is [DimMismatch]; a
    first size that does not fit in 32 bits is an overflow error; a first
    size other than the number of outputs is [SizeMismatch]; in a batch
    evaluation, a second size other than the number of points is
    [BatchSizeMismatch]. *)
Theorem outputs_shape_rejected cf i o po to s :
  early_checks_pass cf i po to →
  castable (get_dtype (elt_type cf)) o →
  (nd_dtype o = get_dtype (elt_type cf) → nd_writeable o = true) →
  (ndim o ≠ ndim i →
     (call cf i (Some o) po to s).1 = Raise (DimMismatch ROut)) ∧
  (ndim o = ndim i → ¬ 0 ≤ shape_at o 0 ≤ uint32_max →
     (call cf i (Some o) po to s).1 = Raise (NumericCastOverflow ROut)) ∧
  (ndim o = ndim i → 0 ≤ shape_at o 0 ≤ uint32_max → shape_at o 0 ≠ nouts cf →
     (call cf i (Some o) po to s).1 = Raise (SizeMismatch ROut)) ∧
  (ndim o = ndim i → 0 ≤ shape_at o 0 ≤ uint32_max → shape_at o 0 = nouts cf →
   ndim i = 2 → shape_at o 1 ≠ shape_at i 1 →
     (call cf i (Some o) po to s).1 = Raise (BatchSizeMismatch ROut)).
Proof.
  intros He Hco Hw.
  assert (Hstart : ∀ e,
    (∀ inputs b s5,
       nd_shape inputs = nd_shape i → nd_shape b = nd_shape o →
       nd_writeable b = true →
       wp (prepare_outputs cf inputs (Some b) (bool_decide (ndim inputs = 2)))
          (λ r _, r = Raise e) s5) →
    (call cf i (Some o) po to s).1 = Raise e).
  { intros e Hk. apply call_raises, prepare_early_wp; [done | by intros ? [= <-] |].
    intros inputs outputs_ pars time s5 k _ Hish _ HoS _ _ _ _ _ ->.
    destruct (HoS o eq_refl) as (b & -> & Hsh & Hsame & Hconv).
    assert (Hwb : nd_writeable b = true).
    { destruct (decide (nd_dtype o = get_dtype (elt_type cf))) as [Hd|Hd].
      - rewrite (Hsame Hd). by apply Hw.
      - by apply Hconv. }
    apply wp_bind. eapply wp_mono; [by apply Hk |].
    by intros r s' ->. }
  assert (Hnd : ∀ a b : ndarray, nd_shape a = nd_shape b → ndim a = ndim b)
    by (intros a b E; unfold ndim; by rewrite E).
  assert (Hsa : ∀ (a b : ndarray) n, nd_shape a = nd_shape b → shape_at a n = shape_at b n)
    by (intros a b n E; unfold shape_at; by rewrite E).
  repeat split.
  - intros Hne. apply Hstart. intros inputs b s5 Hi Hb Hwb. unfold prepare_outputs.
    apply wp_bind, wp_throw_if; [by rewrite Hwb |]. intros _.
    apply wp_bind, wp_throw_if; [done |]. intros Hf. exfalso.
    rewrite (Hnd _ _ Hi), (Hnd _ _ Hb) in Hf. by rewrite bool_decide_true in Hf.
  - intros Heq Hr. apply Hstart. intros inputs b s5 Hi Hb Hwb. unfold prepare_outputs.
    apply wp_bind, wp_throw_if; [by rewrite Hwb |]. intros _.
    apply wp_bind, wp_throw_if.
    { intros Hf%bool_decide_eq_true. rewrite (Hnd _ _ Hi), (Hnd _ _ Hb) in Hf. done. }
    intros _. apply wp_bind, numeric_cast_u32_wp; [| done].
    rewrite (Hsa _ _ 0%nat Hb). intros Hr'. by destruct Hr.
  - intros Heq Hr Hne. apply Hstart. intros inputs b s5 Hi Hb Hwb.
    unfold prepare_outputs.
    apply wp_bind, wp_throw_if; [by rewrite Hwb |]. intros _.
    apply wp_bind, wp_throw_if.
    { intros Hf%bool_decide_eq_true. rewrite (Hnd _ _ Hi), (Hnd _ _ Hb) in Hf. done. }
    intros _. apply wp_bind, numeric_cast_u32_wp;
      [| rewrite (Hsa _ _ 0%nat Hb); by intros []].
    intros _. apply wp_bind, wp_throw_if; [done |]. intros Hf. exfalso.
    rewrite (Hsa _ _ 0%nat Hb) in Hf. by rewrite bool_decide_true in Hf.
  - intros Heq Hr Hno Hi2 Hne. apply Hstart. intros inputs b s5 Hi Hb Hwb.
    unfold prepare_outputs.
    apply wp_bind, wp_throw_if; [by rewrite Hwb |]. intros _.
    apply wp_bind, wp_throw_if.
    { intros Hf%bool_decide_eq_true. rewrite (Hnd _ _ Hi), (Hnd _ _ Hb) in Hf. done. }
    intros _. apply wp_bind, numeric_cast_u32_wp;
      [| rewrite (Hsa _ _ 0%nat Hb); by intros []].
    intros _. apply wp_bind, wp_throw_if.
    { intros Hf%bool_decide_eq_true. rewrite (Hsa _ _ 0%nat Hb) in Hf. done. }
    intros _. apply wp_bind, wp_throw_if; [done |]. intros Hf. exfalso.
    rewrite (Hnd _ _ Hi), (Hsa _ _ 1%nat Hb), (Hsa _ _ 1%nat Hi) in Hf.
    by rewrite !bool_decide_true in Hf.
Qed.

(** For the fixed-size element types, a call that passes the early checks
    and whose array of outputs is as it must be gets to the checks on the
    parameters. *)
Lemma prepare_outputs_ready_wp cf i oo po to (Q : result prepared → state → Prop) s :
  cfunc_wf cf → is_real (elt_type cf) = false →
  early_checks_pass cf i po to → outputs_pass cf i oo →
  (∀ inputs outputs pars time s6 (k : M prepared),
     nd_shape inputs = nd_shape i →
     (po = None → pars = None) →
     (∀ q, po = Some q → ∃ b, pars = Some b ∧ nd_shape b = nd_shape q) →
     (to = None → time = None) →
     (∀ t, to = Some (inr t) → ∃ b, time = Some b ∧ nd_shape b = nd_shape t) →
     (∀ v, to = Some (inl v) → ∃ b, time = Some b ∧ nd_shape b = [1]) →
     k = (check_pars cf inputs pars (bool_decide (ndim inputs = 2));;
          check_time cf inputs time (bool_decide (ndim inputs = 2));;
          ret {| p_inputs := inputs; p_outputs := outputs; p_pars := pars;
                 p_time := time; p_multi_eval := bool_decide (ndim inputs = 2);
                 p_zero_copy := zero_copy_of inputs outputs pars time |}) →
     wp k Q s6) →
  wp (prepare cf i oo po to) Q s.
Proof.
  intros (_ & Hwo & _) Hnr He Ho HQ.
  apply prepare_early_wp; [done | intros o Ho'; by destruct (Ho o Ho') |].
  intros inputs outputs_ pars time s5 k _ Hish HoN HoS HpN HpS HtN HtS HtV ->.
  assert (Hnd : ndim inputs = ndim i) by (unfold ndim; by rewrite Hish).
  assert (Hs1 : shape_at inputs 1 = shape_at i 1) by (unfold shape_at; by rewrite Hish).
  apply wp_bind.
  assert (Hout : ∃ outputs s6,
    prepare_outputs cf inputs outputs_ (bool_decide (ndim inputs = 2)) s5
    = (Ok outputs, s6)).
  { destruct oo as [o|].
    - destruct (Ho o eq_refl) as (Hc & Hw & Hd & Hn & Hb).
      destruct (HoS o eq_refl) as (b & -> & Hsb & Hsame & Hconv).
      exists b, s5.
      assert (Hndb : ndim b = ndim o) by (unfold ndim; by rewrite Hsb).
      assert (Hsab : ∀ n, shape_at b n = shape_at o n)
        by (intros n; unfold shape_at; by rewrite Hsb).
      apply prepare_outputs_given.
      + destruct (decide (nd_dtype o = get_dtype (elt_type cf))) as [Hdt|Hdt].
        * rewrite (Hsame Hdt). by apply Hw.
        * by apply Hconv.
      + congruence.
      + rewrite Hsab, Hn. done.
      + by rewrite Hsab.
      + intros Hm%bool_decide_eq_true. rewrite Hsab, Hs1. apply Hb. congruence.
    - rewrite (HoN eq_refl). simpl. destruct (bool_decide _); by eexists _, _. }
  destruct Hout as (outputs & s6 & Hpo). unfold wp at 1. rewrite Hpo. simpl.
  rewrite Hnr. apply wp_bind, wp_ret.
  by eapply HQ.
Qed.

(** X9. For the fixed-size element types, with everything before passed
    (early checks, array of outputs), a caller-supplied array of parameter
    values is checked in this order: a number of dimensions other than that
    of the inputs is [DimMismatch]; a first size that does not fit in 32
    bits is an overflow error; a first size other than the number of
    parameters is [SizeMismatch]; in a batch evaluation, a second size other
    than the number of points is [BatchSizeMismatch]. *)
Theorem pars_shape_rejected cf i oo q to s :
  cfunc_wf cf → is_real (elt_type cf) = false →
  early_checks_pass cf i (Some q) to → outputs_pass cf i oo →
  (ndim q ≠ ndim i →
     (call cf i oo (Some q) to s).1 = Raise (DimMismatch RPar)) ∧
  (ndim q = ndim i → ¬ 0 ≤ shape_at q 0 ≤ uint32_max →
     (call cf i oo (Some q) to s).1 = Raise (NumericCastOverflow RPar)) ∧
  (ndim q = ndim i → 0 ≤ shape_at q 0 ≤ uint32_max → shape_at q 0 ≠ nparams cf →
     (call cf i oo (Some q) to s).1 = Raise (SizeMismatch RPar)) ∧
  (ndim q = ndim i → 0 ≤ shape_at q 0 ≤ uint32_max → shape_at q 0 = nparams cf →
   ndim i = 2 → shape_at q 1 ≠ shape_at i 1 →
     (call cf i oo (Some q) to s).1 = Raise (BatchSizeMismatch RPar)).
Proof.
  intros Hwf Hnr He Ho.
  assert (Hstart : ∀ e,
    (∀ inputs b s6,
       nd_shape inputs = nd_shape i → nd_shape b = nd_shape q →
       wp (check_pars cf inputs (Some b) (bool_decide (ndim inputs = 2)))
          (λ r _, r = Raise e) s6) →
    (call cf i oo (Some q) to s).1 = Raise e).
  { intros e Hk. apply call_raises, prepare_outputs_ready_wp; try done.
    intros inputs outputs pars time s6 k Hish _ HpS _ _ _ ->.
    destruct (HpS q eq_refl) as (b & -> & Hsb).
    apply wp_bind. eapply wp_mono; [by apply Hk |].
    by intros r s' ->. }
  assert (Hnd : ∀ a b : ndarray, nd_shape a = nd_shape b → ndim a = ndim b)
    by (intros a b E; unfold ndim; by rewrite E).
  assert (Hsa : ∀ (a b : ndarray) n, nd_shape a = nd_shape b → shape_at a n = shape_at b n)
    by (intros a b n E; unfold shape_at; by rewrite E).
  repeat split.
  - intros Hne. apply Hstart. intros inputs b s6 Hi Hb. unfold check_pars.
    apply wp_bind, wp_throw_if; [done |]. intros Hf. exfalso.
    rewrite (Hnd _ _ Hi), (Hnd _ _ Hb) in Hf. by rewrite bool_decide_true in Hf.
  - intros Heq Hr. apply Hstart. intros inputs b s6 Hi Hb. unfold check_pars.
    apply wp_bind, wp_throw_if.
    { intros Hf%bool_decide_eq_true. rewrite (Hnd _ _ Hi), (Hnd _ _ Hb) in Hf. done. }
    intros _. apply wp_bind, numeric_cast_u32_wp; [| done].
    rewrite (Hsa _ _ 0%nat Hb). intros Hr'. by destruct Hr.
  - intros Heq Hr Hne. apply Hstart. intros inputs b s6 Hi Hb. unfold check_pars.
    apply wp_bind, wp_throw_if.
    { intros Hf%bool_decide_eq_true. rewrite (Hnd _ _ Hi), (Hnd _ _ Hb) in Hf. done. }
    intros _. apply wp_bind, numeric_cast_u32_wp;
      [| rewrite (Hsa _ _ 0%nat Hb); by intros []].
    intros _. apply wp_bind, wp_throw_if; [done |]. intros Hf. exfalso.
    rewrite (Hsa _ _ 0%nat Hb) in Hf. by rewrite bool_decide_true in Hf.
  - intros Heq Hr Hno Hi2 Hne. apply Hstart. intros inputs b s6 Hi Hb.
    unfold check_pars.
    apply wp_bind, wp_throw_if.
    { intros Hf%bool_decide_eq_true. rewrite (Hnd _ _ Hi), (Hnd _ _ Hb) in Hf. done. }
    intros _. apply wp_bind, numeric_cast_u32_wp;
      [| rewrite (Hsa _ _ 0%nat Hb); by intros []].
    intros _. apply wp_bind, wp_throw_if.
    { intros Hf%bool_decide_eq_true. rewrite (Hsa _ _ 0%nat Hb) in Hf. done. }
    intros _. apply wp_bind, wp_throw_if; [done |]. intros Hf. exfalso.
    rewrite (Hnd _ _ Hi), (Hsa _ _ 1%nat Hb), (Hsa _ _ 1%nat Hi) in Hf.
    by rewrite !bool_decide_true in Hf.
Qed.

(** The checks on an array of parameter values that is as it must be. *)
Lemma check_pars_given cf inputs pars multi s :
  is_real (elt_type cf) = false → 0 ≤ nparams cf ≤ uint32_max →
  (∀ q, pars = Some q →
     ndim q = ndim inputs ∧ shape_at q 0 = nparams cf ∧
     (multi = true → shape_at q 1 = shape_at inputs 1)) →
  check_pars cf inputs pars multi s = (Ok tt, s).
Proof.
  intros Hnr Hr Hq. destruct pars as [q|]; [| done].
  destruct (Hq q eq_refl) as (Hd & Hn & Hm).
  unfold check_pars, numeric_cast_u32, bind. simpl.
  rewrite bool_decide_false by (intros Hx; by apply Hx). simpl.
  rewrite (proj2 (Z.leb_le _ _)) by lia.
  rewrite (proj2 (Z.leb_le _ _)) by lia. simpl.
  rewrite bool_decide_false by (intros Hx; by apply Hx). simpl.
  rewrite Hnr. destruct multi; simpl; [| done].
  by rewrite bool_decide_false by (intros Hx; by apply Hx, Hm).
Qed.

Lemma check_time_given cf inputs time multi s :
  is_real (elt_type cf) = false →
  (∀ t, time = Some t →
     ndim t = 1 ∧ (multi = true → shape_at t 0 = shape_at inputs 1)) →
  check_time cf inputs time multi s = (Ok tt, s).
Proof.
  intros Hnr Ht. destruct time as [t|]; [| done].
  destruct (Ht t eq_refl) as (Hd & Hm).
  unfold check_time, bind. simpl.
  rewrite bool_decide_false by (intros Hx; by apply Hx). simpl.
  rewrite Hnr. destruct multi; simpl; [| done].
  by rewrite bool_decide_false by (intros Hx; by apply Hx, Hm).
Qed.

(** For the fixed-size element types, a call that passes every check up to
    the parameters gets to the checks on time. *)
Lemma prepare_pars_ready_wp cf i oo po to (Q : result prepared → state → Prop) s :
  cfunc_wf cf → is_real (elt_type cf) = false →
  early_checks_pass cf i po to → outputs_pass cf i oo → pars_pass cf i po →
  (∀ inputs outputs pars time s6 (k : M prepared),
     nd_shape inputs = nd_shape i →
     (to = None → time = None) →
     (∀ t, to = Some (inr t) → ∃ b, time = Some b ∧ nd_shape b = nd_shape t) →
     (∀ v, to = Some (inl v) → ∃ b, time = Some b ∧ nd_shape b = [1]) →
     k = (check_time cf inputs time (bool_decide (ndim inputs = 2));;
          ret {| p_inputs := inputs; p_outputs := outputs; p_pars := pars;
                 p_time := time; p_multi_eval := bool_decide (ndim inputs = 2);
                 p_zero_copy := zero_copy_of inputs outputs pars time |}) →
     wp k Q s6) →
  wp (prepare cf i oo po to) Q s.
Proof.
  intros Hwf Hnr He Ho Hp HQ. apply prepare_outputs_ready_wp; try done.
  intros inputs outputs pars time s6 k Hish HpN HpS HtN HtS HtV ->.
  apply wp_bind. unfold wp at 1. rewrite check_pars_given; [| done | apply Hwf |].
  - simpl. by eapply HQ.
  - intros b Hb. destruct po as [q|]; [| by rewrite (HpN eq_refl) in Hb].
    destruct (HpS q eq_refl) as (b' & Hb' & Hsb). rewrite Hb in Hb'.
    injection Hb' as <-. destruct (Hp q eq_refl) as (Hd & Hn & Hm).
    rewrite (ndim_shape _ _ Hsb), (ndim_shape _ _ Hish).
    rewrite !(shape_at_shape _ _ _ Hsb), (shape_at_shape _ _ _ Hish).
    split; [done |]. split; [done |].
    intros Hm'%bool_decide_eq_true. by apply Hm.
Qed.


(** ** The calls that are accepted *)

(** What is known of the arguments once a conversion has succeeded. *)
Lemma enforce_dtype_inv r dt a (Q : result ndarray → state → Prop) s :
  (∀ e, Q (Raise e) s) →
  (∀ b s', castable dt a → nd_shape b = nd_shape a → nd_dtype b = dt →
     (nd_dtype a = dt → b = a) → (nd_dtype a ≠ dt → nd_writeable b = true) →
     Q (Ok b) s') →
  wp (enforce_dtype r dt a) Q s.
Proof.
  intros HR HQ. unfold wp, enforce_dtype.
  destruct (decide (nd_dtype a = dt)) as [Hd|Hd].
  - rewrite bool_decide_false by (intros Hx; by apply Hx). simpl.
    apply HQ; try done. by left.
  - rewrite bool_decide_true by done. unfold astype.
    destruct (can_cast_safe (nd_dtype a) dt) eqn:Hc; [| apply HR].
    simpl. apply HQ; try done. by right.
Qed.

Lemma enforce_dtype_opt_inv r dt oa (Q : result (option ndarray) → state → Prop) s :
  (∀ e, Q (Raise e) s) →
  (∀ ob s',
     (oa = None → ob = None) →
     (∀ a, oa = Some a → castable dt a ∧
        ∃ b, ob = Some b ∧ nd_shape b = nd_shape a ∧ nd_dtype b = dt ∧
             (nd_dtype a = dt → b = a) ∧ (nd_dtype a ≠ dt → nd_writeable b = true)) →
     Q (Ok ob) s') →
  wp (enforce_dtype_opt r dt oa) Q s.
Proof.
  intros HR HQ. destruct oa as [a|]; simpl.
  - apply wp_bind, enforce_dtype_inv; [done |].
    intros b s' Hc Hsh Hdt Hsame Hw. apply wp_ret, HQ; [done |].
    intros ? [= <-]. split; [done |]. by exists b.
  - by apply wp_ret, HQ.
Qed.

Lemma wp_bind_any {A B} (m : M A) (k : A → M B) (Q : result B → state → Prop) s :
  (∀ e s', Q (Raise e) s') → (∀ a s', wp (k a) Q s') → wp (bind m k) Q s.
Proof.
  intros HR Hk. unfold wp, bind. destruct (m s) as [[a|e] s']; [apply Hk | apply HR].
Qed.

(** The arguments of a call whose preparation succeeds pass every check, and
    the arrays the evaluation works on have the dtype of [T]. *)
Lemma prepare_ok_valid cf i oo po to s p :
  (prepare cf i oo po to s).1 = Ok p →
  valid_call cf i oo po to ∧
  nd_dtype (p_inputs p) = get_dtype (elt_type cf) ∧
  nd_dtype (p_outputs p) = get_dtype (elt_type cf).
Proof.
  intros Hp.
  cut (wp (prepare cf i oo po to)
          (λ r _, ∀ p, r = Ok p →
             valid_call cf i oo po to ∧
             nd_dtype (p_inputs p) = get_dtype (elt_type cf) ∧
             nd_dtype (p_outputs p) = get_dtype (elt_type cf)) s).
  { intros Hw. by apply Hw. }
  clear p Hp. unfold prepare. set (dt := get_dtype (elt_type cf)).
  apply wp_bind, time_array_spec. intros t0 s1 _ Ht0N Ht0 Ht0A.
  apply wp_bind, enforce_dtype_inv; [done |].
  intros inputs s2 Hci Hish Hidt _ _.
  apply wp_bind, enforce_dtype_opt_inv; [done |]. intros outputs_ s3 HoN HoS.
  apply wp_bind, enforce_dtype_opt_inv; [done |]. intros pars s4 HpN HpS.
  apply wp_bind, enforce_dtype_opt_inv; [done |]. intros time s5 HtN HtS.
  apply wp_bind, wp_throw_if; [done |]. intros Hc1.
  apply wp_bind, wp_throw_if; [done |]. intros Hc2.
  apply wp_bind, wp_throw_if; [done |]. intros Hc3.
  apply wp_bind, numeric_cast_u32_wp; [| done]. intros Hr.
  apply wp_bind, wp_throw_if; [done |]. intros Hc4.
  apply wp_bind, wp_throw_if; [done |]. intros Hc5.
  assert (Hnd : ndim inputs = ndim i) by by apply ndim_shape.
  assert (Hsi : ∀ n, shape_at inputs n = shape_at i n)
    by (intros n; by apply shape_at_shape).
  assert (Htime : ∀ x, to = Some x → ∃ a b, t0 = Some a ∧ time = Some b ∧
            nd_shape b = nd_shape a ∧ castable dt a ∧
            match x with inl _ => nd_shape a = [1] | inr t => a = t end).
  { intros [v|t] Hx.
    - destruct (Ht0 v Hx) as (d & Hd). destruct (HtS _ Hd) as (Hc & b & Hb & Hsb & _).
      by exists (dense_array dt [1] d), b.
    - destruct (HtS _ (Ht0A t Hx)) as (Hc & b & Hb & Hsb & _).
      exists t, b. by rewrite (Ht0A t Hx). }
  assert (He : early_checks_pass cf i po to).
  { unfold early_checks_pass. fold dt. rewrite <- Hnd, <- !Hsi.
    split; [done |]. split; [intros q Hq'; by destruct (HpS q Hq') |].
    split; [intros t Hx; by destruct (Htime _ Hx) as (a & b & _ & _ & _ & Hc & ->) |].
    split.
    { intros Hn%Z.ltb_lt. rewrite Hn in Hc1. simpl in Hc1.
      apply negb_false_iff, bool_decide_eq_true in Hc1.
      destruct po; [done |]. rewrite (HpN eq_refl) in Hc1. by destruct Hc1. }
    split.
    { intros Htd. rewrite Htd in Hc2. simpl in Hc2.
      apply negb_false_iff, bool_decide_eq_true in Hc2.
      destruct to; [done |]. rewrite (HtN (Ht0N eq_refl)) in Hc2. by destruct Hc2. }
    split.
    { apply andb_false_iff in Hc3 as [Hc3|Hc3]; apply bool_decide_eq_false in Hc3.
      - left. by apply dec_stable.
      - right. by apply dec_stable. }
    split; [done |]. split.
    { apply bool_decide_eq_false in Hc4. by apply dec_stable. }
    intros H1 t Hx. destruct (Htime _ Hx) as (a & b & _ & Hb & _).
    rewrite Hb, Hx, H1 in Hc5.
    rewrite bool_decide_true in Hc5 by (by eexists).
    by rewrite bool_decide_false in Hc5 by done. }
  assert (Hrest : ∀ outputs s6,
    outputs_pass cf i oo → nd_dtype outputs = dt →
    wp (check_pars cf inputs pars (bool_decide (ndim inputs = 2));;
        check_time cf inputs time (bool_decide (ndim inputs = 2));;
        ret {| p_inputs := inputs; p_outputs := outputs; p_pars := pars;
               p_time := time; p_multi_eval := bool_decide (ndim inputs = 2);
               p_zero_copy := zero_copy_of inputs outputs pars time |})
       (λ r _, ∀ p, r = Ok p →
          valid_call cf i oo po to ∧
          nd_dtype (p_inputs p) = dt ∧ nd_dtype (p_outputs p) = dt) s6).
  { intros outputs s6 Ho Hdo.
    apply wp_bind, check_pars_wp; [done |]. intros Hq.
    apply wp_bind, check_time_wp; [done |]. intros Ht.
    apply wp_ret. intros p [= <-]. simpl. split; [| done].
    split; [done |]. split; [done |]. split.
    - intros q Hq'. destruct (HpS q Hq') as (_ & b & Hb & Hsb & _).
      destruct (Hq b Hb) as (Hd & Hn & Hm & _).
      rewrite <- Hnd, <- (ndim_shape _ _ Hsb), <- !(shape_at_shape _ _ _ Hsb), <- Hsi.
      split; [done |]. split; [done |].
      intros H2. apply Hm. by apply bool_decide_eq_true.
    - intros x Hx. destruct (Htime _ Hx) as (a & b & _ & Hb & Hsb & _ & Hx').
      destruct (Ht b Hb) as (Hd & Hm & _). destruct x as [v|t].
      + intros H2. rewrite <- Hsi, <- Hm by (apply bool_decide_eq_true; congruence).
        unfold shape_at. by rewrite Hsb, Hx'.
      + subst a. rewrite <- Hnd, <- (ndim_shape _ _ Hsb), <- (shape_at_shape _ _ _ Hsb), <- Hsi.
        split; [done |]. intros H2. apply Hm. by apply bool_decide_eq_true. }
  apply wp_bind, prepare_outputs_wp; [done | |].
  - (* the array of outputs of the caller *)
    intros b -> Hwb Hdb Hnb Hmb. apply wp_bind_any; [done |]. intros _ s6.
    destruct oo as [o|]; [| by specialize (HoN eq_refl)].
    destruct (HoS o eq_refl) as (Hco & b' & [= <-] & Hsb & Hdtb & Hsame & _).
    apply Hrest; [| done].
    intros ? [= <-]. split; [done |]. split.
    { intros Hd. rewrite <- (Hsame Hd). done. }
    rewrite <- Hnd, <- (ndim_shape _ _ Hsb), <- !(shape_at_shape _ _ _ Hsb), <- Hsi.
    split; [done |]. split; [done |].
    intros H2. apply Hmb. by apply bool_decide_eq_true.
  - (* a new array of outputs *)
    intros s6 -> _ _. apply wp_bind_any; [done |]. intros _ s7.
    destruct oo as [o|].
    { destruct (HoS o eq_refl) as (_ & b' & [=] & _). }
    apply Hrest; [by intros ? [=] | done].
Qed.

(** For the fixed-size element types, the preparation of a call whose
    arguments pass every check succeeds. *)
Lemma valid_prepare_ok cf i oo po to s :
  cfunc_wf cf → is_real (elt_type cf) = false → valid_call cf i oo po to →
  ∃ p, (prepare cf i oo po to s).1 = Ok p.
Proof.
  intros Hwf Hnr (He & Ho & Hp & Ht).
  change (wp (prepare cf i oo po to) (λ r _, ∃ p, r = Ok p) s).
  apply prepare_pars_ready_wp; try done.
  intros inputs outputs pars time s6 k Hish HtN HtS HtV ->.
  apply wp_bind. unfold wp at 1. rewrite check_time_given; [| done |].
  - simpl. by eexists.
  - intros b Hb. rewrite (ndim_shape _ _ Hish), (shape_at_shape _ _ _ Hish).
    destruct to as [[v|t]|]; [| | by rewrite (HtN eq_refl) in Hb].
    + destruct (HtV v eq_refl) as (b' & Hb' & Hsb). rewrite Hb in Hb'.
      injection Hb' as <-. specialize (Ht _ eq_refl). simpl in Ht.
      unfold ndim, shape_at at 1. rewrite Hsb. split; [done |].
      intros Hm%bool_decide_eq_true. simpl. symmetry. by apply Ht.
    + destruct (HtS t eq_refl) as (b' & Hb' & Hsb). rewrite Hb in Hb'.
      injection Hb' as <-. destruct (Ht _ eq_refl) as (Hd & Hm).
      rewrite (ndim_shape _ _ Hsb), (shape_at_shape _ _ _ Hsb). split; [done |].
      intros Hm'%bool_decide_eq_true. by apply Hm.
Qed.

(** X11. For the fixed-size element types, the dispatcher accepts exactly
    the calls whose arguments are valid: the call returns if and only if
    every array can be converted, the parameters and the time the function
    needs are given, the inputs have one or two dimensions and one row per
    variable, an array of time values is only given in a batch evaluation,
    and outputs, parameters and time have the shapes the inputs ask for. *)
Theorem call_accepted_iff_valid cf i oo po to s :
  cfunc_wf cf → is_real (elt_type cf) = false →
  (∃ out, (call cf i oo po to s).1 = Ok out) ↔ valid_call cf i oo po to.
Proof.
  intros Hwf Hnr. split.
  - intros (out & Hc). apply call_ok_inv in Hc as (p & Hp & _).
    by destruct (prepare_ok_valid _ _ _ _ _ _ _ Hp).
  - intros Hv. destruct (valid_prepare_ok cf i oo po to s Hwf Hnr Hv) as (p & Hp).
    exists (p_outputs p). by apply call_ok.
Qed.

(** X12. The array a call returns has the dtype of [T], is writeable, and
    has the shape (nouts,) in a single evaluation and (nouts, N) in a batch
    evaluation of [N] points. *)
Theorem returned_array_shape cf i oo po to s out :
  (call cf i oo po to s).1 = Ok out →
  nd_dtype out = get_dtype (elt_type cf) ∧
  nd_writeable out = true ∧
  nd_shape out = (if bool_decide (ndim i = 2) then [nouts cf; shape_at i 1]
                  else [nouts cf]).
Proof.
  intros Hc. apply call_ok_inv in Hc as (p & Hp & ->).
  destruct (prepare_ok_valid _ _ _ _ _ _ _ Hp) as (_ & _ & Hdt).
  destruct (prepare_ok _ _ _ _ _ _ _ Hp) as (_ & Hv & Hsh & _).
  split; [done |]. split; [apply Hv |].
  assert (Hnd := ndim_shape _ _ Hsh).
  assert (Hs1 := shape_at_shape _ _ 1%nat Hsh).
  assert (Hm := v_multi _ _ Hv). rewrite Hnd in Hm.
  assert (Hon := v_out_ndim _ _ Hv). rewrite Hnd in Hon.
  case_bool_decide as E.
  - rewrite E in Hon. destruct (ndim_2_shape _ Hon) as (n0 & n1 & Ho & H0 & H1).
    rewrite Ho. f_equal.
    + rewrite <- H0. apply Hv.
    + f_equal. rewrite <- H1, <- Hs1. by apply (v_out_nevals _ _ Hv).
  - destruct (v_ndim _ _ Hv) as [H1|H2]; [| congruence].
    rewrite Hnd in H1. rewrite H1 in Hon.
    destruct (ndim_1_shape _ Hon) as (n0 & Ho & H0). rewrite Ho. f_equal.
    rewrite <- H0. apply Hv.
Qed.

(** ** What a batch evaluation computes *)

Lemma row_major_inj N i j i' j' :
  0 ≤ j < N → 0 ≤ j' < N → i * N + j = i' * N + j' → i = i' ∧ j = j'.
Proof. intros Hj Hj' E. assert (i = i') by nia. subst. lia. Qed.

Lemma NoDup_row_offsets N j n : 0 ≤ j < N → NoDup ((λ i, i * N + j) <$> seqZ 0 n).
Proof.
  intros Hj. apply NoDup_fmap_2_strong; [| apply NoDup_seqZ].
  intros i i' _ _ E. by destruct (row_major_inj N i j i' j Hj Hj E).
Qed.

(** The lanes of a kernel written one after the other through a heap
    pointer: a cell that no lane writes is as before, and every lane is in
    place in the end. *)
Lemma foldl_store_lane_heap cf d N (l : list (Z * list cell)) s :
  NoDup (l.*1) →
  Forall (λ jv, 0 ≤ jv.1 < N ∧ length jv.2 = Z.to_nat (nouts cf)) l →
  (∀ x, (∀ i j, 0 ≤ i < nouts cf → j ∈ l.*1 → x ≠ d + (i * N + j)) →
     heap (foldl (store_lane cf (Some (LHeap d)) N) s l) x = heap s x) ∧
  (∀ j vals, (j, vals) ∈ l →
     (λ i, heap (foldl (store_lane cf (Some (LHeap d)) N) s l) (d + (i * N + j)))
       <$> seqZ 0 (nouts cf) = vals).
Proof.
  revert s. induction l as [|[j0 v0] l IH]; intros s Hnd Hl.
  { split; [done |]. intros j vals Hin. by apply elem_of_nil in Hin. }
  apply NoDup_cons in Hnd as [Hj0 Hnd]. apply Forall_cons in Hl as [[Hr0 Hlen0] Hl].
  simpl in Hr0, Hlen0. cbn [foldl].
  set (s1 := store_lane cf (Some (LHeap d)) N s (j0, v0)).
  destruct (IH s1 Hnd Hl) as [IHa IHb].
  assert (Hother : ∀ x, (∀ i, 0 ≤ i < nouts cf → x ≠ d + (i * N + j0)) →
            heap s1 x = heap s x).
  { intros x Hx. unfold s1, store_lane. cbn [fst snd].
    apply store_list_heap_other. rewrite <- list_fmap_compose.
    intros (i & Hxi & Hi)%list_elem_of_fmap. apply elem_of_seqZ in Hi.
    apply (Hx i); [lia | exact Hxi]. }
  split.
  - intros x Hx. rewrite IHa.
    + apply Hother. intros i Hi. apply Hx; [done |]. simpl. by left.
    + intros i j Hi Hj. apply Hx; [done |]. simpl. by right.
  - intros j vals [[= -> ->]|Hin]%elem_of_cons; [| by apply IHb].
    etrans; [apply list_fmap_ext; intros n i Hi; apply IHa |].
    + apply list_elem_of_lookup_2, elem_of_seqZ in Hi.
      intros i' j Hi' Hj E. assert (d + (i * N + j0) = d + (i' * N + j)) as E' by exact E.
      assert (Hjr : 0 ≤ j < N).
      { apply list_elem_of_fmap in Hj as ([j' v'] & -> & Hjv).
        rewrite Forall_forall in Hl. by destruct (Hl _ Hjv). }
      destruct (row_major_inj N i j0 i' j Hr0 Hjr) as [_ <-]; [lia | done].
    + unfold s1, store_lane. cbn [fst snd].
      assert (Hr := store_list_heap_read d ((λ i, i * N + j0) <$> seqZ 0 (nouts cf)) v0 s).
      rewrite <- list_fmap_compose in Hr. apply Hr; [by apply NoDup_row_offsets |].
      by rewrite length_fmap, length_seqZ.
Qed.

(** A strided kernel of width [w] writing through a heap pointer. *)
Lemma kernel_strided_heap cf w N d pi pp pt s :
  0 ≤ w ≤ N →
  (∀ x, (∀ i j, 0 ≤ i < nouts cf → 0 ≤ j < w → x ≠ d + (i * N + j)) →
     heap (kernel cf w N (Some (LHeap d)) pi pp pt s).2 x = heap s x) ∧
  (∀ j, 0 ≤ j < w →
     (λ i, heap (kernel cf w N (Some (LHeap d)) pi pp pt s).2 (d + (i * N + j)))
       <$> seqZ 0 (nouts cf)
     = lane_result cf s pi pp pt N j).
Proof.
  intros Hw. unfold kernel. cbn [snd].
  set (lanes := (λ j, (j, lane_result cf s pi pp pt N j)) <$> seqZ 0 w).
  assert (Hfst : lanes.*1 = seqZ 0 w).
  { unfold lanes. rewrite <- list_fmap_compose.
    rewrite <- (list_fmap_id (seqZ 0 w)) at 2. by apply list_fmap_ext. }
  destruct (foldl_store_lane_heap cf d N lanes s) as [Ha Hb].
  - rewrite Hfst. apply NoDup_seqZ.
  - unfold lanes. apply Forall_fmap, Forall_seqZ. intros j Hj. simpl.
    split; [lia |]. by rewrite lane_result_point, length_point_result.
  - split.
    + intros x Hx. apply Ha. intros i j Hi Hj. rewrite Hfst in Hj.
      apply elem_of_seqZ in Hj. apply Hx; [done | lia].
    + intros j Hj. apply Hb. unfold lanes. apply list_elem_of_fmap.
      exists j. split; [done |]. apply elem_of_seqZ. lia.
Qed.

Lemma contiguous_2d a n0 n1 :
  nd_shape a = [n0; n1] → is_npy_array_carray a = true → backed a →
  ∃ d, data_ptr a = Some (LHeap d) ∧ ∀ i j, addr2 a i j = d + (i * n1 + j).
Proof.
  intros Hs [Hc _]%andb_true_iff [d Hd]. exists d.
  unfold data_ptr, addr2, base_addr, stride_at. rewrite Hd.
  apply bool_decide_eq_true in Hc. rewrite Hc, Hs. simpl. split; [done |].
  intros i j. lia.
Qed.

Lemma contiguous_time a n :
  nd_shape a = [n] → is_npy_array_carray a = true → backed a →
  ∃ d, data_ptr a = Some (LHeap d) ∧ ∀ k, addr1 a k = d + k.
Proof.
  intros Hs Hc Hb. destruct (contiguous_1d a n Hs Hc Hb) as (d & Hd & Ha).
  exists d. split; [done |]. intros k. rewrite Ha. lia.
Qed.

(** The values a kernel reads at one point, through the pointers of the
    zero-copy path, are the values of the arrays at that point. *)
Section ZeroCopyBatch.

Variables (cf : cfunc) (p : prepared).
Hypothesis Hv : validated cf p.
Hypothesis Hwf : cfunc_wf cf.
Hypothesis Hm : p_multi_eval p = true.
Hypothesis Hz : p_zero_copy p = true.
Hypothesis Hb : Forall backed (supplied p).

Let N := shape_at (p_inputs p) 1.

Lemma zero_copy_batch_layout :
  (∃ d, data_ptr (p_inputs p) = Some (LHeap d) ∧
        ∀ i k, addr2 (p_inputs p) i k = d + (i * N + k)) ∧
  (∃ d, data_ptr (p_outputs p) = Some (LHeap d) ∧
        ∀ i k, addr2 (p_outputs p) i k = d + (i * N + k)) ∧
  (∀ q, p_pars p = Some q →
     ∃ d, data_ptr q = Some (LHeap d) ∧ ∀ i k, addr2 q i k = d + (i * N + k)) ∧
  (∀ t, p_time p = Some t →
     ∃ d, data_ptr t = Some (LHeap d) ∧ ∀ k, addr1 t k = d + k) ∧
  outputs_apart p.
Proof.
  assert (Hnd : ndim (p_inputs p) = 2).
  { rewrite (v_multi _ _ Hv) in Hm. by apply bool_decide_eq_true in Hm. }
  assert (Hzc := Hz). rewrite (v_zero_copy _ _ Hv) in Hzc.
  apply zero_copy_of_true in Hzc as [Hc Hs].
  rewrite Forall_forall in Hc. assert (Hb' := Hb). rewrite Forall_forall in Hb'.
  destruct (ndim_2_shape _ Hnd) as (n0 & n1 & Hsi & _ & Hi1). fold N in Hi1. subst n1.
  assert (Hndo : ndim (p_outputs p) = 2) by (by rewrite (v_out_ndim _ _ Hv)).
  destruct (ndim_2_shape _ Hndo) as (m0 & m1 & Hso & _ & Ho1).
  rewrite (v_out_nevals _ _ Hv Hm) in Ho1. fold N in Ho1. subst m1.
  split; [| split; [| split; [| split]]].
  - apply (contiguous_2d _ _ _ Hsi); [apply Hc | apply Hb']; apply supplied_inputs.
  - apply (contiguous_2d _ _ _ Hso); [apply Hc | apply Hb']; apply supplied_outputs.
  - intros q Hq. destruct (v_pars _ _ Hv q Hq) as (Hdq & _ & Hq1).
    rewrite Hnd in Hdq. destruct (ndim_2_shape _ Hdq) as (q0 & q1 & Hsq & _ & Hq1').
    rewrite (Hq1 Hm) in Hq1'. fold N in Hq1'. subst q1.
    apply (contiguous_2d _ _ _ Hsq); [apply Hc | apply Hb']; by apply supplied_pars.
  - intros t Ht. destruct (v_time _ _ Hv t Ht) as (Hdt & _ & _).
    destruct (ndim_1_shape _ Hdt) as (t0 & Hst & _).
    apply (contiguous_time _ _ Hst); [apply Hc | apply Hb']; by apply supplied_time.
  - intros a Ha x Hx.
    assert (Hidx : ∃ (j k : nat), (j ≠ k) ∧ supplied p !! j = Some a ∧
                     supplied p !! k = Some (p_outputs p)).
    { unfold supplied. apply elem_of_cons in Ha as [->|Ha].
      - by exists 0%nat, 1%nat.
      - apply list_elem_of_lookup_1 in Ha as [j Hj]. by exists (S (S j)), 1%nat. }
    destruct Hidx as (j & k & Hjk & Hj & Hk).
    destruct (decide (j < k)%nat) as [Hlt|Hge].
    + apply (may_share_memory2_sound a (p_outputs p)); [| done].
      by apply (may_share_memory_false _ Hs j k).
    + intros Hxo. revert Hx.
      apply (may_share_memory2_sound (p_outputs p) a); [| done].
      apply (may_share_memory_false _ Hs k j); [lia | done | done].
Qed.

End ZeroCopyBatch.

Section StridedStep.

Variables (cf : cfunc) (p : prepared) (h0 : Z → cell).
Hypothesis Hv : validated cf p.
Hypothesis Hm : p_multi_eval p = true.

Let N := shape_at (p_inputs p) 1.

Variables (di do : Z).
Hypothesis Hdi : data_ptr (p_inputs p) = Some (LHeap di).
Hypothesis Hai : ∀ i k, addr2 (p_inputs p) i k = di + (i * N + k).
Hypothesis Hdo : data_ptr (p_outputs p) = Some (LHeap do).
Hypothesis Hao : ∀ i k, addr2 (p_outputs p) i k = do + (i * N + k).
Hypothesis Hpars : ∀ q, p_pars p = Some q →
  ∃ d, data_ptr q = Some (LHeap d) ∧ ∀ i k, addr2 q i k = d + (i * N + k).
Hypothesis Htime : ∀ t, p_time p = Some t →
  ∃ d, data_ptr t = Some (LHeap d) ∧ ∀ k, addr1 t k = d + k.
Hypothesis Hapart : outputs_apart p.

Lemma batch_ndim_inputs : ndim (p_inputs p) = 2.
Proof. rewrite (v_multi _ _ Hv) in Hm. by apply bool_decide_eq_true in Hm. Qed.

Lemma batch_outputs_in i k :
  0 ≤ i < nouts cf → 0 ≤ k < N → addr2 (p_outputs p) i k ∈ addresses (p_outputs p).
Proof.
  intros Hi Hk. apply addr2_in_addresses.
  - rewrite (v_out_ndim _ _ Hv). apply batch_ndim_inputs.
  - by rewrite (v_nouts _ _ Hv).
  - by rewrite (v_out_nevals _ _ Hv Hm).
Qed.

Lemma batch_inputs_kept s i k :
  (∀ x, x ∉ addresses (p_outputs p) → heap s x = h0 x) →
  0 ≤ i < nvars cf → 0 ≤ k < N →
  heap s (addr2 (p_inputs p) i k) = h0 (addr2 (p_inputs p) i k).
Proof.
  intros Hf Hi Hk. apply Hf, (Hapart (p_inputs p)); [by left |].
  apply addr2_in_addresses; [apply batch_ndim_inputs | | done].
  by rewrite (v_nvars _ _ Hv).
Qed.

Lemma batch_pars_kept s q i k :
  (∀ x, x ∉ addresses (p_outputs p) → heap s x = h0 x) →
  p_pars p = Some q → 0 ≤ i < nparams cf → 0 ≤ k < N →
  heap s (addr2 q i k) = h0 (addr2 q i k).
Proof.
  intros Hf Hq Hi Hk. destruct (v_pars _ _ Hv q Hq) as (Hdq & Hq0 & Hq1).
  apply Hf, (Hapart q).
  - right. rewrite Hq. simpl. by left.
  - apply addr2_in_addresses.
    + rewrite Hdq. apply batch_ndim_inputs.
    + by rewrite Hq0.
    + by rewrite (Hq1 Hm).
Qed.

Lemma batch_time_kept s t k :
  (∀ x, x ∉ addresses (p_outputs p) → heap s x = h0 x) →
  p_time p = Some t → 0 ≤ k < N →
  heap s (addr1 t k) = h0 (addr1 t k).
Proof.
  intros Hf Ht Hk. destruct (v_time _ _ Hv t Ht) as (Hdt & Ht0 & _).
  apply Hf, (Hapart t).
  - right. apply elem_of_app. right. rewrite Ht. simpl. by left.
  - apply addr1_in_addresses; [done |]. by rewrite (Ht0 Hm).
Qed.

(** One strided invocation at offset [off]: the [w] points from [off] on are
    done. *)
Lemma strided_kernel_done w off s :
  0 ≤ off → 0 ≤ w → off + w ≤ N →
  batch_done cf p h0 off s →
  batch_done cf p h0 (off + w)
    (kernel cf w N (ptr_add (data_ptr (p_outputs p)) off)
       (if 0 <? nvars cf then ptr_add (data_ptr (p_inputs p)) off else None)
       (if 0 <? nparams cf
        then ptr_add (from_option data_ptr None (p_pars p)) off else None)
       (if is_time_dependent cf
        then ptr_add (from_option data_ptr None (p_time p)) off else None) s).2.
Proof.
  intros Hoff Hw HN [Hf Hd]. rewrite Hdo, Hdi. cbn [ptr_add].
  match goal with
  | |- batch_done _ _ _ _ (kernel _ _ _ _ ?pi ?pp ?pt _).2 =>
      destruct (kernel_strided_heap cf w N (do + off) pi pp pt s) as [Ka Kb];
        [lia |]; set (s' := (kernel cf w N (Some (LHeap (do + off))) pi pp pt s).2) in *
  end.
  assert (Hf' : ∀ x, x ∉ addresses (p_outputs p) → heap s' x = h0 x).
  { intros x Hx. rewrite Ka; [by apply Hf |]. intros i j Hi Hj ->. apply Hx.
    replace (do + off + (i * N + j)) with (addr2 (p_outputs p) i (off + j))
      by (rewrite Hao; lia).
    apply batch_outputs_in; [done | lia]. }
  split; [done |]. intros k Hk. destruct (decide (k < off)) as [Hlt|Hge].
  - rewrite <- (Hd k) by lia. unfold column. apply list_fmap_ext. intros n i Hi.
    apply Ka. intros i' j Hi' Hj. rewrite Hao. intros E.
    destruct (row_major_inj N i k i' (off + j)); lia.
  - unfold column.
    etrans; [apply (list_fmap_ext _
               (λ i, heap s' (do + off + (i * N + (k - off))))); intros n i Hi;
             rewrite Hao; f_equal; lia |].
    rewrite Kb by lia. rewrite lane_result_point. unfold batch_result.
    assert (Hins : (λ i, load s
                      (if 0 <? nvars cf then Some (LHeap (di + off)) else None)
                      (i * N + (k - off))) <$> seqZ 0 (nvars cf)
                   = column h0 (p_inputs p) (nvars cf) k).
    { unfold column. apply list_fmap_ext. intros n i Hi.
      apply list_elem_of_lookup_2, elem_of_seqZ in Hi.
      rewrite (proj2 (Z.ltb_lt 0 (nvars cf))) by lia. simpl.
      rewrite <- (batch_inputs_kept s) by (done || lia). rewrite Hai. f_equal. lia. }
    assert (Hps : (λ i, load s
                     (if 0 <? nparams cf
                      then ptr_add (from_option data_ptr None (p_pars p)) off else None)
                     (i * N + (k - off))) <$> seqZ 0 (nparams cf)
                  = pars_at cf h0 p k).
    { unfold pars_at. destruct (p_pars p) as [q|] eqn:Hq; simpl.
      - destruct (Hpars q eq_refl) as (dq & Hdq & Haq).
        unfold column. apply list_fmap_ext. intros n i Hi.
        apply list_elem_of_lookup_2, elem_of_seqZ in Hi.
        rewrite (proj2 (Z.ltb_lt 0 (nparams cf))) by lia. rewrite Hdq. simpl.
        rewrite <- (batch_pars_kept s q) by (done || lia). rewrite Haq. f_equal. lia.
      - rewrite seqZ_nil; [done |].
        destruct (decide (0 < nparams cf)) as [Hp|]; [| lia].
        destruct (v_pars_given _ _ Hv Hp) as [q' Hq']. congruence. }
    rewrite Hins, Hps.
    destruct (is_time_dependent cf) eqn:Htd; [| apply point_result_time; done].
    f_equal. unfold time_at.
    destruct (v_time_given _ _ Hv Htd) as [t Ht]. rewrite Ht. simpl.
    destruct (Htime t Ht) as (dt & Hdt & Hat). rewrite Hdt. simpl.
    rewrite <- (batch_time_kept s t) by (done || lia). rewrite Hat. f_equal. lia.
Qed.

End StridedStep.

Lemma batch_done_heap cf p h0 c s s' :
  heap s' = heap s → batch_done cf p h0 c s → batch_done cf p h0 c s'.
Proof. intros E [Hf Hd]. unfold batch_done. by rewrite E. Qed.

Lemma batch_done_start cf p s : batch_done cf p (heap s) 0 s.
Proof. split; [done | intros k Hk; lia]. Qed.

(** One iteration of a loop of the zero-copy batch path. *)
Lemma strided_body_done cf p h0
    (fptr : cfunc → ptr → ptr → ptr → ptr → Z → M unit) kid w off s :
  validated cf p → p_multi_eval p = true → p_zero_copy p = true →
  Forall backed (supplied p) →
  (∀ po pi pp pt s, fptr cf po pi pp pt (shape_at (p_inputs p) 1) s
     = (kernel cf w (shape_at (p_inputs p) 1) po pi pp pt)
         {| heap := heap s; brk := brk s; scr := scr s;
            trace := trace s ++ [EvKernel {| k_fptr := kid;
                 k_out := po; k_in := pi; k_par := pp; k_time := pt;
                 k_stride := Some (shape_at (p_inputs p) 1) |}] |}) →
  0 ≤ off → 0 ≤ w → off + w ≤ shape_at (p_inputs p) 1 →
  batch_done cf p h0 off s →
  wp (po <- padd ROut (data_ptr (p_outputs p)) off;;
      pi <- padd_if (0 <? nvars cf) RIn (data_ptr (p_inputs p)) off;;
      pp <- padd_if (0 <? nparams cf) RPar (from_option data_ptr None (p_pars p)) off;;
      pt <- padd_if (is_time_dependent cf) RTime
              (from_option data_ptr None (p_time p)) off;;
      fptr cf po pi pp pt (shape_at (p_inputs p) 1))
     (λ r s', r = Ok tt ∧ batch_done cf p h0 (off + w) s') s.
Proof.
  intros Hv Hm Hz Hb Hf Hoff Hw HN Hd.
  destruct (zero_copy_batch_layout cf p Hv Hm Hz Hb)
    as ((di & Hdi & Hai) & (do & Hdo & Hao) & Hpars & Htime & Hapart).
  assert (K := λ s', strided_kernel_done cf p h0 Hv Hm di do Hdi Hai Hdo Hao
                       Hpars Htime Hapart w off s' Hoff Hw HN).
  revert K. unfold wp, bind, padd, padd_if, bind, log, ret. simpl.
  destruct (0 <? nvars cf), (0 <? nparams cf), (is_time_dependent cf); simpl;
    intros K; rewrite Hf; (split; [done |]); apply K; by apply (batch_done_heap _ _ _ _ s).
Qed.

(** The zero-copy path of a batch evaluation: all the points are done. *)
Lemma run_multi_zero_copy_done cf p s :
  validated cf p → 0 < simd_size cf →
  p_multi_eval p = true → p_zero_copy p = true →
  Forall backed (supplied p) → 0 ≤ shape_at (p_inputs p) 1 →
  batch_done cf p (heap s) (shape_at (p_inputs p) 1) (run cf p s).2.
Proof.
  intros Hv HW Hm Hz Hb HN. unfold run. rewrite Hm, Hz.
  set (N := shape_at (p_inputs p) 1) in *. set (W := simd_size cf) in *.
  assert (Hq : Z.quot N W = N `div` W) by (apply Z.quot_div_nonneg; lia).
  assert (HB : 0 ≤ N `div` W) by (apply Z.div_pos; lia).
  assert (HBW : N `div` W * W ≤ N) by (rewrite Z.mul_comm; apply Z.mul_div_le; lia).
  cut (wp (run_multi_zero_copy cf p)
          (λ r s', r = Ok tt ∧ batch_done cf p (heap s) N s') s).
  { by intros [_ Hd]. }
  unfold run_multi_zero_copy. fold N W. rewrite Hq.
  apply wp_bind.
  eapply wp_mono.
  { apply (wp_for_range (λ k s', batch_done cf p (heap s) (k * W) s') 0 (N `div` W));
      [done | apply batch_done_start |].
    intros k s' Hk Hd. replace ((k + 1) * W) with (k * W + W) by lia.
    apply (strided_body_done cf p (heap s) fptr_batch_s FptrBatchS W); try done; try lia.
    nia. }
  intros r s1 [-> Hd1]. simpl in Hd1.
  eapply wp_mono.
  { apply (wp_for_range (λ k s', batch_done cf p (heap s) k s')
             (N `div` W * W) (N - N `div` W * W)); [lia | done |].
    intros k s' Hk Hd.
    apply (strided_body_done cf p (heap s) fptr_scal_s FptrScalS 1); try done; lia. }
  intros r s2 [-> Hd2]. split; [done |].
  by replace (N `div` W * W + (N - N `div` W * W)) with N in Hd2 by lia.
Qed.

(** ** The buffered path of a batch evaluation *)

Lemma NoDup_bind_inv (l : list Z) (f : Z → list Z) :
  NoDup (l ≫= f) →
  (∀ i, i ∈ l → NoDup (f i)) ∧
  (∀ (m n : nat) i i' x, l !! m = Some i → l !! n = Some i' →
     x ∈ f i → x ∈ f i' → m = n).
Proof.
  induction l as [|k l IH]; intros Hnd.
  { split; [by intros i Hi%elem_of_nil | by intros m n i i' x Hm]. }
  change ((k :: l) ≫= f) with (f k ++ (l ≫= f)) in Hnd.
  apply NoDup_app in Hnd as (Hk & Hdis & Hl). destruct (IH Hl) as [IH1 IH2].
  split.
  - intros i [->|Hi]%elem_of_cons; [done | by apply IH1].
  - intros m n i i' x Hm Hn Hx Hx'.
    assert (Hin : ∀ (n : nat) j, l !! n = Some j → x ∈ f j → x ∈ l ≫= f).
    { intros n' j Hj Hxj. apply list_elem_of_bind. exists j. split; [done |].
      by eapply list_elem_of_lookup_2. }
    destruct m as [|m], n as [|n]; simpl in Hm, Hn.
    + done.
    + injection Hm as ->. destruct (Hdis x Hx). by eapply Hin.
    + injection Hn as ->. destruct (Hdis x Hx'). by eapply Hin.
    + f_equal. by eapply IH2.
Qed.

(** The elements of a two-dimensional array without overlap are at distinct
    addresses. *)
Lemma addr2_inj a n0 n1 i j i' j' :
  nd_shape a = [n0; n1] → NoDup (addresses a) →
  0 ≤ i < n0 → 0 ≤ j < n1 → 0 ≤ i' < n0 → 0 ≤ j' < n1 →
  addr2 a i j = addr2 a i' j' → i = i' ∧ j = j'.
Proof.
  intros Hs Hnd Hi Hj Hi' Hj' Heq. unfold addresses in Hnd. rewrite Hs in Hnd.
  apply NoDup_fmap_1 in Hnd. cbn [offsets] in Hnd.
  set (s0 := hd 0 (nd_strides a)) in *.
  set (s1 := hd 0 (tl (nd_strides a))) in *.
  assert (Ha : ∀ x y, addr2 a x y = base_addr a + (x * s0 + (y * s1 + 0))).
  { intros x y. unfold addr2, stride_at, s0, s1.
    destruct (nd_strides a) as [|? [|? ?]]; simpl; lia. }
  rewrite !Ha in Heq.
  set (row := λ x : Z, (λ o, x * s0 + o) <$>
                (seqZ 0 n1 ≫= λ y, (λ o, y * s1 + o) <$> [0])) in *.
  destruct (NoDup_bind_inv (seqZ 0 n0) row Hnd) as [Hrow Hrows].
  assert (Hin : ∀ x y, 0 ≤ y < n1 → x * s0 + (y * s1 + 0) ∈ row x).
  { intros x y Hy. unfold row. apply list_elem_of_fmap. eexists. split; [done |].
    apply list_elem_of_bind. exists y. split; [by left | apply elem_of_seqZ; lia]. }
  assert (Hii : Z.to_nat i = Z.to_nat i').
  { apply (Hrows _ _ i i' (i * s0 + (j * s1 + 0))).
    - rewrite lookup_seqZ_lt by lia. f_equal. lia.
    - rewrite lookup_seqZ_lt by lia. f_equal. lia.
    - by apply Hin.
    - replace (i * s0 + (j * s1 + 0)) with (i' * s0 + (j' * s1 + 0)) by lia.
      by apply Hin. }
  assert (i = i') by lia. subst i'. split; [done |].
  assert (Hr : NoDup (row i)) by (apply Hrow, elem_of_seqZ; lia).
  unfold row in Hr. apply NoDup_fmap_1 in Hr.
  destruct (NoDup_bind_inv (seqZ 0 n1) (λ y, (λ o, y * s1 + o) <$> [0]) Hr) as [_ Hcols].
  assert (Z.to_nat j = Z.to_nat j'); [| lia].
  apply (Hcols _ _ j j' (j * s1 + 0)).
  - rewrite lookup_seqZ_lt by lia. f_equal. lia.
  - rewrite lookup_seqZ_lt by lia. f_equal. lia.
  - by left.
  - replace (j * s1 + 0) with (j' * s1 + 0) by lia. by left.
Qed.

(** Gathering block [k] of a two-dimensional array. *)
Lemma gather_block_wp b a n w k s :
  0 ≤ n → 0 ≤ w → (Z.to_nat (n * w) ≤ length (get_buf b (scr s)))%nat →
  wp (gather_block b a n w k)
     (λ r s', r = Ok tt ∧ heap s' = heap s ∧
        (∀ b', b' ≠ b → get_buf b' (scr s') = get_buf b' (scr s)) ∧
        length (get_buf b (scr s')) = length (get_buf b (scr s)) ∧
        (∀ i j, 0 ≤ i < n → 0 ≤ j < w →
           vec_get (get_buf b (scr s')) (i * w + j) = heap s (addr2 a i (k * w + j)))) s.
Proof.
  intros Hn Hw Hl. unfold gather_block.
  set (filled := λ (i' j' : Z) (s' : state),
        heap s' = heap s ∧
        (∀ b', b' ≠ b → get_buf b' (scr s') = get_buf b' (scr s)) ∧
        length (get_buf b (scr s')) = length (get_buf b (scr s)) ∧
        (∀ i j, 0 ≤ i < n → 0 ≤ j < w → i < i' ∨ (i = i' ∧ j < j') →
           vec_get (get_buf b (scr s')) (i * w + j) = heap s (addr2 a i (k * w + j)))).
  eapply wp_mono; [apply (wp_for_range (λ i', filled i' 0) 0 n) |].
  - done.
  - repeat split; try done. intros; lia.
  - intros i' s' Hi' HI.
    eapply wp_mono; [apply (wp_for_range (filled i') 0 w) |]; [done | done | |].
    + intros j' s'' Hj' (Hh & Ho & Hlen & Hv). unfold filled.
      unfold wp, bind, heap_get, buf_set, bind. simpl.
      split; [done |]. split; [done |]. split; [| split].
      * intros b' Hb'. rewrite get_put_buf, decide_False by done. by apply Ho.
      * rewrite get_put_buf, decide_True by done. by rewrite length_vec_set.
      * intros i j Hi Hj Hlt. rewrite get_put_buf, decide_True by done.
        destruct (decide (i = i' ∧ j = j')) as [[-> ->]|Hne].
        -- rewrite vec_get_set_eq; [by rewrite Hh | nia |]. rewrite Hlen. nia.
        -- rewrite vec_get_set_ne.
           ++ apply Hv; [done | done | lia].
           ++ intros E. destruct (row_major_inj w i j i' j'); [lia | lia | done |].
              by destruct Hne.
    + intros r s'' [-> (Hh & Ho & Hlen & Hv)]. split; [done |].
      split; [done |]. split; [done |]. split; [done |].
      intros i j Hi Hj Hlt. apply Hv; [done | done | lia].
  - intros r s' [-> (Hh & Ho & Hlen & Hv)]. repeat split; try done.
    intros i j Hi Hj. apply Hv; [done | done | lia].
Qed.

Lemma gather_time_block_wp a w k s :
  0 ≤ w → (Z.to_nat w ≤ length (buf_time (scr s)))%nat →
  wp (gather_time_block a w k)
     (λ r s', r = Ok tt ∧ heap s' = heap s ∧
        (∀ b', b' ≠ BufTime → get_buf b' (scr s') = get_buf b' (scr s)) ∧
        length (buf_time (scr s')) = length (buf_time (scr s)) ∧
        (∀ j, 0 ≤ j < w →
           vec_get (buf_time (scr s')) j = heap s (addr1 a (k * w + j)))) s.
Proof.
  intros Hw Hl. unfold gather_time_block.
  eapply wp_mono;
    [apply (wp_for_range (λ j' s', heap s' = heap s ∧
        (∀ b', b' ≠ BufTime → get_buf b' (scr s') = get_buf b' (scr s)) ∧
        length (buf_time (scr s')) = length (buf_time (scr s)) ∧
        (∀ j, 0 ≤ j < j' →
           vec_get (buf_time (scr s')) j = heap s (addr1 a (k * w + j)))) 0 w)
    | by intros r s' [-> ?]].
  - done.
  - repeat split; try done. intros; lia.
  - intros j' s' Hj' (Hh & Ho & Hlen & Hv). unfold wp, bind, heap_get, buf_set, bind.
    simpl. split; [done |]. split; [done |]. split; [| split].
    + intros b' Hb'. specialize (Ho b' Hb'). by destruct b'.
    + by rewrite length_vec_set.
    + intros j Hj. destruct (decide (j = j')) as [->|Hne].
      * rewrite vec_get_set_eq; [by rewrite Hh | lia |]. rewrite Hlen. lia.
      * rewrite vec_get_set_ne by done. apply Hv. lia.
Qed.

(** Scattering block [k] into a two-dimensional array whose elements do not
    overlap. *)
Lemma scatter_block_wp a n w k N s :
  0 ≤ n → 0 ≤ w → 0 ≤ k * w → k * w + w ≤ N →
  (∀ i j i' j', 0 ≤ i < n → 0 ≤ j < N → 0 ≤ i' < n → 0 ≤ j' < N →
     addr2 a i j = addr2 a i' j' → i = i' ∧ j = j') →
  wp (scatter_block a n w k)
     (λ r s', r = Ok tt ∧ scr s' = scr s ∧
        (∀ i j, 0 ≤ i < n → 0 ≤ j < w →
           heap s' (addr2 a i (k * w + j)) = vec_get (buf_out (scr s)) (i * w + j)) ∧
        (∀ x, (∀ i j, 0 ≤ i < n → 0 ≤ j < w → x ≠ addr2 a i (k * w + j)) →
           heap s' x = heap s x)) s.
Proof.
  intros Hn Hw Hk HN Hinj. unfold scatter_block.
  set (placed := λ (i' j' : Z) (s' : state),
        scr s' = scr s ∧
        (∀ i j, 0 ≤ i < n → 0 ≤ j < w → i < i' ∨ (i = i' ∧ j < j') →
           heap s' (addr2 a i (k * w + j)) = vec_get (buf_out (scr s)) (i * w + j)) ∧
        (∀ x, (∀ i j, 0 ≤ i < n → 0 ≤ j < w → x ≠ addr2 a i (k * w + j)) →
           heap s' x = heap s x)).
  eapply wp_mono; [apply (wp_for_range (λ i', placed i' 0) 0 n) |].
  - done.
  - repeat split; try done. intros; lia.
  - intros i' s' Hi' HI.
    eapply wp_mono; [apply (wp_for_range (placed i') 0 w) |]; [done | done | |].
    + intros j' s'' Hj' (Hs & Hv & Hf). unfold placed.
      unfold wp, bind, buf_get, heap_set, bind. simpl.
      split; [done |]. split; [done |]. split.
      * intros i j Hi Hj Hlt.
        destruct (decide (i = i' ∧ j = j')) as [[-> ->]|Hne].
        -- rewrite upd_eq. by rewrite Hs.
        -- rewrite upd_ne; [apply Hv; [done | done | lia] |].
           intros E. destruct (Hinj i (k * w + j) i' (k * w + j')); try lia; done.
      * intros x Hx. rewrite upd_ne; [by apply Hf |]. apply Hx; lia.
    + intros r s'' [-> (Hs & Hv & Hf)]. split; [done |].
      split; [done |]. split; [| done].
      intros i j Hi Hj Hlt. apply Hv; [done | done | lia].
  - intros r s' [-> (Hs & Hv & Hf)]. repeat split; try done.
    intros i j Hi Hj. apply Hv; [done | done | lia].
Qed.

(** The lanes of a kernel written one after the other into [buf_out]. *)
Lemma foldl_store_lane_buf cf N (l : list (Z * list cell)) s :
  NoDup (l.*1) →
  Forall (λ jv, 0 ≤ jv.1 < N ∧ length jv.2 = Z.to_nat (nouts cf)) l →
  0 ≤ nouts cf → (Z.to_nat (nouts cf * N) ≤ length (buf_out (scr s)))%nat →
  heap (foldl (store_lane cf (buf_ptr BufOut) N) s l) = heap s ∧
  (∀ b, b ≠ BufOut →
     get_buf b (scr (foldl (store_lane cf (buf_ptr BufOut) N) s l)) = get_buf b (scr s)) ∧
  (∀ x, (∀ i j, 0 ≤ i < nouts cf → j ∈ l.*1 → x ≠ i * N + j) →
     vec_get (buf_out (scr (foldl (store_lane cf (buf_ptr BufOut) N) s l))) x
     = vec_get (buf_out (scr s)) x) ∧
  (∀ j vals, (j, vals) ∈ l →
     (λ i, vec_get (buf_out (scr (foldl (store_lane cf (buf_ptr BufOut) N) s l)))
             (i * N + j)) <$> seqZ 0 (nouts cf) = vals).
Proof.
  revert s. induction l as [|[j0 v0] l IH]; intros s Hnd Hl Hn Hlen.
  { repeat split; try done. intros j vals Hin. by apply elem_of_nil in Hin. }
  apply NoDup_cons in Hnd as [Hj0 Hnd]. apply Forall_cons in Hl as [[Hr0 Hlen0] Hl].
  simpl in Hr0, Hlen0. cbn [foldl].
  set (s1 := store_lane cf (buf_ptr BufOut) N s (j0, v0)).
  assert (Hs1 : s1 = store_list (Some (LBuf BufOut 0))
                       ((λ i, i * N + j0) <$> seqZ 0 (nouts cf)) v0 s) by done.
  assert (Hlen1 : length (buf_out (scr s1)) = length (buf_out (scr s))).
  { rewrite Hs1. apply (store_list_same_lengths _ _ _ s BufOut). }
  destruct (IH s1 Hnd Hl Hn) as (IHh & IHo & IHa & IHb); [by rewrite Hlen1 |].
  assert (Hother : ∀ x, (∀ i, 0 ≤ i < nouts cf → x ≠ i * N + j0) →
            vec_get (buf_out (scr s1)) x = vec_get (buf_out (scr s)) x).
  { intros x Hx. rewrite Hs1.
    apply (store_list_buf_other BufOut).
    intros (i & Hxi & Hi)%list_elem_of_fmap. apply elem_of_seqZ in Hi.
    apply (Hx i); [lia | exact Hxi]. }
  split; [| split; [| split]].
  - rewrite IHh, Hs1. apply store_list_buf_heap.
  - intros b Hb. rewrite IHo by done. rewrite Hs1. by apply store_list_buf_others.
  - intros x Hx. rewrite IHa.
    + apply Hother. intros i Hi. apply Hx; [done |]. simpl. by left.
    + intros i j Hi Hj. apply Hx; [done |]. simpl. by right.
  - intros j vals [[= -> ->]|Hin]%elem_of_cons; [| by apply IHb].
    etrans; [apply list_fmap_ext; intros n i Hi; apply IHa |].
    + apply list_elem_of_lookup_2, elem_of_seqZ in Hi.
      intros i' j Hi' Hj E.
      assert (Hjr : 0 ≤ j < N).
      { apply list_elem_of_fmap in Hj as ([j' v'] & -> & Hjv).
        rewrite Forall_forall in Hl. by destruct (Hl _ Hjv). }
      destruct (row_major_inj N i j0 i' j Hr0 Hjr) as [_ <-]; [lia | done].
    + assert (Hr := store_list_buf_read BufOut
                      ((λ i, i * N + j0) <$> seqZ 0 (nouts cf)) v0 s).
      rewrite <- list_fmap_compose in Hr. rewrite Hs1. apply Hr.
      * by apply NoDup_row_offsets.
      * by rewrite length_fmap, length_seqZ.
      * apply Forall_fmap, Forall_seqZ. intros i Hi. simpl. split; [nia |].
        eapply Nat.lt_le_trans; [| exact Hlen]. nia.
Qed.

(** A dense kernel of width [w] writing into [buf_out]. *)
Lemma kernel_lanes_buf cf w pi pp pt s :
  0 ≤ w → 0 ≤ nouts cf → (Z.to_nat (nouts cf * w) ≤ length (buf_out (scr s)))%nat →
  heap (kernel cf w w (buf_ptr BufOut) pi pp pt s).2 = heap s ∧
  (∀ b, length (get_buf b (scr (kernel cf w w (buf_ptr BufOut) pi pp pt s).2))
        = length (get_buf b (scr s))) ∧
  (∀ j, 0 ≤ j < w →
     (λ i, vec_get (buf_out (scr (kernel cf w w (buf_ptr BufOut) pi pp pt s).2))
             (i * w + j)) <$> seqZ 0 (nouts cf)
     = lane_result cf s pi pp pt w j).
Proof.
  intros Hw Hn Hlen. unfold kernel. cbn [snd].
  set (lanes := (λ j, (j, lane_result cf s pi pp pt w j)) <$> seqZ 0 w).
  assert (Hfst : lanes.*1 = seqZ 0 w).
  { unfold lanes. rewrite <- list_fmap_compose.
    rewrite <- (list_fmap_id (seqZ 0 w)) at 2. by apply list_fmap_ext. }
  destruct (foldl_store_lane_buf cf w lanes s) as (Hh & _ & _ & Hb); try done.
  - rewrite Hfst. apply NoDup_seqZ.
  - unfold lanes. apply Forall_fmap, Forall_seqZ. intros j Hj. simpl.
    split; [lia |]. by rewrite lane_result_point, length_point_result.
  - split; [done |]. split.
    + intros b. apply (foldl_store_lane_same_lengths cf (buf_ptr BufOut) w lanes s b).
    + intros j Hj. apply Hb. unfold lanes. apply list_elem_of_fmap.
      exists j. split; [done |]. apply elem_of_seqZ. lia.
Qed.

Lemma gather_pars_wp (o : option ndarray) n w k s :
  0 ≤ n → 0 ≤ w → (Z.to_nat (n * w) ≤ length (buf_pars (scr s)))%nat →
  wp (when_some o (λ pars, gather_block BufPars pars n w k))
     (λ r s', r = Ok tt ∧ heap s' = heap s ∧
        (∀ b', b' ≠ BufPars → get_buf b' (scr s') = get_buf b' (scr s)) ∧
        length (buf_pars (scr s')) = length (buf_pars (scr s)) ∧
        (∀ q i j, o = Some q → 0 ≤ i < n → 0 ≤ j < w →
           vec_get (buf_pars (scr s')) (i * w + j) = heap s (addr2 q i (k * w + j)))) s.
Proof.
  intros Hn Hw Hl. destruct o as [q|]; simpl.
  - eapply wp_mono; [by apply (gather_block_wp BufPars q n w k s) |].
    intros r s' (-> & Hh & Ho & Hlen & Hv). repeat split; try done.
    intros q' i j [= <-]. apply Hv.
  - apply wp_ret. repeat split; done.
Qed.

Lemma gather_time_wp (o : option ndarray) w k s :
  0 ≤ w → (Z.to_nat w ≤ length (buf_time (scr s)))%nat →
  wp (when_some o (λ time, gather_time_block time w k))
     (λ r s', r = Ok tt ∧ heap s' = heap s ∧
        (∀ b', b' ≠ BufTime → get_buf b' (scr s') = get_buf b' (scr s)) ∧
        length (buf_time (scr s')) = length (buf_time (scr s)) ∧
        (∀ t j, o = Some t → 0 ≤ j < w →
           vec_get (buf_time (scr s')) j = heap s (addr1 t (k * w + j)))) s.
Proof.
  intros Hw Hl. destruct o as [t|]; simpl.
  - eapply wp_mono; [by apply (gather_time_block_wp t w k s) |].
    intros r s' (-> & Hh & Ho & Hlen & Hv). repeat split; try done.
    intros t' j [= <-]. apply Hv.
  - apply wp_ret. repeat split; done.
Qed.

Section BufferedStep.

Variables (cf : cfunc) (p : prepared) (h0 : Z → cell).
Hypothesis Hv : validated cf p.
Hypothesis Hwf : cfunc_wf cf.
Hypothesis Hm : p_multi_eval p = true.
Hypothesis Hapart : outputs_apart p.
Hypothesis Hnodup : NoDup (addresses (p_outputs p)).

Let N := shape_at (p_inputs p) 1.

Lemma batch_outputs_inj i j i' j' :
  0 ≤ i < nouts cf → 0 ≤ j < N → 0 ≤ i' < nouts cf → 0 ≤ j' < N →
  addr2 (p_outputs p) i j = addr2 (p_outputs p) i' j' → i = i' ∧ j = j'.
Proof.
  intros Hi Hj Hi' Hj'.
  assert (Hndo : ndim (p_outputs p) = 2).
  { rewrite (v_out_ndim _ _ Hv). apply (batch_ndim_inputs cf p Hv Hm). }
  destruct (ndim_2_shape _ Hndo) as (m0 & m1 & Hso & Ho0 & Ho1).
  rewrite (v_nouts _ _ Hv) in Ho0. rewrite (v_out_nevals _ _ Hv Hm) in Ho1.
  fold N in Ho1. subst m0 m1. by apply (addr2_inj _ _ _ _ _ _ _ Hso Hnodup).
Qed.

(** One block of [w] points on the buffered path: gather, one dense
    invocation on the scratch vectors, scatter. *)
Lemma buffered_block_done (fptr : cfunc → ptr → ptr → ptr → ptr → M unit) kid w k s :
  (∀ po pi pp pt s, fptr cf po pi pp pt s
     = (kernel cf w w po pi pp pt)
         {| heap := heap s; brk := brk s; scr := scr s;
            trace := trace s ++ [EvKernel {| k_fptr := kid;
                 k_out := po; k_in := pi; k_par := pp; k_time := pt;
                 k_stride := None |}] |}) →
  0 ≤ k * w → 0 ≤ w → k * w + w ≤ N →
  (Z.to_nat (nvars cf * w) ≤ length (buf_in (scr s)))%nat →
  (Z.to_nat (nouts cf * w) ≤ length (buf_out (scr s)))%nat →
  (Z.to_nat (nparams cf * w) ≤ length (buf_pars (scr s)))%nat →
  (Z.to_nat w ≤ length (buf_time (scr s)))%nat →
  batch_done cf p h0 (k * w) s →
  wp (gather_block BufIn (p_inputs p) (nvars cf) w k;;
      when_some (p_pars p) (λ pars, gather_block BufPars pars (nparams cf) w k);;
      when_some (p_time p) (λ time, gather_time_block time w k);;
      fptr cf (buf_ptr BufOut) (buf_ptr BufIn) (buf_ptr BufPars) (buf_ptr BufTime);;
      scatter_block (p_outputs p) (nouts cf) w k)
     (λ r s', r = Ok tt ∧ batch_done cf p h0 (k * w + w) s' ∧
        ∀ b, length (get_buf b (scr s')) = length (get_buf b (scr s))) s.
Proof.
  intros Hf Hk Hw HN L1 L2 L3 L4 [Hfr Hd].
  destruct Hwf as (Wv & Wo & Wp & _).
  (* inputs *)
  apply wp_bind. eapply wp_mono;
    [by apply (gather_block_wp BufIn (p_inputs p) (nvars cf) w k s); [lia | lia |] |].
  intros r s1 (-> & Hh1 & Ho1 & Hl1 & Hv1). simpl in Hl1, Hv1.
  assert (P1 : buf_pars (scr s1) = buf_pars (scr s)) by (by apply (Ho1 BufPars)).
  assert (T1 : buf_time (scr s1) = buf_time (scr s)) by (by apply (Ho1 BufTime)).
  assert (O1 : buf_out (scr s1) = buf_out (scr s)) by (by apply (Ho1 BufOut)).
  (* parameters *)
  apply wp_bind. eapply wp_mono;
    [apply (gather_pars_wp (p_pars p) (nparams cf) w k s1); [lia | lia |] |].
  { rewrite P1. exact L3. }
  intros r s2 (-> & Hh2 & Ho2 & Hl2 & Hv2).
  assert (I2 : buf_in (scr s2) = buf_in (scr s1)) by (by apply (Ho2 BufIn)).
  assert (T2 : buf_time (scr s2) = buf_time (scr s1)) by (by apply (Ho2 BufTime)).
  assert (O2 : buf_out (scr s2) = buf_out (scr s1)) by (by apply (Ho2 BufOut)).
  (* time *)
  apply wp_bind. eapply wp_mono;
    [apply (gather_time_wp (p_time p) w k s2); [lia |] |].
  { rewrite T2, T1. exact L4. }
  intros r s3 (-> & Hh3 & Ho3 & Hl3 & Hv3).
  assert (Hin3 : buf_in (scr s3) = buf_in (scr s1)).
  { rewrite <- I2. by apply (Ho3 BufIn). }
  assert (Hpar3 : buf_pars (scr s3) = buf_pars (scr s2)) by (by apply (Ho3 BufPars)).
  assert (Hout3 : buf_out (scr s3) = buf_out (scr s)).
  { rewrite <- O1, <- O2. by apply (Ho3 BufOut). }
  assert (Hlen3 : ∀ b, length (get_buf b (scr s3)) = length (get_buf b (scr s))).
  { intros []; simpl.
    - by rewrite Hin3.
    - by rewrite Hout3.
    - by rewrite Hpar3, Hl2, P1.
    - by rewrite Hl3, T2, T1. }
  (* the kernel *)
  apply wp_bind. unfold wp at 1. rewrite Hf.
  match goal with
  | |- context [kernel cf w w _ _ _ _ ?st] => set (s3' := st)
  end.
  destruct (kernel_lanes_buf cf w (buf_ptr BufIn) (buf_ptr BufPars) (buf_ptr BufTime) s3')
    as (Hh4 & Hl4 & Hv4); [lia | lia | by (simpl; rewrite Hout3) |].
  set (s4 := (kernel cf w w (buf_ptr BufOut) (buf_ptr BufIn) (buf_ptr BufPars)
                (buf_ptr BufTime) s3').2) in *.
  change (wp (scatter_block (p_outputs p) (nouts cf) w k)
            (λ r s', r = Ok tt ∧ batch_done cf p h0 (k * w + w) s' ∧
               ∀ b, length (get_buf b (scr s')) = length (get_buf b (scr s))) s4).
  assert (Hlane : ∀ j, 0 ≤ j < w →
    lane_result cf s3' (buf_ptr BufIn) (buf_ptr BufPars) (buf_ptr BufTime) w j
    = batch_result cf p h0 (k * w + j)).
  { intros j Hj. rewrite lane_result_point. unfold batch_result.
    assert (Hins : (λ i, load s3' (buf_ptr BufIn) (i * w + j)) <$> seqZ 0 (nvars cf)
                   = column h0 (p_inputs p) (nvars cf) (k * w + j)).
    { unfold column. apply list_fmap_ext. intros n i Hi.
      apply list_elem_of_lookup_2, elem_of_seqZ in Hi. simpl.
      rewrite Hin3. replace (0 + (i * w + j)) with (i * w + j) by lia.
      rewrite (Hv1 i j) by lia.
      apply (batch_inputs_kept cf p h0 Hv Hm Hapart s); [done | lia |]. fold N. lia. }
    assert (Hps : (λ i, load s3' (buf_ptr BufPars) (i * w + j)) <$> seqZ 0 (nparams cf)
                  = pars_at cf h0 p (k * w + j)).
    { unfold pars_at. destruct (p_pars p) as [q|] eqn:Hq; simpl.
      - unfold column. apply list_fmap_ext. intros n i Hi.
        apply list_elem_of_lookup_2, elem_of_seqZ in Hi. simpl.
        rewrite Hpar3. replace (0 + (i * w + j)) with (i * w + j) by lia.
        rewrite (Hv2 q i j) by (done || lia). rewrite Hh1.
        apply (batch_pars_kept cf p h0 Hv Hm Hapart s q); [done | done | lia |].
        fold N. lia.
      - rewrite seqZ_nil; [done |].
        destruct (decide (0 < nparams cf)) as [Hp|]; [| lia].
        destruct (v_pars_given _ _ Hv Hp) as [q' Hq']. congruence. }
    rewrite Hins, Hps.
    destruct (is_time_dependent cf) eqn:Htd; [| apply point_result_time; done].
    f_equal. unfold time_at.
    destruct (v_time_given _ _ Hv Htd) as [t Ht]. rewrite Ht. simpl.
    replace (0 + j) with j by lia. rewrite (Hv3 t j) by (done || lia).
    rewrite Hh2, Hh1.
    apply (batch_time_kept cf p h0 Hv Hm Hapart s t); [done | done |]. fold N. lia. }
  (* the outputs *)
  eapply wp_mono;
    [apply (scatter_block_wp (p_outputs p) (nouts cf) w k N s4); try lia;
     apply batch_outputs_inj |].
  intros r s5 (-> & Hs5 & Hv5 & Hf5). split; [done |].
  assert (Hh4s : heap s4 = heap s) by (rewrite Hh4; simpl; congruence).
  split; [split |].
  - intros x Hx. rewrite Hf5, Hh4s; [by apply Hfr |].
    intros i j Hi Hj ->. apply Hx.
    apply (batch_outputs_in cf p Hv Hm); [done |]. fold N. lia.
  - intros c Hc. destruct (decide (c < k * w)) as [Hlt|Hge].
    + rewrite <- (Hd c) by lia. unfold column. apply list_fmap_ext. intros n i Hi.
      apply list_elem_of_lookup_2, elem_of_seqZ in Hi.
      rewrite Hf5, Hh4s; [done |]. intros i' j Hi' Hj E.
      destruct (batch_outputs_inj i c i' (k * w + j)); lia.
    + remember (c - k * w) as j eqn:Ej.
      assert (Hj : 0 ≤ j < w) by lia. assert (Ec : c = k * w + j) by lia.
      clear Ej. subst c.
      rewrite <- (Hlane j) by lia. rewrite <- Hv4 by lia.
      unfold column. apply list_fmap_ext. intros n i Hi.
      apply list_elem_of_lookup_2, elem_of_seqZ in Hi.
      rewrite Hv5 by lia. done.
  - intros b. rewrite Hs5. rewrite Hl4. apply Hlen3.
Qed.

End BufferedStep.

(** The copies of one point are the copies of a block of one point. *)
Lemma for_each_ext l (f g : Z → M unit) s :
  (∀ k s', f k s' = g k s') → for_each l f s = for_each l g s.
Proof.
  intros Hfg. revert s. induction l as [|k l IH]; intros s; simpl; [done |].
  unfold bind. rewrite Hfg. destruct (g k s) as [[[]|e] s']; [apply IH | done].
Qed.

Lemma bind_ext {A B} (m m' : M A) (k k' : A → M B) s :
  m s = m' s → (∀ a s', k a s' = k' a s') → bind m k s = bind m' k' s.
Proof.
  intros Hm Hk. unfold bind. rewrite Hm. destruct (m' s) as [[a|e] s']; [apply Hk | done].
Qed.

Lemma wp_ext {A} (m m' : M A) (Q : result A → state → Prop) s :
  m s = m' s → wp m' Q s → wp m Q s.
Proof. unfold wp. by intros ->. Qed.

Lemma gather_point_block b a n k s : gather_point b a n k s = gather_block b a n 1 k s.
Proof.
  unfold gather_point, gather_block. apply for_each_ext. intros i s'.
  change (seqZ 0 1) with [0]. simpl.
  unfold bind, heap_get, buf_set, bind, get_scratch, set_scratch, ret. simpl.
  by replace (k * 1 + 0) with k by lia; replace (i * 1 + 0) with i by lia.
Qed.

Lemma gather_time_point_block a k s :
  gather_time_point a k s = gather_time_block a 1 k s.
Proof.
  unfold gather_time_point, gather_time_block. change (seqZ 0 1) with [0]. simpl.
  unfold bind, heap_get, buf_set, bind, get_scratch, set_scratch, ret. simpl.
  by replace (k * 1 + 0) with k by lia.
Qed.

Lemma scatter_point_block a n k s : scatter_point a n k s = scatter_block a n 1 k s.
Proof.
  unfold scatter_point, scatter_block. apply for_each_ext. intros i s'.
  change (seqZ 0 1) with [0]. simpl.
  unfold bind, buf_get, heap_set, bind, get_heap, set_heap, ret. simpl.
  by replace (k * 1 + 0) with k by lia; replace (i * 1 + 0) with i by lia.
Qed.

Lemma when_some_ext {A} (o : option A) (f g : A → M unit) s :
  (∀ a s', f a s' = g a s') → when_some o f s = when_some o g s.
Proof. intros Hfg. destruct o; simpl; [apply Hfg | done]. Qed.

(** The buffered path of a batch evaluation: all the points are done, when
    the array of outputs does not overlap itself nor the arrays that are
    read. *)
Lemma run_multi_buffered_done cf p s :
  validated cf p → cfunc_wf cf → 1 ≤ simd_size cf → scratch_sized cf (scr s) →
  p_multi_eval p = true → p_zero_copy p = false →
  outputs_apart p → NoDup (addresses (p_outputs p)) →
  0 ≤ shape_at (p_inputs p) 1 →
  batch_done cf p (heap s) (shape_at (p_inputs p) 1) (run cf p s).2.
Proof.
  intros Hv Hwf HW (L1 & L2 & L3 & L4) Hm Hz Hap Hnd HN. unfold run. rewrite Hm, Hz.
  set (N := shape_at (p_inputs p) 1) in *. set (W := simd_size cf) in *.
  assert (Hq : Z.quot N W = N `div` W) by (apply Z.quot_div_nonneg; lia).
  assert (HB : 0 ≤ N `div` W) by (apply Z.div_pos; lia).
  assert (HBW : N `div` W * W ≤ N) by (rewrite Z.mul_comm; apply Z.mul_div_le; lia).
  destruct Hwf as (Wv & Wo & Wp & Ww).
  set (I := λ (c : Z) (s' : state), batch_done cf p (heap s) c s' ∧
              ∀ b, length (get_buf b (scr s')) = length (get_buf b (scr s))).
  cut (wp (run_multi_buffered cf p) (λ r s', r = Ok tt ∧ I N s') s).
  { by intros [_ [Hd _]]. }
  unfold run_multi_buffered. fold N W. rewrite Hq.
  apply wp_bind.
  eapply wp_mono.
  { apply (wp_for_range (λ k, I (k * W)) 0 (N `div` W)); [done | |].
    { split; [apply batch_done_start | done]. }
    intros k s' Hk [Hd Hl]. replace ((k + 1) * W) with (k * W + W) by lia.
    assert (E1 := Hl BufIn). assert (E2 := Hl BufOut).
    assert (E3 := Hl BufPars). assert (E4 := Hl BufTime). simpl in E1, E2, E3, E4.
    eapply wp_mono.
    - apply (buffered_block_done cf p (heap s) Hv (conj Wv (conj Wo (conj Wp Ww)))
               Hm Hap Hnd fptr_batch FptrBatch W k s'); first [done | nia].
    - intros r s'' (-> & Hd' & Hl'). split; [done |]. split; [done |].
      intros b. by rewrite Hl'. }
  intros r s1 [-> HI1]. simpl in HI1.
  eapply wp_mono.
  { apply (wp_for_range I (N `div` W * W) (N - N `div` W * W)); [lia | done |].
    intros k s' Hk [Hd Hl].
    assert (E1 := Hl BufIn). assert (E2 := Hl BufOut).
    assert (E3 := Hl BufPars). assert (E4 := Hl BufTime). simpl in E1, E2, E3, E4.
    eapply wp_ext.
    { apply bind_ext; [apply gather_point_block |]. intros ? s2.
      apply bind_ext; [apply when_some_ext; intros; apply gather_point_block |].
      intros ? s3.
      apply bind_ext; [apply when_some_ext; intros; apply gather_time_point_block |].
      intros ? s4. apply bind_ext; [reflexivity |]. intros ? s5.
      apply scatter_point_block. }
    eapply wp_mono.
    - apply (buffered_block_done cf p (heap s) Hv (conj Wv (conj Wo (conj Wp Ww)))
               Hm Hap Hnd fptr_scal FptrScal 1 k s');
        first [done | by replace (k * 1) with k by lia | nia].
    - intros r s'' (-> & Hd' & Hl'). split; [done |]. split.
      + by replace (k * 1 + 1) with (k + 1) in Hd' by lia.
      + intros b. by rewrite Hl'. }
  intros r s2 [-> HI2]. split; [done |].
  by replace (N `div` W * W + (N - N `div` W * W)) with N in HI2 by lia.
Qed.

(** X13. On the zero-copy path, a batch evaluation of [N] points computes
    the function point by point: when the call returns, column [k] of the
    array of outputs holds the outputs of the compiled function at column
    [k] of the inputs, of the parameters and at time value [k], for every
    [k] below [N]; and nothing but the array of outputs has been written. *)
Theorem batch_zero_copy_pointwise cf i oo po to s p :
  0 < simd_size cf →
  (prepare cf i oo po to s).1 = Ok p →
  p_multi_eval p = true → p_zero_copy p = true →
  Forall backed (supplied p) → 0 ≤ shape_at (p_inputs p) 1 →
  (call cf i oo po to s).1 = Ok (p_outputs p) ∧
  (∀ k, 0 ≤ k < shape_at (p_inputs p) 1 →
     column (heap (call cf i oo po to s).2) (p_outputs p) (nouts cf) k
     = batch_result cf p (heap (prepare cf i oo po to s).2) k) ∧
  (∀ x, x ∉ addresses (p_outputs p) →
     heap (call cf i oo po to s).2 x = heap (prepare cf i oo po to s).2 x).
Proof.
  intros HW Hp Hm Hz Hb HN. split; [by apply call_ok |].
  rewrite (call_state_after_prepare _ _ _ _ _ _ _ Hp).
  destruct (run_multi_zero_copy_done cf p (prepare cf i oo po to s).2) as [Hf Hd];
    try done.
  by apply (prepare_validated _ _ _ _ _ _ _ Hp).
Qed.

(** X14. On the buffered path, a batch evaluation of [N] points computes the
    same, provided the elements of the array of outputs overlap neither one
    another nor an element of the arrays that are read: column [k] of the
    array of outputs holds the outputs of the function at column [k] of the
    inputs, of the parameters and at time value [k]; nothing but the array
    of outputs has been written in the heap. *)
Theorem batch_buffered_pointwise cf i oo po to s p :
  cfunc_wf cf → 1 ≤ simd_size cf → scratch_sized cf (scr s) →
  (prepare cf i oo po to s).1 = Ok p →
  p_multi_eval p = true → p_zero_copy p = false →
  outputs_apart p → NoDup (addresses (p_outputs p)) →
  0 ≤ shape_at (p_inputs p) 1 →
  (call cf i oo po to s).1 = Ok (p_outputs p) ∧
  (∀ k, 0 ≤ k < shape_at (p_inputs p) 1 →
     column (heap (call cf i oo po to s).2) (p_outputs p) (nouts cf) k
     = batch_result cf p (heap (prepare cf i oo po to s).2) k) ∧
  (∀ x, x ∉ addresses (p_outputs p) →
     heap (call cf i oo po to s).2 x = heap (prepare cf i oo po to s).2 x).
Proof.
  intros Hwf HW Hsz Hp Hm Hz Hap Hnd HN. split; [by apply call_ok |].
  rewrite (call_state_after_prepare _ _ _ _ _ _ _ Hp).
  destruct (run_multi_buffered_done cf p (prepare cf i oo po to s).2) as [Hf Hd];
    try done.
  - by apply (prepare_validated _ _ _ _ _ _ _ Hp).
  - assert (Hs := prepare_same_scr cf i oo po to s). unfold same_scr in Hs.
    by rewrite Hs.
Qed.

(** ** What a call writes *)

#[global] Instance keeps_cell_preorder x : PreOrder (keeps_cell x).
Proof. split; [done |]. intros s1 s2 s3. unfold keeps_cell. congruence. Qed.

Lemma store_keeps_cell x p i v s :
  (∀ a, p = Some (LHeap a) → a + i ≠ x) → keeps_cell x s (store p i v s).
Proof.
  intros Hp. destruct p as [[a|? ?]|]; try done.
  apply upd_ne. intros ->. by apply (Hp a).
Qed.

Lemma store_list_keeps_cell x p idxs vals s :
  (∀ a i, p = Some (LHeap a) → i ∈ idxs → a + i ≠ x) →
  keeps_cell x s (store_list p idxs vals s).
Proof.
  revert vals s. induction idxs as [|i idxs IH]; intros [|v vals] s Hp; simpl; try done.
  etrans; [apply (store_keeps_cell x p i v) | apply IH].
  - intros a Ha. apply Hp; [done | left].
  - intros a j Ha Hj. apply Hp; [done | by right].
Qed.

Lemma foldl_store_lane_keeps_cell x cf po st lanes s :
  (∀ a i jv, po = Some (LHeap a) → 0 ≤ i < nouts cf → jv ∈ lanes →
     a + (i * st + jv.1) ≠ x) →
  keeps_cell x s (foldl (store_lane cf po st) s lanes).
Proof.
  revert s. induction lanes as [|jv lanes IH]; intros s Hp; simpl; [done |].
  etrans; [| apply IH].
  - unfold store_lane. apply store_list_keeps_cell.
    intros a i' Ha (i & -> & Hi)%list_elem_of_fmap. apply elem_of_seqZ in Hi.
    apply (Hp a i jv); [done | lia | left].
  - intros a i jv' Ha Hi Hjv. apply Hp; [done | done | by right].
Qed.

(** A kernel leaves alone every cell that is none of those its outputs
    pointer reaches. *)
Lemma kernel_keeps_cell x cf w st po pi pp pt :
  (∀ a i j, po = Some (LHeap a) → 0 ≤ i < nouts cf → 0 ≤ j < w →
     a + (i * st + j) ≠ x) →
  preserves (keeps_cell x) (kernel cf w st po pi pp pt).
Proof.
  intros Hp s. unfold kernel. simpl. apply foldl_store_lane_keeps_cell.
  intros a i jv Ha Hi (j & -> & Hj)%list_elem_of_fmap. apply elem_of_seqZ in Hj.
  simpl. apply Hp; [done | done | lia].
Qed.

Lemma log_keeps_cell x e : preserves (keeps_cell x) (log e).
Proof. by intros s. Qed.

Lemma set_scratch_keeps_cell x sc : preserves (keeps_cell x) (set_scratch sc).
Proof. by intros s. Qed.

Lemma heap_set_keeps_cell x a v : a ≠ x → preserves (keeps_cell x) (heap_set a v).
Proof. intros Ha s. unfold keeps_cell. simpl. apply upd_ne. congruence. Qed.

Lemma buffered_kernel_keeps_cell x cf w st pi pp pt bo :
  preserves (keeps_cell x) (kernel cf w st (Some (LBuf bo 0)) pi pp pt).
Proof. apply kernel_keeps_cell. by intros. Qed.

(** Copies into the scratch vectors and dense invocations on them do not
    write the heap. *)
Ltac keeps_cell_step x :=
  lazymatch goal with
  | |- preserves _ (log _) => apply (log_keeps_cell x)
  | |- preserves _ (set_scratch _) => apply (set_scratch_keeps_cell x)
  | |- preserves _ (kernel _ _ _ (Some (LBuf _ 0)) _ _ _) =>
      apply (buffered_kernel_keeps_cell x)
  | |- _ => preserves_step
  end.

Lemma gathers_keep_cell x cf p k w :
  preserves (keeps_cell x) (gather_block BufIn (p_inputs p) (nvars cf) w k) ∧
  preserves (keeps_cell x)
    (when_some (p_pars p) (λ pars, gather_block BufPars pars (nparams cf) w k)) ∧
  preserves (keeps_cell x) (when_some (p_time p) (λ time, gather_time_block time w k)) ∧
  preserves (keeps_cell x) (gather_point BufIn (p_inputs p) (nvars cf) k) ∧
  preserves (keeps_cell x)
    (when_some (p_pars p) (λ pars, gather_point BufPars pars (nparams cf) k)) ∧
  preserves (keeps_cell x) (when_some (p_time p) (λ time, gather_time_point time k)) ∧
  preserves (keeps_cell x) (gather1 BufIn (p_inputs p) (nvars cf)) ∧
  preserves (keeps_cell x)
    (when_some (p_pars p) (λ pars, gather1 BufPars pars (nparams cf))) ∧
  preserves (keeps_cell x)
    (fptr_batch cf (buf_ptr BufOut) (buf_ptr BufIn) (buf_ptr BufPars) (buf_ptr BufTime)) ∧
  preserves (keeps_cell x)
    (fptr_scal cf (buf_ptr BufOut) (buf_ptr BufIn) (buf_ptr BufPars) (buf_ptr BufTime)).
Proof.
  unfold gather_block, gather_time_block, gather_point, gather_time_point, gather1,
    buf_set, fptr_batch, fptr_scal, buf_ptr.
  repeat split; repeat (keeps_cell_step x).
Qed.

(** One strided invocation on the zero-copy path. *)
Lemma strided_step_keeps_cell x cf
    (fptr : cfunc → ptr → ptr → ptr → ptr → Z → M unit)
    kid w out_data off stride in_data par_data time_data :
  (∀ po pi pp pt s, fptr cf po pi pp pt stride s
     = (kernel cf w stride po pi pp pt)
         {| heap := heap s; brk := brk s; scr := scr s;
            trace := trace s ++ [EvKernel {| k_fptr := kid;
                 k_out := po; k_in := pi; k_par := pp; k_time := pt;
                 k_stride := Some stride |}] |}) →
  (∀ d i j, out_data = Some (LHeap d) → 0 ≤ i < nouts cf → 0 ≤ j < w →
     d + off + (i * stride + j) ≠ x) →
  preserves (keeps_cell x)
    (po <- padd ROut out_data off;;
     pi <- padd_if (0 <? nvars cf) RIn in_data off;;
     pp <- padd_if (0 <? nparams cf) RPar par_data off;;
     pt <- padd_if (is_time_dependent cf) RTime time_data off;;
     fptr cf po pi pp pt stride).
Proof.
  intros Hf Hx s.
  assert (Hk : ∀ pi pp pt,
    preserves (keeps_cell x) (kernel cf w stride (ptr_add out_data off) pi pp pt)).
  { intros pi pp pt. apply kernel_keeps_cell. intros a i j Ha.
    destruct out_data as [[d|? ?]|]; simpl in Ha; try done.
    injection Ha as <-. by apply Hx. }
  unfold bind, padd, padd_if, bind, log, ret. simpl.
  destruct (0 <? nvars cf), (0 <? nparams cf), (is_time_dependent cf); simpl;
    rewrite Hf;
    (match goal with
     | |- keeps_cell _ _ (kernel _ _ _ _ ?pi ?pp ?pt ?s').2 => apply (Hk pi pp pt s')
     end).
Qed.

Lemma scatter_block_keeps_cell x a n w k :
  (∀ i j, 0 ≤ i < n → 0 ≤ j < w → addr2 a i (k * w + j) ≠ x) →
  preserves (keeps_cell x) (scatter_block a n w k).
Proof.
  intros Ha. unfold scatter_block.
  apply (preserves_for_each_in (keeps_cell x)); intros i Hi%elem_of_seqZ.
  apply (preserves_for_each_in (keeps_cell x)); intros j Hj%elem_of_seqZ.
  apply (preserves_bind (keeps_cell x)); [apply preserves_buf_get, _ | intros v].
  apply heap_set_keeps_cell, Ha; lia.
Qed.

Lemma scatter_point_keeps_cell x a n k :
  (∀ i, 0 ≤ i < n → addr2 a i k ≠ x) →
  preserves (keeps_cell x) (scatter_point a n k).
Proof.
  intros Ha. unfold scatter_point.
  apply (preserves_for_each_in (keeps_cell x)); intros i Hi%elem_of_seqZ.
  apply (preserves_bind (keeps_cell x)); [apply preserves_buf_get, _ | intros v].
  apply heap_set_keeps_cell, Ha; lia.
Qed.

Lemma scatter1_keeps_cell x a n :
  (∀ i, 0 ≤ i < n → addr1 a i ≠ x) →
  preserves (keeps_cell x) (scatter1 a n).
Proof.
  intros Ha. unfold scatter1.
  apply (preserves_for_each_in (keeps_cell x)); intros i Hi%elem_of_seqZ.
  apply (preserves_bind (keeps_cell x)); [apply preserves_buf_get, _ | intros v].
  apply heap_set_keeps_cell, Ha; lia.
Qed.

(** The evaluation proper writes the heap in the array of outputs only. *)
Lemma run_keeps_cell x cf p :
  validated cf p → 0 ≤ simd_size cf →
  (p_multi_eval p = true → 0 ≤ shape_at (p_inputs p) 1) →
  x ∉ addresses (p_outputs p) →
  preserves (keeps_cell x) (run cf p).
Proof.
  intros Hv HW HN Hx. unfold run.
  assert (Hcarray : p_zero_copy p = true → is_npy_array_carray (p_outputs p) = true).
  { intros Hz. rewrite (v_zero_copy _ _ Hv) in Hz.
    apply zero_copy_of_true in Hz as [Hc _]. rewrite Forall_forall in Hc.
    apply Hc, supplied_outputs. }
  destruct (gathers_keep_cell x cf p 0 0) as (_ & _ & _ & _ & _ & _ & G1 & G2 & _ & F2).
  destruct (p_multi_eval p) eqn:Hm.
  - (* batch *)
    specialize (HN eq_refl). set (N := shape_at (p_inputs p) 1) in *.
    assert (Hnd : ndim (p_outputs p) = 2).
    { rewrite (v_out_ndim _ _ Hv). rewrite (v_multi _ _ Hv) in Hm.
      by apply bool_decide_eq_true in Hm. }
    destruct (ndim_2_shape _ Hnd) as (n0 & n1 & Hsh & Hs0 & Hs1).
    rewrite (v_out_nevals _ _ Hv Hm) in Hs1. fold N in Hs1.
    rewrite (v_nouts _ _ Hv) in Hs0. subst n0 n1.
    assert (Hq := quot_nonneg _ _ HN HW).
    assert (Hqw := mul_quot_le _ _ HN HW).
    assert (Hin : ∀ i c, 0 ≤ i < nouts cf → 0 ≤ c < N → addr2 (p_outputs p) i c ≠ x).
    { intros i c Hi Hc <-. apply Hx, addr2_in_addresses; [done | |].
      - by rewrite (v_nouts _ _ Hv).
      - rewrite (v_out_nevals _ _ Hv Hm). by fold N. }
    destruct (p_zero_copy p) eqn:Hz.
    + unfold run_multi_zero_copy. fold N.
      assert (Hlay : ∀ d i c, data_ptr (p_outputs p) = Some (LHeap d) →
                addr2 (p_outputs p) i c = d + (i * N + c)).
      { intros d i c Hd.
        destruct (contiguous_2d _ _ _ Hsh (Hcarray eq_refl)) as (d' & Hd' & Ha).
        - unfold data_ptr in Hd. unfold backed.
          destruct (nd_data (p_outputs p)) as [d0|]; [by exists d0 | done].
        - rewrite Hd' in Hd. injection Hd as <-. apply Ha. }
      apply (preserves_bind (keeps_cell x)); [| intros _];
        apply (preserves_for_each_in (keeps_cell x)); intros k Hk%elem_of_seqZ.
      * apply (strided_step_keeps_cell x cf fptr_batch_s FptrBatchS (simd_size cf));
          [done |].
        intros d i j Hd Hi Hj.
        replace (d + k * simd_size cf + (i * N + j))
          with (addr2 (p_outputs p) i (k * simd_size cf + j))
          by (rewrite (Hlay d) by done; lia).
        apply Hin; [done | nia].
      * apply (strided_step_keeps_cell x cf fptr_scal_s FptrScalS 1); [done |].
        intros d i j Hd Hi Hj.
        replace (d + k + (i * N + j)) with (addr2 (p_outputs p) i (k + j))
          by (rewrite (Hlay d) by done; lia).
        apply Hin; [done | lia].
    + unfold run_multi_buffered. fold N.
      apply (preserves_bind (keeps_cell x)); [| intros _];
        apply (preserves_for_each_in (keeps_cell x)); intros k Hk%elem_of_seqZ.
      * destruct (gathers_keep_cell x cf p k (simd_size cf))
          as (B1 & B2 & B3 & _ & _ & _ & _ & _ & B4 & _).
        apply (preserves_bind (keeps_cell x)); [exact B1 | intros _].
        apply (preserves_bind (keeps_cell x)); [exact B2 | intros _].
        apply (preserves_bind (keeps_cell x)); [exact B3 | intros _].
        apply (preserves_bind (keeps_cell x)); [exact B4 | intros _].
        apply scatter_block_keeps_cell. intros i j Hi Hj. apply Hin; [done | nia].
      * destruct (gathers_keep_cell x cf p k 0)
          as (_ & _ & _ & P1 & P2 & P3 & _ & _ & _ & P4).
        apply (preserves_bind (keeps_cell x)); [exact P1 | intros _].
        apply (preserves_bind (keeps_cell x)); [exact P2 | intros _].
        apply (preserves_bind (keeps_cell x)); [exact P3 | intros _].
        apply (preserves_bind (keeps_cell x)); [exact P4 | intros _].
        apply scatter_point_keeps_cell. intros i Hi. apply Hin; [done | lia].
  - (* single evaluation *)
    assert (Hnd : ndim (p_outputs p) = 1).
    { rewrite (v_out_ndim _ _ Hv). rewrite (v_multi _ _ Hv) in Hm.
      apply bool_decide_eq_false in Hm. by destruct (v_ndim _ _ Hv). }
    destruct (ndim_1_shape _ Hnd) as (n0 & Hsh & Hs0).
    rewrite (v_nouts _ _ Hv) in Hs0. subst n0.
    assert (Hin : ∀ i, 0 ≤ i < nouts cf → addr1 (p_outputs p) i ≠ x).
    { intros i Hi <-. apply Hx, addr1_in_addresses; [done |].
      by rewrite (v_nouts _ _ Hv). }
    destruct (p_zero_copy p) eqn:Hz.
    + unfold run_single_zero_copy, fptr_scal.
      apply (preserves_bind (keeps_cell x)); [apply log_keeps_cell | intros _].
      apply kernel_keeps_cell. intros a i j Ha Hi Hj.
      destruct (contiguous_1d _ _ Hsh (Hcarray eq_refl)) as (d' & Hd' & Had).
      { unfold data_ptr in Ha. unfold backed.
        destruct (nd_data (p_outputs p)) as [d0|]; [by exists d0 | done]. }
      rewrite Hd' in Ha. injection Ha as <-.
      replace (d' + (i * 1 + j)) with (addr1 (p_outputs p) i)
        by (rewrite Had; lia).
      by apply Hin.
    + unfold run_single_buffered.
      destruct (gathers_keep_cell x cf p 0 0)
        as (_ & _ & _ & _ & _ & P3 & _ & _ & _ & _).
      apply (preserves_bind (keeps_cell x)); [exact G1 | intros _].
      apply (preserves_bind (keeps_cell x)); [exact G2 | intros _].
      apply (preserves_bind (keeps_cell x)); [exact P3 | intros _].
      apply (preserves_bind (keeps_cell x)); [exact F2 | intros _].
      by apply scatter1_keeps_cell.
Qed.

(** X15. A call that returns has written nothing outside the array it
    returns: every cell that existed before the call and is not an element
    of the returned array holds what it held. *)
Theorem call_writes_only_outputs cf i oo po to s out :
  0 ≤ simd_size cf → (ndim i = 2 → 0 ≤ shape_at i 1) →
  (call cf i oo po to s).1 = Ok out →
  ∀ x, x < brk s → x ∉ addresses out →
    heap (call cf i oo po to s).2 x = heap s x.
Proof.
  intros HW HN Hc x Hb Hx. apply call_ok_inv in Hc as (p & Hp & ->).
  destruct (prepare_ok _ _ _ _ _ _ _ Hp) as ([_ Hfr] & Hv & Hsh & Hor & _).
  rewrite (call_state_after_prepare _ _ _ _ _ _ _ Hp).
  rewrite (run_keeps_cell x cf p Hv HW); [| | done].
  - apply Hfr; [done |]. intros (_ & o & -> & Hdt & Hxo).
    unfold outputs_origin in Hor. rewrite bool_decide_true in Hor by done.
    by subst o.
  - intros Hm. rewrite (shape_at_shape _ _ _ Hsh). apply HN.
    rewrite <- (ndim_shape _ _ Hsh). rewrite (v_multi _ _ Hv) in Hm.
    by apply bool_decide_eq_true in Hm.
Qed.

(** ** Construction *)

Lemma foldl_max_ge (fn : list expression) n :
  n ≤ foldl (λ acc ex, Z.max acc (get_param_size ex)) n fn ∧
  (∀ ex, ex ∈ fn → get_param_size ex ≤ foldl (λ acc ex, Z.max acc (get_param_size ex)) n fn).
Proof.
  revert n. induction fn as [|e fn IH]; intros n; simpl.
  { split; [done |]. by intros ex Hex%elem_of_nil. }
  destruct (IH (Z.max n (get_param_size e))) as [IH1 IH2]. split; [lia |].
  intros ex [->|Hex]%elem_of_cons; [lia | by apply IH2].
Qed.

Lemma foldl_max_attained (fn : list expression) n :
  foldl (λ acc ex, Z.max acc (get_param_size ex)) n fn = n ∨
  ∃ ex, ex ∈ fn ∧ get_param_size ex = foldl (λ acc ex, Z.max acc (get_param_size ex)) n fn.
Proof.
  revert n. induction fn as [|e fn IH]; intros n; simpl; [by left |].
  destruct (IH (Z.max n (get_param_size e))) as [IH1|(ex & Hex & IH2)].
  - rewrite IH1. destruct (Z.max_spec n (get_param_size e)) as [[_ ->]|[_ ->]].
    + right. exists e. split; [by left | done].
    + by left.
  - right. exists ex. split; [by right | done].
Qed.

Lemma foldl_or_true (fn : list expression) b :
  foldl (λ acc ex, acc || ex_is_time_dependent ex) b fn = true ↔
  b = true ∨ ∃ ex, ex ∈ fn ∧ ex_is_time_dependent ex = true.
Proof.
  revert b. induction fn as [|e fn IH]; intros b; simpl.
  { split; [by left |]. intros [?|(ex & Hex%elem_of_nil & _)]; done. }
  rewrite IH, orb_true_iff. split.
  - intros [[?|?]|(ex & Hex & Htd)]; [by left | |].
    + right. exists e. split; [by left | done].
    + right. exists ex. split; [by right | done].
  - intros [?|(ex & [->|Hex]%elem_of_cons & Htd)].
    + left. by left.
    + left. by right.
    + right. by exists ex.
Qed.

Lemma elem_of_concat_variables (fn : list expression) (v : string) :
  v ∈ concat (get_variables <$> fn) ↔ ∃ ex, ex ∈ fn ∧ v ∈ get_variables ex.
Proof.
  induction fn as [|e fn IH]; simpl.
  { split; [by intros Hv%elem_of_nil | by intros (ex & Hex%elem_of_nil & _)]. }
  rewrite elem_of_app, IH. split.
  - intros [Hv|(ex & Hex & Hv)]; [exists e | exists ex]; (split; [| done]);
      [by left | by right].
  - intros (ex & [->|Hex]%elem_of_cons & Hv); [by left | right; by exists ex].
Qed.

(** X16. What [add_cfunc] records of the function it compiles: a SIMD width
    above one only for [double]; as number of parameters, the largest
    parameter size of the expressions (0 when none has parameters); the
    function depends on time exactly when one expression does; the number
    of outputs is the number of expressions; and, when no list of variables
    is given, the number of variables is the number of distinct variables
    of the expressions, whatever their order and repetitions. *)
Theorem add_cfunc_metadata T fn vars batch_size prec_ kfn cf sc :
  add_cfunc T fn vars batch_size prec_ kfn = Ok (cf, sc) →
  (elt_type cf = Double ∨ simd_size cf ≤ 1) ∧
  simd_size cf = from_option id (recommended_simd_size T) batch_size ∧
  (∀ ex, ex ∈ fn → get_param_size ex ≤ nparams cf) ∧
  (0 < nparams cf → ∃ ex, ex ∈ fn ∧ get_param_size ex = nparams cf) ∧
  (is_time_dependent cf = true ↔ ∃ ex, ex ∈ fn ∧ ex_is_time_dependent ex = true) ∧
  (Z.of_nat (length fn) ≤ uint32_max → nouts cf = Z.of_nat (length fn)) ∧
  (∀ vs, vars = Some vs → Z.of_nat (length vs) ≤ uint32_max →
     nvars cf = Z.of_nat (length vs)) ∧
  (vars = None → ∀ l : list string, NoDup l →
     (∀ v, v ∈ l ↔ ∃ ex, ex ∈ fn ∧ v ∈ get_variables ex) →
     Z.of_nat (length l) ≤ uint32_max → nvars cf = Z.of_nat (length l)).
Proof.
  unfold add_cfunc.
  destruct (negb (is_double T) && (1 <? from_option id (recommended_simd_size T) batch_size))
    eqn:Hw; [done |].
  intros [= <- <-]. simpl.
  assert (Hu : ∀ z, 0 ≤ z ≤ uint32_max → static_cast_u32 z = z).
  { intros z Hz. unfold static_cast_u32. apply Z.mod_small.
    unfold uint32_max in Hz. lia. }
  split; [| split; [done |]].
  { apply andb_false_iff in Hw as [Hd|Hl].
    - left. destruct T; simpl in Hd; done.
    - right. apply Z.ltb_ge in Hl. lia. }
  split; [apply foldl_max_ge |]. split.
  { intros Hp. destruct (foldl_max_attained fn 0) as [E|?]; [lia | done]. }
  split.
  { rewrite foldl_or_true. split; [by intros [?|?] | by right]. }
  split; [intros Hl; apply Hu; lia |]. split.
  { intros vs -> Hl. apply Hu. lia. }
  intros -> l Hnd Hl Hlen.
  assert (Hperm : remove_dups (concat (get_variables <$> fn)) ≡ₚ l).
  { apply NoDup_Permutation; [apply NoDup_remove_dups | done |].
    intros v. by rewrite elem_of_remove_dups, Hl, elem_of_concat_variables. }
  rewrite (Permutation_length Hperm). apply Hu. lia.
Qed.


(** ** A batch evaluation and single evaluations *)





End MoreFacts.

(** ** Conversion of Python numbers *)

(** X20. [to_number] never reaches [from_numpy_ld] with an object that fails
    its assertion. A [float] always converts, to a [double] number. The
    conversion throws [TypeError] exactly for an object that is neither a
    [float] nor a [numpy.longdouble] and that cannot be cast to
    [mppp::real128] (or when the build has no [real128]); it throws a
    runtime error exactly for a [numpy.longdouble] whose data does not have
    the size of a [long double]. *)
Theorem to_number_outcomes pf o :
  to_number pf o ≠ Aborts ∧
  (ob_type o = PyFloatType → to_number pf o = Returns (NumDouble (ob_double o))) ∧
  (to_number pf o = Throws TypeError ↔
     ob_type o ≠ PyFloatType ∧ ob_type o ≠ NumpyLongDoubleType ∧
     (have_real128 pf = false ∨ ob_real128 o = None)) ∧
  (to_number pf o = Throws RuntimeError ↔
     ob_type o = NumpyLongDoubleType ∧
     Z.of_nat (length (ob_data o)) ≠ sizeof_long_double pf).
Proof.
  unfold to_number, from_numpy_ld, is_numpy_ld.
  destruct (decide (ob_type o = PyFloatType)) as [Hf|Hf].
  { rewrite bool_decide_true by done. repeat split; try done.
    - by intros (? & _).
    - intros (Hl & _). congruence. }
  rewrite (bool_decide_false (ob_type o = PyFloatType)) by done.
  destruct (decide (ob_type o = NumpyLongDoubleType)) as [Hl|Hl].
  { rewrite !bool_decide_true by done. simpl.
    destruct (decide (Z.of_nat (length (ob_data o)) ≠ sizeof_long_double pf)) as [Hs|Hs].
    - rewrite bool_decide_true by done. repeat split; try done. by intros (_ & ? & _).
    - rewrite bool_decide_false by done. repeat split; try done.
      + by intros (_ & ? & _).
      + by intros (_ & ?). }
  rewrite !bool_decide_false by done. simpl.
  destruct (have_real128 pf) eqn:Hr; [destruct (ob_real128 o) as [q|] eqn:Hq |];
    repeat split; try done; try (by intros (? & _)); try (by right); try (by left).
  by intros (_ & _ & [?|?]).
Qed.



(** ** More concrete calls *)

(** A decidable side condition, decided by evaluation. *)
Ltac decided := apply (bool_decide_unpack _); vm_compute; exact I.

(** The conditions on the arguments of one concrete call, one by one. *)
Ltac settled :=
  repeat split;
  first [ done | by vm_compute | by left | by right
        | by (intros ? [= <-]; left) | by intros ? [=] ].

Lemma single_eval_one_invocation_witness :
  (call cf_sum in_single None None None (demo_state cf_sum)).1
  = Ok (p_outputs prepared_single) ∧
  trace (call cf_sum in_single None None None (demo_state cf_sum)).2
  = trace (demo_state cf_sum)
    ++ [EvKernel (if p_zero_copy prepared_single then direct_call prepared_single
                  else buffer_call FptrScal)].
Proof.
  apply (single_eval_one_invocation cf_sum in_single None None None
           (demo_state cf_sum) prepared_single); evaluated.
Defined.

Lemma batch_buffered_invocations_witness :
  (call cf_sum in_strided5 None None None (demo_state cf_sum)).1
  = Ok (p_outputs prepared_strided5) ∧
  trace (call cf_sum in_strided5 None None None (demo_state cf_sum)).2
  = trace (demo_state cf_sum)
    ++ replicate (Z.to_nat (5 `div` 2)) (EvKernel (buffer_call FptrBatch))
    ++ replicate (Z.to_nat (5 `mod` 2)) (EvKernel (buffer_call FptrScal)).
Proof.
  apply (batch_buffered_invocations cf_sum in_strided5 None None None
           (demo_state cf_sum) prepared_strided5); evaluated.
Defined.

Lemma zero_copy_leaves_scratch_witness :
  scr (call cf_sum in_batch5 None None None (demo_state cf_sum)).2
  = scr (demo_state cf_sum).
Proof.
  apply (zero_copy_leaves_scratch cf_sum in_batch5 None None None
           (demo_state cf_sum) prepared_batch5); evaluated.
Defined.

Lemma unsafe_casts_rejected_in_order_witness :
  (call cf_sum in_longdouble None None None (demo_state cf_sum)).1
  = Raise (UnsafeCast RIn).
Proof.
  apply (proj1 (unsafe_casts_rejected_in_order cf_sum in_longdouble None None None
                  (demo_state cf_sum))).
  split; [by vm_compute | reflexivity].
Defined.

Lemma real_call_convertible : convertible cf_real real_in None None None.
Proof. repeat split; try (by intros ? [=]). by left. Qed.

Lemma missing_arguments_rejected_witness :
  (call cf_real real_in None None None real_state).1 = Raise MissingParameters.
Proof.
  apply (proj1 (missing_arguments_rejected cf_real real_in None None None real_state
                  real_call_convertible)); [by vm_compute | reflexivity].
Defined.

Lemma sum_call_convertible i :
  nd_dtype i = 12 → convertible cf_sum i None None None.
Proof. intros Hi. repeat split; try (by intros ? [=]). by left. Qed.

Lemma inputs_shape_rejected_witness :
  (call cf_sum in_three None None None (demo_state cf_sum)).1
  = Raise (SizeMismatch RIn).
Proof.
  apply (inputs_shape_rejected cf_sum in_three None None None (demo_state cf_sum)
           (sum_call_convertible in_three eq_refl)); evaluated.
Defined.

Lemma array_time_rejected_in_single_eval_witness :
  (call cf_sum in_single None None (Some (inr time_one)) (demo_state cf_sum)).1
  = Raise ScalarTimeExpected.
Proof.
  apply (array_time_rejected_in_single_eval cf_sum in_single None None
           (Some (inr time_one)) (demo_state cf_sum) time_one); try evaluated.
  repeat split; try (by intros ? [=]); try (by left). intros t [= <-]. by left.
Defined.

Lemma sum_single_early_checks : early_checks_pass cf_sum in_single None None.
Proof. unfold early_checks_pass. settled. Qed.

Lemma outputs_shape_rejected_witness :
  (call cf_sum in_single (Some out_two) None None (demo_state cf_sum)).1
  = Raise (SizeMismatch ROut).
Proof.
  apply (outputs_shape_rejected cf_sum in_single out_two None None (demo_state cf_sum)
           sum_single_early_checks); evaluated.
Defined.

Lemma par_single_early_checks : early_checks_pass cf_par in_one (Some pars_two) None.
Proof. unfold early_checks_pass. settled. Qed.

Lemma pars_shape_rejected_witness :
  (call cf_par in_one None (Some pars_two) None (demo_state cf_par)).1
  = Raise (SizeMismatch RPar).
Proof.
  apply (pars_shape_rejected cf_par in_one None pars_two None (demo_state cf_par));
    first [exact par_single_early_checks | evaluated | by intros ? [=]].
Defined.



Lemma call_accepted_iff_valid_witness :
  (∃ out, (call cf_sum in_single None None None (demo_state cf_sum)).1 = Ok out)
  ↔ valid_call cf_sum in_single None None None.
Proof.
  apply (call_accepted_iff_valid cf_sum in_single None None None (demo_state cf_sum));
    evaluated.
Defined.

Lemma returned_array_shape_witness :
  nd_dtype (dense_array 12 [1] 100) = get_dtype (elt_type cf_sum) ∧
  nd_writeable (dense_array 12 [1] 100) = true ∧
  nd_shape (dense_array 12 [1] 100)
  = (if bool_decide (ndim in_single = 2) then [nouts cf_sum; shape_at in_single 1]
     else [nouts cf_sum]).
Proof.
  apply (returned_array_shape cf_sum in_single None None None (demo_state cf_sum)
           (dense_array 12 [1] 100)); evaluated.
Defined.

Lemma batch_zero_copy_pointwise_witness :
  (call cf_sum in_batch5 None None None (demo_state cf_sum)).1
  = Ok (p_outputs prepared_batch5) ∧
  (∀ k, 0 ≤ k < shape_at (p_inputs prepared_batch5) 1 →
     column (heap (call cf_sum in_batch5 None None None (demo_state cf_sum)).2)
       (p_outputs prepared_batch5) (nouts cf_sum) k
     = batch_result cf_sum prepared_batch5
         (heap (prepare cf_sum in_batch5 None None None (demo_state cf_sum)).2) k) ∧
  (∀ x, x ∉ addresses (p_outputs prepared_batch5) →
     heap (call cf_sum in_batch5 None None None (demo_state cf_sum)).2 x
     = heap (prepare cf_sum in_batch5 None None None (demo_state cf_sum)).2 x).
Proof.
  apply (batch_zero_copy_pointwise cf_sum in_batch5 None None None
           (demo_state cf_sum) prepared_batch5); try decided; evaluated.
Defined.

Lemma strided5_apart : outputs_apart prepared_strided5.
Proof.
  intros a Ha. apply Forall_forall. revert a Ha. apply Forall_forall. decided.
Qed.

Lemma batch_buffered_pointwise_witness :
  (call cf_sum in_strided5 None None None (demo_state cf_sum)).1
  = Ok (p_outputs prepared_strided5) ∧
  (∀ k, 0 ≤ k < shape_at (p_inputs prepared_strided5) 1 →
     column (heap (call cf_sum in_strided5 None None None (demo_state cf_sum)).2)
       (p_outputs prepared_strided5) (nouts cf_sum) k
     = batch_result cf_sum prepared_strided5
         (heap (prepare cf_sum in_strided5 None None None (demo_state cf_sum)).2) k) ∧
  (∀ x, x ∉ addresses (p_outputs prepared_strided5) →
     heap (call cf_sum in_strided5 None None None (demo_state cf_sum)).2 x
     = heap (prepare cf_sum in_strided5 None None None (demo_state cf_sum)).2 x).
Proof.
  apply (batch_buffered_pointwise cf_sum in_strided5 None None None
           (demo_state cf_sum) prepared_strided5);
    first [exact strided5_apart | decided | evaluated].
Defined.

Lemma call_writes_only_outputs_witness :
  heap (call cf_sum in_single (Some out_alias) None None (demo_state cf_sum)).2 0
  = heap (demo_state cf_sum) 0.
Proof.
  apply (call_writes_only_outputs cf_sum in_single (Some out_alias) None None
           (demo_state cf_sum) out_alias); first [decided | evaluated].
Defined.

Lemma add_cfunc_metadata_witness :
  (elt_type cf_real = Double ∨ simd_size cf_real ≤ 1) ∧
  simd_size cf_real = from_option id (recommended_simd_size Real) None ∧
  (∀ ex, ex ∈ [expr_x_par] → get_param_size ex ≤ nparams cf_real) ∧
  (0 < nparams cf_real →
     ∃ ex, ex ∈ [expr_x_par] ∧ get_param_size ex = nparams cf_real) ∧
  (is_time_dependent cf_real = true ↔
     ∃ ex, ex ∈ [expr_x_par] ∧ ex_is_time_dependent ex = true) ∧
  (Z.of_nat (length [expr_x_par]) ≤ uint32_max →
     nouts cf_real = Z.of_nat (length [expr_x_par])) ∧
  (∀ vs : list expression, None = Some vs → Z.of_nat (length vs) ≤ uint32_max →
     nvars cf_real = Z.of_nat (length vs)) ∧
  (@None (list expression) = None → ∀ l : list string, NoDup l →
     (∀ v, v ∈ l ↔ ∃ ex, ex ∈ [expr_x_par] ∧ v ∈ get_variables ex) →
     Z.of_nat (length l) ≤ uint32_max → nvars cf_real = Z.of_nat (length l)).
Proof.
  apply (add_cfunc_metadata Real [expr_x_par] None None 113 real_sum_fn cf_real
           (scratch_of cf_real)).
  reflexivity.
Defined.






